(** * Library system: availability bookkeeping and seed generator

    A shallow embedding of [projectsite/book/models.py] and of
    [Command.create_borrowings] from
    [projectsite/book/management/commands/create_initial_data.py].

    Python model objects are records; the database tables are finite maps
    from primary keys to records; code that reads and writes the database
    runs in a state-and-exception monad over the database. *)

From Stdlib Require Import ZArith String Ascii List Lia Bool.
From Stdlib Require Import DecimalString DecimalN DecimalPos DecimalFacts.
From stdpp Require Import gmap strings list fin_maps.

Local Open Scope Z_scope.

(** ** Python string primitives used by [BookInstance.save] *)

(** [str(n)] for a natural number: its decimal digits, ["0"] for zero. *)
Definition decimal (n : N) : string :=
  NilZero.string_of_uint (N.to_uint n).

(** A run of [k] zero characters. *)
Fixpoint zeros (k : nat) : string :=
  match k with
  | O => EmptyString
  | S k' => String "0" (zeros k')
  end.

(** Left padding with zeros up to [w] characters; longer strings are left
    as they are. *)
Definition zfill (w : nat) (s : string) : string :=
  zeros (w - String.length s) +:+ s.

(** The format specification [{z:0wd}]: sign first, then zeros up to a total
    width of [w] characters, then the digits. *)
Definition format_0d (w : nat) (z : Z) : string :=
  if z <? 0
  then "-" +:+ zfill (w - 1) (decimal (Z.to_N (- z)))
  else zfill w (decimal (Z.to_N z)).

(** [s.split('-')[-1]]: what follows the last hyphen, or all of [s] when it
    has none.  [acc] is the segment read so far. *)
Fixpoint last_segment_from (acc s : string) : string :=
  match s with
  | EmptyString => acc
  | String c s' =>
      if Ascii.eqb c "-" then last_segment_from "" s'
      else last_segment_from (acc +:+ String c "") s'
  end.

Definition last_segment (s : string) : string := last_segment_from "" s.

(** [int(s)] on a non-empty string of ASCII digits; any other string is
    taken as the [ValueError] of an invalid literal ([None]). *)
Definition py_int (s : string) : option Z :=
  match s with
  | EmptyString => None
  | _ => (fun d => Z.of_N (N.of_uint d)) <$> NilEmpty.uint_of_string s
  end.

(** [k] leading zeros in front of a numeral. *)
Fixpoint lead_zeros (k : nat) (d : Decimal.uint) : Decimal.uint :=
  match k with
  | O => d
  | S k' => Decimal.D0 (lead_zeros k' d)
  end.

(** ** Model objects

    Each record is a Python model object.  Only the fields that the
    embedded methods read or write are kept.  A foreign key is the key
    column together with the cache of the related object, which Django
    fills on first access. *)

Record Book := mkBook {
  book_pk : option Z;            (* id, [None] before the first save *)
  total_copies : Z;
  available_copies : Z
}.

Inductive Condition := excellent | good | fair | damaged.

Record BookInstance := mkBookInstance {
  instance_pk : option Z;        (* id *)
  book_id : Z;                   (* column of the foreign key [book] *)
  book : option Book;            (* cached related object *)
  inventory_number : string;
  condition : Condition;
  is_available : bool
}.

Record Borrowing := mkBorrowing {
  pk : option Z;
  book_instance_id : Z;          (* column of the foreign key [book_instance] *)
  book_instance : option BookInstance;   (* cached related object *)
  borrower_id : Z;
  borrow_date : Z;               (* seconds *)
  due_date : Z;                  (* days *)
  return_date : option Z;
  is_returned : bool;
  fine : Z                       (* hundredths *)
}.

Definition set_available_copies (n : Z) (b : Book) : Book :=
  mkBook (book_pk b) (total_copies b) n.

Definition set_book_pk (k : Z) (b : Book) : Book :=
  mkBook (Some k) (total_copies b) (available_copies b).

Definition set_is_available (v : bool) (i : BookInstance) : BookInstance :=
  mkBookInstance (instance_pk i) (book_id i) (book i) (inventory_number i)
    (condition i) v.

Definition set_book (b : Book) (i : BookInstance) : BookInstance :=
  mkBookInstance (instance_pk i) (book_id i) (Some b) (inventory_number i)
    (condition i) (is_available i).

Definition set_inventory_number (s : string) (i : BookInstance) : BookInstance :=
  mkBookInstance (instance_pk i) (book_id i) (book i) s
    (condition i) (is_available i).

Definition set_instance_pk (k : Z) (i : BookInstance) : BookInstance :=
  mkBookInstance (Some k) (book_id i) (book i) (inventory_number i)
    (condition i) (is_available i).

Definition set_book_instance (i : BookInstance) (b : Borrowing) : Borrowing :=
  mkBorrowing (pk b) (book_instance_id b) (Some i) (borrower_id b)
    (borrow_date b) (due_date b) (return_date b) (is_returned b) (fine b).

Definition set_returned (now : Z) (b : Borrowing) : Borrowing :=
  mkBorrowing (pk b) (book_instance_id b) (book_instance b) (borrower_id b)
    (borrow_date b) (due_date b) (Some now) true (fine b).

Definition set_pk (k : Z) (b : Borrowing) : Borrowing :=
  mkBorrowing (Some k) (book_instance_id b) (book_instance b) (borrower_id b)
    (borrow_date b) (due_date b) (return_date b) (is_returned b) (fine b).

(** The rows written to a table carry no cache. *)
Definition instance_row (i : BookInstance) : BookInstance :=
  mkBookInstance (instance_pk i) (book_id i) None (inventory_number i)
    (condition i) (is_available i).

Definition borrowing_row (b : Borrowing) : Borrowing :=
  mkBorrowing (pk b) (book_instance_id b) None (borrower_id b)
    (borrow_date b) (due_date b) (return_date b) (is_returned b) (fine b).

(** ** The database *)

Record World := mkWorld {
  books : gmap Z Book;
  instances : gmap Z BookInstance;
  borrowings : gmap Z Borrowing;
  users : list Z;
  next_book_id : Z;              (* the three auto-increment counters *)
  next_instance_id : Z;
  next_borrowing_id : Z
}.

Definition empty_world (us : list Z) : World :=
  mkWorld ∅ ∅ ∅ us 1 1 1.

(** ** Exceptions and the monad of database code *)

Inductive exn :=
| InstanceUnavailable      (* ValueError("This book copy is not available!") *)
| InvalidLiteral           (* ValueError raised by int() *)
| DoesNotExist             (* a related row that is not in its table *)
| UnsavedRelated           (* a related object without primary key *)
| IndexError.              (* random.choice on an empty list *)

Definition M (A : Type) : Type := World -> World * (exn + A).

Definition ret {A} (a : A) : M A := fun w => (w, inr a).

Definition raise {A} (e : exn) : M A := fun w => (w, inl e).

Definition bind {A B} (m : M A) (k : A -> M B) : M B :=
  fun w =>
    match m w with
    | (w', inr a) => k a w'
    | (w', inl e) => (w', inl e)
    end.

Definition gets {A} (f : World -> A) : M A := fun w => (w, inr (f w)).

Definition modify (f : World -> World) : M unit := fun w => (f w, inr tt).

Notation "'do' x <- m ; k" := (bind m (fun x => k))
  (at level 10, x name, m at level 100, k at level 200).

(** [x or raise e] on an optional value. *)
Definition unwrap {A} (e : exn) (o : option A) : M A :=
  match o with
  | Some a => ret a
  | None => raise e
  end.

(** ** The object-relational layer

    What the embedded methods use of Django: [Model.save], the access to a
    related object through a foreign key, and the queries of the two
    source files. *)

Definition with_books (f : gmap Z Book -> gmap Z Book) (w : World) : World :=
  mkWorld (f (books w)) (instances w) (borrowings w) (users w)
    (next_book_id w) (next_instance_id w) (next_borrowing_id w).

Definition with_instances (f : gmap Z BookInstance -> gmap Z BookInstance)
    (w : World) : World :=
  mkWorld (books w) (f (instances w)) (borrowings w) (users w)
    (next_book_id w) (next_instance_id w) (next_borrowing_id w).

Definition with_borrowings (f : gmap Z Borrowing -> gmap Z Borrowing)
    (w : World) : World :=
  mkWorld (books w) (instances w) (f (borrowings w)) (users w)
    (next_book_id w) (next_instance_id w) (next_borrowing_id w).

Definition bump_book_id (w : World) : World :=
  mkWorld (books w) (instances w) (borrowings w) (users w)
    (next_book_id w + 1) (next_instance_id w) (next_borrowing_id w).

Definition bump_instance_id (w : World) : World :=
  mkWorld (books w) (instances w) (borrowings w) (users w)
    (next_book_id w) (next_instance_id w + 1) (next_borrowing_id w).

Definition bump_borrowing_id (w : World) : World :=
  mkWorld (books w) (instances w) (borrowings w) (users w)
    (next_book_id w) (next_instance_id w) (next_borrowing_id w + 1).

(** [super().save()]: an object with a primary key overwrites (or inserts)
    the row of that key; an object without one is inserted under the next
    value of the counter and receives it as primary key.  The write itself
    never fails: storage failures are outside the model. *)
Definition Model_save_Book (self : Book) : M Book :=
  match book_pk self with
  | Some k =>
      do _ <- modify (with_books (insert k self));
      ret self
  | None =>
      do k <- gets next_book_id;
      let self := set_book_pk k self in
      do _ <- modify (fun w => bump_book_id (with_books (insert k self) w));
      ret self
  end.

Definition Model_save_BookInstance (self : BookInstance) : M BookInstance :=
  match instance_pk self with
  | Some k =>
      do _ <- modify (with_instances (insert k (instance_row self)));
      ret self
  | None =>
      do k <- gets next_instance_id;
      let self := set_instance_pk k self in
      do _ <- modify (fun w =>
                bump_instance_id (with_instances (insert k (instance_row self)) w));
      ret self
  end.

Definition Model_save_Borrowing (self : Borrowing) : M Borrowing :=
  match pk self with
  | Some k =>
      do _ <- modify (with_borrowings (insert k (borrowing_row self)));
      ret self
  | None =>
      do k <- gets next_borrowing_id;
      let self := set_pk k self in
      do _ <- modify (fun w =>
                bump_borrowing_id (with_borrowings (insert k (borrowing_row self)) w));
      ret self
  end.

(** An object read from a table has the key of its row as primary key and
    an empty cache. *)
Definition load_Book (kv : Z * Book) : Book := set_book_pk kv.1 kv.2.

Definition load_BookInstance (kv : Z * BookInstance) : BookInstance :=
  set_instance_pk kv.1 (instance_row kv.2).

Definition load_Borrowing (kv : Z * Borrowing) : Borrowing :=
  set_pk kv.1 (borrowing_row kv.2).

(** [Model.objects.get(pk=k)]. *)
Definition Book_objects_get (k : Z) : M Book :=
  do o <- gets (fun w => books w !! k);
  do r <- unwrap DoesNotExist o;
  ret (load_Book (k, r)).

Definition BookInstance_objects_get (k : Z) : M BookInstance :=
  do o <- gets (fun w => instances w !! k);
  do r <- unwrap DoesNotExist o;
  ret (load_BookInstance (k, r)).

Definition Borrowing_objects_get (k : Z) : M Borrowing :=
  do o <- gets (fun w => borrowings w !! k);
  do r <- unwrap DoesNotExist o;
  ret (load_Borrowing (k, r)).

(** [self.book]: the cached object, or the row of [self.book_id]. *)
Definition related_book (self : BookInstance) : M Book :=
  match book self with
  | Some b => ret b
  | None => Book_objects_get (book_id self)
  end.

(** [self.book_instance]. *)
Definition related_book_instance (self : Borrowing) : M BookInstance :=
  match book_instance self with
  | Some i => ret i
  | None => BookInstance_objects_get (book_instance_id self)
  end.

(** [BookInstance.objects.filter(book=b)], as pairs of key and row. *)
Definition instances_of_book (b : Z) (w : World) : list (Z * BookInstance) :=
  filter (fun kv => book_id kv.2 = b) (map_to_list (instances w)).

(** [.order_by('id').last()]: the row of greatest key, if any. *)
Definition last_by_id (l : list (Z * BookInstance)) : option (Z * BookInstance) :=
  foldr (fun kv acc =>
           match acc with
           | None => Some kv
           | Some kv' => if kv'.1 <? kv.1 then Some kv else Some kv'
           end) None l.

(** [list(BookInstance.objects.filter(is_available=True))].  The order of
    the rows is left to the map: the only reader, [random.choice], may
    return any of them. *)
Definition available_instances_query (w : World) : list BookInstance :=
  load_BookInstance <$>
    filter (fun kv => is_available kv.2 = true) (map_to_list (instances w)).

(** ** models.py *)

(** The book that [Book.save] writes. *)
Definition clamped (b : Book) : Book :=
  if available_copies b >? total_copies b
  then set_available_copies (total_copies b) b
  else b.

(** [Book.save] *)
Definition Book_save (self : Book) : M Book :=
  (* Keep available_copies ≤ total_copies *)
  let self :=
    if available_copies self >? total_copies self
    then set_available_copies (total_copies self) self
    else self in
  Model_save_Book self.

(** The f-string [f"{book_id:03d}-{num:04d}"]. *)
Definition inventory_format (b num : Z) : string :=
  format_0d 3 b +:+ "-" +:+ format_0d 4 num.

(** [BookInstance.save] *)
Definition BookInstance_save (self : BookInstance) : M BookInstance :=
  if String.eqb (inventory_number self) "" then
    do bk <- related_book self;
    let self := set_book bk self in
    do b <- unwrap UnsavedRelated (book_pk bk);
    do last <- gets (fun w => last_by_id (instances_of_book b w));
    do num <- match last with
              | None => ret 1
              | Some kv =>
                  do n <- unwrap InvalidLiteral
                            (py_int (last_segment (inventory_number kv.2)));
                  ret (n + 1)
              end;
    Model_save_BookInstance
      (set_inventory_number (inventory_format b num) self)
  else Model_save_BookInstance self.

(** [not self.pk]: true without a primary key and for the key 0. *)
Definition not_pk (k : option Z) : bool :=
  match k with
  | None => true
  | Some z => z =? 0
  end.

(** [Borrowing.save] *)
Definition Borrowing_save (self : Borrowing) : M Borrowing :=
  if not_pk (pk self) then
    (* new borrowing *)
    do inst <- related_book_instance self;
    let self := set_book_instance inst self in
    if is_available inst then
      let inst := set_is_available false inst in
      let self := set_book_instance inst self in
      do bk <- related_book inst;
      let bk := set_available_copies (available_copies bk - 1) bk in
      do bk <- Book_save bk;
      let inst := set_book bk inst in
      do inst <- BookInstance_save inst;
      let self := set_book_instance inst self in
      Model_save_Borrowing self
    else raise InstanceUnavailable
  else Model_save_Borrowing self.

(** [Borrowing.mark_as_returned]; [now] is the value of [timezone.now()]. *)
Definition mark_as_returned (now : Z) (self : Borrowing) : M Borrowing :=
  if negb (is_returned self) then
    let self := set_returned now self in
    do inst <- related_book_instance self;
    let inst := set_is_available true inst in
    do bk <- related_book inst;
    let bk := set_available_copies (available_copies bk + 1) bk in
    do bk <- Book_save bk;
    let inst := set_book bk inst in
    do inst <- BookInstance_save inst;
    let self := set_book_instance inst self in
    Borrowing_save self
  else ret self.

(** ** create_initial_data.py: [Command.create_borrowings] *)

(** What one pass of the loop draws from [random], [Faker] and the clock. *)
Record Draw := mkDraw {
  pick_instance : nat;     (* random.choice(available_instances) *)
  pick_user : nat;         (* random.choice(users) *)
  borrow_dt : Z;           (* fake.date_time_between("-120d", "now") *)
  due_days : Z;            (* random.randint(7, 21) *)
  returned : bool;         (* random.random() < 0.55 *)
  clock : Z                (* timezone.now() in mark_as_returned *)
}.

(** [random.choice(l)]: the draw selects a position of [l]. *)
Definition choice {A} (n : nat) (l : list A) : M A :=
  unwrap IndexError (l !! (n mod length l)%nat).

(** [Borrowing.objects.create(book_instance=instance, borrower=borrower,
    borrow_date=.., due_date=.., is_returned=False, fine=0.00)]. *)
Definition Borrowing_objects_create (instance : BookInstance)
    (borrower borrow_dt due : Z) : M Borrowing :=
  do i <- unwrap UnsavedRelated (instance_pk instance);
  Borrowing_save
    (mkBorrowing None i (Some instance) borrower borrow_dt due None false 0).

(** How the [while] loop was left. *)
Inductive LoopExit :=
| ConditionFalse     (* created >= count or tries >= max_tries *)
| PoolEmpty.         (* break: the refreshed pool is empty *)

Record LoopEnd := mkLoopEnd {
  exit : LoopExit;
  created : Z;
  tries : Z
}.

(** The [while] loop, one pass per unit of [fuel]; [None] when the fuel runs
    out before the loop is left.  [rng] gives the draws of pass number
    [tries]. *)
Fixpoint borrowing_loop (fuel : nat) (rng : nat -> Draw) (users : list Z)
    (count max_tries : Z) (available_instances : list BookInstance)
    (created tries : Z) : M (option LoopEnd) :=
  if (created <? count) && (tries <? max_tries) then
    match fuel with
    | O => ret None
    | S fuel' =>
        let tries := tries + 1 in
        let d := rng (Z.to_nat tries) in
        do available_instances <-
          match available_instances with
          | [] => gets available_instances_query
          | _ => ret available_instances
          end;
        match available_instances with
        | [] => ret (Some (mkLoopEnd PoolEmpty created tries))
        | _ =>
            do instance <- choice (pick_instance d) available_instances;
            do borrower <- choice (pick_user d) users;
            let due := (borrow_dt d + due_days d * 86400) / 86400 in
            do borrowing <-
              Borrowing_objects_create instance borrower (borrow_dt d) due;
            do _ <- (if returned d
                     then mark_as_returned (clock d) borrowing
                     else ret borrowing);
            let available_instances :=
              filter (fun bi => instance_pk bi <> instance_pk instance)
                available_instances in
            borrowing_loop fuel' rng users count max_tries
              available_instances (created + 1) tries
        end
    end
  else ret (Some (mkLoopEnd ConditionFalse created tries)).

(** What the command reports on its standard output. *)
Inductive Report :=
| NoUsersFound               (* "No users found. Seed users first." *)
| NoInstancesFound           (* "No available book instances found. ..." *)
| CreatedRecords (n : Z).    (* "Created {n} borrowing records." *)

(** [Command.create_borrowings] *)
Definition create_borrowings (fuel : nat) (rng : nat -> Draw) (count : Z)
    : M (option Report) :=
  do users <- gets users;
  do available_instances <- gets available_instances_query;
  match users with
  | [] => ret (Some NoUsersFound)
  | _ =>
      match available_instances with
      | [] => ret (Some NoInstancesFound)
      | _ =>
          let max_tries := count * 10 in
          do r <- borrowing_loop fuel rng users count max_tries
                    available_instances 0 0;
          ret ((fun e => CreatedRecords (created e)) <$> r)
      end
  end.

(** ** Operations issued by the callers of the model

    The states of the catalogue are those that calls of the model's
    operations produce from the empty database.  Each call works on
    objects read from the database at the time of the call. *)

Inductive Op :=
| NewBook (total available : Z)
    (* Book.objects.create(total_copies=.., available_copies=..) *)
| SetCopyCounts (k total available : Z)
    (* b = Book.objects.get(pk=k); b.total_copies = ..;
       b.available_copies = ..; b.save() *)
| NewInstance (k : Z) (c : Condition)
    (* BookInstance.objects.create(book=Book.objects.get(pk=k),
         condition=c, is_available=True) *)
| CreateBorrowing (k borrower borrow_dt due : Z)
    (* Borrowing.objects.create(
         book_instance=BookInstance.objects.get(pk=k), .., is_returned=False) *)
| MarkReturned (k now : Z).
    (* Borrowing.objects.get(pk=k).mark_as_returned() *)

Definition run_op (op : Op) : M unit :=
  match op with
  | NewBook total available =>
      do _ <- Book_save (mkBook None total available);
      ret tt
  | SetCopyCounts k total available =>
      do b <- Book_objects_get k;
      do _ <- Book_save (mkBook (book_pk b) total available);
      ret tt
  | NewInstance k c =>
      do b <- Book_objects_get k;
      do _ <- BookInstance_save (mkBookInstance None k (Some b) "" c true);
      ret tt
  | CreateBorrowing k borrower borrow_dt due =>
      do i <- BookInstance_objects_get k;
      do _ <- Borrowing_objects_create i borrower borrow_dt due;
      ret tt
  | MarkReturned k now =>
      do b <- Borrowing_objects_get k;
      do _ <- mark_as_returned now b;
      ret tt
  end.

(** The copy counts are [PositiveIntegerField]s: an operation sets them to
    non-negative values only. *)
Definition op_valid (op : Op) : Prop :=
  match op with
  | NewBook total available => 0 <= total /\ 0 <= available
  | SetCopyCounts _ total available => 0 <= total /\ 0 <= available
  | _ => True
  end.

Inductive reachable (us : list Z) : World -> Prop :=
| reachable_empty : reachable us (empty_world us)
| reachable_step w op :
    reachable us w -> op_valid op -> reachable us (run_op op w).1.

(** ** Specifications of database code

    [hoare P m Q E]: from a database that satisfies [P], the code [m] either
    returns a value [a] in a database that satisfies [Q a], or raises an
    exception [e] in a database that satisfies [E e]. *)
Definition hoare {A} (P : World -> Prop) (m : M A)
    (Q : A -> World -> Prop) (E : exn -> World -> Prop) : Prop :=
  forall w, P w ->
    match m w with
    | (w', inr a) => Q a w'
    | (w', inl e) => E e w'
    end.

(** The state after a list of operations. *)
Definition run_ops (ops : list Op) (w : World) : World :=
  foldl (fun w op => (run_op op w).1) w ops.

(** ** Consistency of the database *)

(** The number that [BookInstance.save] reads back from the inventory
    number of a row. *)
Definition sequence_of (r : BookInstance) : Z :=
  default 0 (py_int (last_segment (inventory_number r))).

(** The number that [BookInstance.save] gives to the next copy of book [b]. *)
Definition next_number (b : Z) (w : World) : option Z :=
  match last_by_id (instances_of_book b w) with
  | None => Some 1
  | Some kv =>
      (fun n => n + 1) <$> py_int (last_segment (inventory_number kv.2))
  end.

(** The borrowing of key [k] is a borrowing of the copy [i] that is not
    returned. *)
Definition outstanding (w : World) (i k : Z) : Prop :=
  exists b, borrowings w !! k = Some b /\
            book_instance_id b = i /\ is_returned b = false.

Record wf_world (w : World) : Prop := mk_wf_world {
  wf_counters :
    1 <= next_book_id w /\ 1 <= next_instance_id w /\ 1 <= next_borrowing_id w;
  wf_book_key : forall k b,
    books w !! k = Some b -> 1 <= k < next_book_id w;
  wf_book_count : forall k b,
    books w !! k = Some b -> available_copies b <= total_copies b;
  wf_book_total : forall k b,
    books w !! k = Some b -> 0 <= total_copies b;
  wf_instance_key : forall i r,
    instances w !! i = Some r -> 1 <= i < next_instance_id w;
  wf_instance_book : forall i r,
    instances w !! i = Some r -> is_Some (books w !! book_id r);
  wf_inventory : forall i r,
    instances w !! i = Some r ->
    1 <= sequence_of r /\
    inventory_number r = inventory_format (book_id r) (sequence_of r);
  wf_sequence : forall i j ri rj,
    instances w !! i = Some ri -> instances w !! j = Some rj ->
    book_id ri = book_id rj -> i < j -> sequence_of ri < sequence_of rj;
  wf_borrowing_key : forall k b,
    borrowings w !! k = Some b -> 1 <= k < next_borrowing_id w;
  wf_borrowing_instance : forall k b,
    borrowings w !! k = Some b -> is_Some (instances w !! book_instance_id b);
  wf_flag : forall i r,
    instances w !! i = Some r ->
    (is_available r = false <-> exists k, outstanding w i k);
  wf_single : forall i k k',
    outstanding w i k -> outstanding w i k' -> k = k'
}.

(** ** Counting in the seed generator *)

(** The number of rows that the query of the available instances finds. *)
Definition available_count (w : World) : Z :=
  Z.of_nat (length (available_instances_query w)).

(** Among the first [n] passes, those whose draw marks the borrowing as
    returned. *)
Definition returned_count (rng : nat -> Draw) (n : nat) : Z :=
  Z.of_nat (length (filter (fun t => returned (rng t) = true) (seq 1 n))).

(** Every object of the pool is found by the query in [w]. *)
Definition pool_in (w : World) (pool : list BookInstance) : Prop :=
  forall o, o ∈ pool -> o ∈ available_instances_query w.


(** The exceptions other than that of the unavailable copy. *)
Definition other_exn (e : exn) (_ : World) : Prop := e <> InstanceUnavailable.

(** No condition on the database. *)
Definition any_world (_ : World) : Prop := True.

(** The objects of the candidate pool have [is_available] true. *)
Definition pool_available (pool : list BookInstance) : Prop :=
  Forall (fun o => is_available o = true) pool.

(** How the loop can be left, for a requested [count]: by its condition,
    with [count] records created (none for a count that is not positive);
    or by [break], with fewer records, in a database whose query of the
    available instances is empty.  In both cases the number of passes is at
    most ten times the count. *)
Definition loop_end_ok (count : Z) (e : LoopEnd) (w : World) : Prop :=
  tries e <= Z.max 0 (count * 10) /\
  match exit e with
  | ConditionFalse => created e = Z.max 0 count /\ tries e = created e
  | PoolEmpty =>
      created e < count /\ tries e = created e + 1 /\
      available_instances_query w = []
  end.

(** ** Sample databases *)

(** One book with two copies, both available, and one user. *)
Definition two_available : World :=
  run_ops [NewBook 2 2; NewInstance 1 good; NewInstance 1 fair]
    (empty_world [1]).

(** The same after the first copy is borrowed. *)
Definition one_borrowed : World :=
  run_ops [CreateBorrowing 1 1 0 14] two_available.

(** Draws that pick the first candidate and never, or always, return it. *)
Definition draw_keep : nat -> Draw := fun _ => mkDraw 0 0 0 14 false 100.
Definition draw_return : nat -> Draw := fun _ => mkDraw 0 0 0 14 true 100.

(** ** Stored rows *)


(** ** Counts and flags in step *)

(** The number of stored copies of book [b], and of those with
    [is_available] true. *)
Definition copies_of (b : Z) (w : World) : Z :=
  Z.of_nat (length (instances_of_book b w)).

Definition available_of (b : Z) (w : World) : Z :=
  Z.of_nat
    (length (filter (fun kv : Z * BookInstance => is_available kv.2 = true)
               (instances_of_book b w))).

(** Every book counts its copies: [total_copies] is the number of its
    copies and [available_copies] the number of its available copies. *)
Definition synced (w : World) : Prop :=
  forall k b, books w !! k = Some b ->
    total_copies b = copies_of k w /\ available_copies b = available_of k w.

(** The two operations on borrowings. *)
Definition borrow_op (op : Op) : Prop :=
  match op with
  | CreateBorrowing _ _ _ _ | MarkReturned _ _ => True
  | _ => False
  end.

(** ** The site: the catalogue with its authors, genres and users *)

Record Author := mkAuthor {
  first_name : string;
  last_name : string;
  date_of_birth : option Z;
  date_of_death : option Z;
  biography : string
}.

Record Genre := mkGenre {
  name : string;
  description : string
}.

(** The tables that the seed command writes besides those of [World]: the
    authors and genres under their keys, the two many-to-many tables of
    [Book] as maps from the key of a book to the keys attached to it, and
    the counters of the keys. *)
Record Site := mkSite {
  db : World;
  authors : gmap Z Author;
  genres : gmap Z Genre;
  book_authors : gmap Z (list Z);
  book_genres : gmap Z (list Z);
  next_author_id : Z;
  next_genre_id : Z;
  next_user_id : Z
}.

Definition empty_site : Site := mkSite (empty_world []) ∅ ∅ ∅ ∅ 1 1 1.

Inductive site_exn :=
| DatabaseError (e : exn)          (* an exception of the catalogue code *)
| MultipleObjectsReturned          (* get() that finds more than one row *)
| SampleTooLarge.                  (* ValueError of random.sample *)

(** The monad of the seed command. *)
Definition Cmd (A : Type) : Type := Site -> Site * (site_exn + A).

Definition cret {A} (a : A) : Cmd A := fun s => (s, inr a).

Definition craise {A} (e : site_exn) : Cmd A := fun s => (s, inl e).

Definition cbind {A B} (m : Cmd A) (k : A -> Cmd B) : Cmd B :=
  fun s =>
    match m s with
    | (s', inr a) => k a s'
    | (s', inl e) => (s', inl e)
    end.

Definition cgets {A} (f : Site -> A) : Cmd A := fun s => (s, inr (f s)).

Definition cmodify (f : Site -> Site) : Cmd unit := fun s => (f s, inr tt).

Notation "'cmd' x <- m ; k" := (cbind m (fun x => k))
  (at level 10, x name, m at level 100, k at level 200).

Definition set_db (w : World) (s : Site) : Site :=
  mkSite w (authors s) (genres s) (book_authors s) (book_genres s)
    (next_author_id s) (next_genre_id s) (next_user_id s).

(** Catalogue code run on the catalogue of the site. *)
Definition lift {A} (m : M A) : Cmd A :=
  fun s =>
    match m (db s) with
    | (w, inr a) => (set_db w s, inr a)
    | (w, inl e) => (set_db w s, inl (DatabaseError e))
    end.

(** [@transaction.atomic]: an exception undoes what was written. *)
Definition atomic {A} (m : Cmd A) : Cmd A :=
  fun s =>
    match m s with
    | (s', inr a) => (s', inr a)
    | (_, inl e) => (s, inl e)
    end.

(** [for x in l: acc = body(x, acc)]. *)
Fixpoint for_each {A B} (l : list A) (body : A -> B -> Cmd B) (acc : B)
    : Cmd B :=
  match l with
  | [] => cret acc
  | x :: l' => cmd acc' <- body x acc ; for_each l' body acc'
  end.

(** [range(count)]: empty for a count that is not positive. *)
Definition range (count : Z) : list nat := seq 0 (Z.to_nat count).

(** [l[:count]]: the first [count] elements, all but the last [-count] for a
    negative count. *)
Definition slice_to {A} (l : list A) (count : Z) : list A :=
  if 0 <=? count
  then take (Z.to_nat count) l
  else take (Z.to_nat (Z.of_nat (length l) + count)) l.

(** [random.randint(lo, hi)], for [lo <= hi], from a raw draw. *)
Definition randint (lo hi : Z) (d : nat) : Z :=
  lo + Z.of_nat d mod (hi - lo + 1).

(** Drawing [n] elements of [l] one after the other without replacement;
    draw number [i] selects a position of what is left.  This is the
    contract of [random.shuffle] (all elements) and of [random.sample]. *)
Fixpoint select {A} (n : nat) (draws : nat -> nat) (i : nat) (l : list A)
    : list A :=
  match n with
  | O => []
  | S n' =>
      let j := (draws i mod length l)%nat in
      match l !! j with
      | Some x => x :: select n' draws (S i) (delete j l)
      | None => []
      end
  end.

(** [random.shuffle(l)]. *)
Definition shuffle {A} (draws : nat -> nat) (l : list A) : list A :=
  select (length l) draws 0 l.

(** [random.sample(l, k)]. *)
Definition sample {A} (draws : nat -> nat) (l : list A) (k : Z) : Cmd (list A) :=
  if (k <? 0) || (Z.of_nat (length l) <? k)
  then craise SampleTooLarge
  else cret (select (Z.to_nat k) draws 0 l).

(** *** create_authors *)

Record AuthorDraw := mkAuthorDraw {
  fake_first_name : string;
  fake_last_name : string;
  fake_date_of_birth : Z;        (* fake.date_of_birth(25, 90) *)
  still_alive : bool;            (* random.random() < 0.8 *)
  fake_date_between : Z;         (* fake.date_between("-20y", "today") *)
  fake_text : string
}.

(** [Author.objects.create(..)] *)
Definition Author_objects_create (a : Author) : Cmd unit :=
  cmodify (fun s =>
    mkSite (db s) (<[next_author_id s := a]> (authors s)) (genres s)
      (book_authors s) (book_genres s)
      (next_author_id s + 1) (next_genre_id s) (next_user_id s)).

(** [Command.create_authors]; the result is the number it reports. *)
Definition create_authors (draws : nat -> AuthorDraw) (count : Z) : Cmd Z :=
  for_each (range count)
    (fun i created =>
       let d := draws i in
       cmd _ <- Author_objects_create
                  (mkAuthor (fake_first_name d) (fake_last_name d)
                     (Some (fake_date_of_birth d))
                     (if still_alive d then None
                      else Some (fake_date_between d))
                     (fake_text d)) ;
       cret (created + 1))
    0.

(** *** create_genres *)

Definition base : list string :=
  ["Fiction"; "Non-Fiction"; "Fantasy"; "Sci-Fi"; "Mystery"; "Thriller";
   "Romance"; "History"; "Biography"; "Self-Help"; "Technology"; "Science";
   "Philosophy"; "Psychology"; "Horror"; "Comics"]%string.

(** [Genre.objects.get_or_create(name=nm, defaults={"description": d})]:
    the key of the genre and whether it was created. *)
Definition Genre_objects_get_or_create (nm d : string) : Cmd (Z * bool) :=
  cmd found <- cgets (fun s =>
                 filter (fun kv : Z * Genre => name kv.2 = nm)
                   (map_to_list (genres s))) ;
  match found with
  | [] =>
      cmd k <- cgets next_genre_id ;
      cmd _ <- cmodify (fun s =>
                 mkSite (db s) (authors s) (<[k := mkGenre nm d]> (genres s))
                   (book_authors s) (book_genres s)
                   (next_author_id s) (next_genre_id s + 1) (next_user_id s)) ;
      cret (k, true)
  | [kv] => cret (kv.1, false)
  | _ => craise MultipleObjectsReturned
  end.

(** [Command.create_genres]; [sentence i] is the description drawn in pass
    [i]; the result is the number it reports. *)
Definition create_genres (shuffle_draws : nat -> nat) (sentence : nat -> string)
    (count : Z) : Cmd Z :=
  let base := shuffle shuffle_draws base in
  for_each (imap (fun i nm => (i, nm)) (slice_to base count))
    (fun '(i, nm) created =>
       cmd r <- Genre_objects_get_or_create nm (sentence i) ;
       cret (if r.2 then created + 1 else created))
    0.

(** *** create_users *)

Definition with_users (f : list Z -> list Z) (w : World) : World :=
  mkWorld (books w) (instances w) (borrowings w) (f (users w))
    (next_book_id w) (next_instance_id w) (next_borrowing_id w).

(** [User.objects.create_user(..)]: the account is kept by Django; the
    catalogue sees its key. *)
Definition User_objects_create_user : Cmd Z :=
  cmd k <- cgets next_user_id ;
  cmd _ <- cmodify (fun s =>
             mkSite (with_users (fun us => us ++ [k]) (db s)) (authors s)
               (genres s) (book_authors s) (book_genres s)
               (next_author_id s) (next_genre_id s) (next_user_id s + 1)) ;
  cret k.

(** [Command.create_users]; the result is the number it reports. *)
Definition create_users (count : Z) : Cmd Z :=
  for_each (range count)
    (fun _ created =>
       cmd _ <- User_objects_create_user ;
       cret (created + 1))
    0.

(** *** create_books_and_instances *)

Record BookDraw := mkBookDraw {
  copies_draw : nat;                 (* random.randint(1, 6) *)
  authors_k_draw : nat;              (* random.randint(1, min(3, ..)) *)
  authors_sample_draws : nat -> nat; (* random.sample(authors, k) *)
  with_genres : bool;                (* random.random() < 0.85 *)
  genres_k_draw : nat;
  genres_sample_draws : nat -> nat;
  condition_draws : nat -> nat       (* random.choice(..) for copy _i *)
}.

(** [Book.objects.create(.., total_copies=t, available_copies=a)] *)
Definition Book_objects_create (t a : Z) : M Book :=
  Book_save (mkBook None t a).

(** [BookInstance.objects.create(book=book, condition=c, is_available=v)] *)
Definition BookInstance_objects_create (book : Book) (c : Condition)
    (v : bool) : M BookInstance :=
  do k <- unwrap UnsavedRelated (book_pk book);
  BookInstance_save (mkBookInstance None k (Some book) "" c v).

(** [book.authors.set(keys)] and [book.genres.set(keys)] *)
Definition set_authors (book : Book) (keys : list Z) : Cmd unit :=
  cmd k <- lift (unwrap UnsavedRelated (book_pk book)) ;
  cmodify (fun s =>
    mkSite (db s) (authors s) (genres s) (<[k := keys]> (book_authors s))
      (book_genres s) (next_author_id s) (next_genre_id s) (next_user_id s)).

Definition set_genres (book : Book) (keys : list Z) : Cmd unit :=
  cmd k <- lift (unwrap UnsavedRelated (book_pk book)) ;
  cmodify (fun s =>
    mkSite (db s) (authors s) (genres s) (book_authors s)
      (<[k := keys]> (book_genres s))
      (next_author_id s) (next_genre_id s) (next_user_id s)).

Definition conditions : list Condition := [excellent; good; fair; damaged].

(** What [create_books_and_instances] reports. *)
Inductive BooksReport :=
| NoAuthorsFound                       (* "No authors found. ..." *)
| CreatedBooks (books instances : Z).  (* "Created {..} books." and
                                          "Created {..} book instances." *)

(** [Command.create_books_and_instances] *)
Definition create_books_and_instances (draws : nat -> BookDraw) (count : Z)
    : Cmd BooksReport :=
  cmd authors <- cgets (fun s => (map_to_list (authors s)).*1) ;
  cmd genres <- cgets (fun s => (map_to_list (genres s)).*1) ;
  match authors with
  | [] => cret NoAuthorsFound
  | _ =>
      cmd r <-
        for_each (range count)
          (fun i '(created_books, created_instances) =>
             let d := draws i in
             let total_copies := randint 1 6 (copies_draw d) in
             cmd book <- lift (Book_objects_create total_copies total_copies) ;
             cmd chosen <-
               sample (authors_sample_draws d) authors
                 (randint 1 (Z.min 3 (Z.of_nat (length authors)))
                    (authors_k_draw d)) ;
             cmd _ <- set_authors book chosen ;
             cmd _ <-
               (match genres with
                | [] => cret tt
                | _ =>
                    if with_genres d then
                      cmd chosen <-
                        sample (genres_sample_draws d) genres
                          (randint 1 (Z.min 3 (Z.of_nat (length genres)))
                             (genres_k_draw d)) ;
                      set_genres book chosen
                    else cret tt
                end) ;
             cmd created_instances <-
               for_each (range total_copies)
                 (fun _i created_instances =>
                    cmd c <- lift (choice (condition_draws d _i) conditions) ;
                    cmd _ <- lift (BookInstance_objects_create book c true) ;
                    cret (created_instances + 1))
                 created_instances ;
             cret (created_books + 1, created_instances))
          (0, 0) ;
      cret (CreatedBooks r.1 r.2)
  end.

(** *** handle *)

Record SeedDraws := mkSeedDraws {
  author_draws : nat -> AuthorDraw;
  genre_shuffle_draws : nat -> nat;
  genre_sentences : nat -> string;
  book_draws : nat -> BookDraw;
  borrowing_draws : nat -> Draw
}.

(** The options of the command, with the defaults of [add_arguments]. *)
Record Options := mkOptions {
  opt_authors : Z;
  opt_genres : Z;
  opt_books : Z;
  opt_users : Z;
  opt_borrowings : Z
}.

Definition default_options : Options := mkOptions 25 12 60 30 40.

(** The five lines that the sub-commands print. *)
Record SeedReport := mkSeedReport {
  authors_created : Z;
  genres_created : Z;
  users_created : Z;
  books_report : BooksReport;
  borrowings_report : option Report
}.

(** [Command.handle]; [fuel] bounds the passes of the borrowing loop. *)
Definition handle (fuel : nat) (draws : SeedDraws) (kwargs : Options)
    : Cmd SeedReport :=
  atomic
    (let authors_n := opt_authors kwargs in
     let genres_n := opt_genres kwargs in
     let books_n := opt_books kwargs in
     let users_n := opt_users kwargs in
     let borrowings_n := opt_borrowings kwargs in
     cmd a <- create_authors (author_draws draws) authors_n ;
     cmd g <- create_genres (genre_shuffle_draws draws) (genre_sentences draws)
                genres_n ;
     cmd u <- create_users users_n ;
     cmd b <- create_books_and_instances (book_draws draws) books_n ;
     cmd r <- lift (create_borrowings fuel (borrowing_draws draws)
                      borrowings_n) ;
     cret (mkSeedReport a g u b r)).

(** ** Specifications of seed code

    [cmd_ok P m Q]: from a site that satisfies [P], the code [m] raises no
    exception and returns a value [a] in a site that satisfies [Q a]. *)
Definition cmd_ok {A} (P : Site -> Prop) (m : Cmd A)
    (Q : A -> Site -> Prop) : Prop :=
  forall s, P s -> exists s' a, m s = (s', inr a) /\ Q a s'.

(** ** Genres by name *)

(** The site has a genre of name [nm]. *)
Definition has_genre (s : Site) (nm : string) : Prop :=
  exists k g, genres s !! k = Some g /\ name g = nm.

(** No two genres have the same name (the column is [unique]), and the keys
    of the genres are below the counter. *)
Definition genres_ok (s : Site) : Prop :=
  (forall k k' g g', genres s !! k = Some g -> genres s !! k' = Some g' ->
                     name g = name g' -> k = k') /\
  (forall k g, genres s !! k = Some g -> k < next_genre_id s).

(** ** The passes of create_books_and_instances as operations *)

(** The condition that [random.choice] picks for copy [i] of a pass. *)
Definition drawn_condition (d : BookDraw) (i : nat) : Condition :=
  default excellent
    (conditions !! (condition_draws d i mod length conditions)%nat).

(** The operations on the catalogue that the pass with the draws [d] comes
    to, when its book gets the key [k]. *)
Definition book_ops (k : Z) (d : BookDraw) : list Op :=
  let total_copies := randint 1 6 (copies_draw d) in
  NewBook total_copies total_copies
  :: map (fun i => NewInstance k (drawn_condition d i)) (range total_copies).

(** One to three different keys of the table [m]. *)
Definition one_to_three {A} (m : gmap Z A) (l : list Z) : Prop :=
  NoDup l /\ (1 <= length l <= 3)%nat /\ forall a, a ∈ l -> is_Some (m !! a).

(** The keys of the books created between the sites [s0] and [s]. *)
Definition new_book (s0 s : Site) (k : Z) : Prop :=
  next_book_id (db s0) <= k < next_book_id (db s).

(** What the loop of [create_books_and_instances] has done between the
    sites [s0] and [s], with the authors [al] and the genres [gl] to choose
    from, when its counters are [created_books] and [created_instances]. *)
Record books_added (s0 : Site) (al gl : list Z)
    (created_books created_instances : Z) (s : Site) : Prop := mk_books_added {
  ba_authors : authors s = authors s0;
  ba_genres : genres s = genres s0;
  ba_next_author : next_author_id s = next_author_id s0;
  ba_next_genre : next_genre_id s = next_genre_id s0;
  ba_next_user : next_user_id s = next_user_id s0;
  ba_borrowings : borrowings (db s) = borrowings (db s0);
  ba_users : users (db s) = users (db s0);
  ba_next_borrowing : next_borrowing_id (db s) = next_borrowing_id (db s0);
  ba_bounds : 0 <= created_books <= created_instances /\
              created_instances <= 6 * created_books;
  ba_next_book : next_book_id (db s) = next_book_id (db s0) + created_books;
  ba_next_instance :
    next_instance_id (db s) = next_instance_id (db s0) + created_instances;
  ba_books_size :
    Z.of_nat (size (books (db s)))
    = Z.of_nat (size (books (db s0))) + created_books;
  ba_instances_size :
    Z.of_nat (size (instances (db s)))
    = Z.of_nat (size (instances (db s0))) + created_instances;
  ba_books_other : forall k,
    ~ new_book s0 s k -> books (db s) !! k = books (db s0) !! k;
  ba_instances_old : forall i r,
    instances (db s0) !! i = Some r -> instances (db s) !! i = Some r;
  ba_synced : synced (db s0) -> synced (db s);
  ba_available :
    available_count (db s) = available_count (db s0) + created_instances;
  ba_new_book : forall k,
    new_book s0 s k ->
    exists b, books (db s) !! k = Some b /\
              1 <= total_copies b <= 6 /\
              available_copies b = total_copies b /\
              copies_of k (db s) = total_copies b /\
              available_of k (db s) = total_copies b;
  ba_new_authors : forall k,
    new_book s0 s k ->
    exists l, book_authors s !! k = Some l /\ l ⊆+ al /\
              (1 <= length l <= 3)%nat;
  ba_new_genres : forall k,
    new_book s0 s k ->
    book_genres s !! k = book_genres s0 !! k \/
    exists l, book_genres s !! k = Some l /\ l ⊆+ gl /\
              (1 <= length l <= 3)%nat;
  ba_other : forall k,
    ~ new_book s0 s k ->
    book_authors s !! k = book_authors s0 !! k /\
    book_genres s !! k = book_genres s0 !! k
}.

(** ** Sample sites *)



(** A site with one author and one user. *)
Definition one_author : Site :=
  mkSite (empty_world [1]) {[1 := mkAuthor "Jose" "Rizal" (Some 0) None ""]}
    ∅ ∅ ∅ 2 1 2.

(** Draws: every author is alive; every book has two copies in excellent
    condition, one author and, if there are genres, one genre; nothing is
    shuffled. *)
Definition author_draw : nat -> AuthorDraw :=
  fun _ => mkAuthorDraw "Jose" "Rizal" 0 true 0 "".

Definition book_draw : nat -> BookDraw :=
  fun _ => mkBookDraw 1 0 (fun _ => 0%nat) true 0 (fun _ => 0%nat)
             (fun _ => 0%nat).

Definition seed_draws : SeedDraws :=
  mkSeedDraws author_draw (fun _ => 0%nat) (fun _ => "") book_draw draw_keep.

(** The site [one_author] after one pass of [create_books_and_instances]. *)
Definition one_book : Site :=
  (create_books_and_instances book_draw 1 one_author).1.

(** * Properties *)

(** ** Reading the database does not change it *)

Lemma unwrap_fst {A} (e : exn) (o : option A) (w : World) :
  (unwrap e o w).1 = w.
Proof. by destruct o. Qed.

Lemma Book_objects_get_fst (k : Z) (w : World) :
  (Book_objects_get k w).1 = w.
Proof.
  unfold Book_objects_get, bind, gets. simpl.
  by destruct (books w !! k).
Qed.

Lemma BookInstance_objects_get_fst (k : Z) (w : World) :
  (BookInstance_objects_get k w).1 = w.
Proof.
  unfold BookInstance_objects_get, bind, gets. simpl.
  by destruct (instances w !! k).
Qed.

Lemma related_book_fst (self : BookInstance) (w : World) :
  (related_book self w).1 = w.
Proof.
  unfold related_book. destruct (book self); [done|].
  apply Book_objects_get_fst.
Qed.

Lemma related_book_instance_fst (self : Borrowing) (w : World) :
  (related_book_instance self w).1 = w.
Proof.
  unfold related_book_instance. destruct (book_instance self); [done|].
  apply BookInstance_objects_get_fst.
Qed.

(** A computation is determined by its two components. *)
Lemma run_eq {A} (m : M A) (w w' : World) (r : exn + A) :
  (m w).1 = w' -> (m w).2 = r -> m w = (w', r).
Proof. destruct (m w); simpl; congruence. Qed.

(** C1. Saving a new borrowing whose book instance has [is_available] false
    raises the error of the unavailable copy, and the database is the one
    before the call: no row of any table and no counter has changed. *)
Theorem Borrowing_save_unavailable (w : World) (self : Borrowing)
    (inst : BookInstance) :
  not_pk (pk self) = true ->
  (related_book_instance self w).2 = inr inst ->
  is_available inst = false ->
  Borrowing_save self w = (w, inl InstanceUnavailable).
Proof.
  intros Hnew Hinst Hflag.
  unfold Borrowing_save. rewrite Hnew. unfold bind.
  rewrite (run_eq _ _ _ _ (related_book_instance_fst self w) Hinst).
  by rewrite Hflag.
Qed.

(** ** Formatting and parsing of inventory numbers *)

#[local] Arguments String.append !_ _ / : simpl nomatch.

Lemma append_assoc (a b c : string) : (a +:+ b) +:+ c = a +:+ b +:+ c.
Proof. induction a; simpl; congruence. Qed.

Lemma length_append (a b : string) :
  String.length (a +:+ b) = (String.length a + String.length b)%nat.
Proof. induction a; simpl; congruence. Qed.

Lemma append_inv_tail (a b c : string) : a +:+ c = b +:+ c -> a = b.
Proof.
  revert b. induction a as [|x a IH]; intros [|y b] H; simpl in H.
  - done.
  - apply (f_equal String.length) in H. simpl in H.
    rewrite length_append in H. lia.
  - apply (f_equal String.length) in H. simpl in H.
    rewrite length_append in H. lia.
  - injection H as -> H. f_equal. by apply IH.
Qed.

(** A string that parses as a number holds no hyphen. *)
Lemma last_segment_from_digits (s acc : string) (d : Decimal.uint) :
  NilEmpty.uint_of_string s = Some d ->
  last_segment_from acc s = acc +:+ s.
Proof.
  revert acc d. induction s as [|c s IH]; intros acc d H; simpl in *.
  - clear. induction acc; simpl; congruence.
  - destruct (NilEmpty.uint_of_string s) as [d'|] eqn:E; [|done].
    assert (Ascii.eqb c "-" = false) as ->.
    { apply uint_of_char_spec in H.
      destruct H as [[-> _]|[[-> _]|[[-> _]|[[-> _]|[[-> _]|[[-> _]|[[-> _]|
        [[-> _]|[[-> _]|[-> _]]]]]]]]]]; reflexivity. }
    rewrite (IH _ d' eq_refl). by rewrite append_assoc.
Qed.

Lemma last_segment_from_hyphen (p q acc : string) :
  last_segment_from acc (p +:+ String "-" q) = last_segment_from "" q.
Proof.
  revert acc. induction p as [|c p IH]; intros acc; simpl; [done|].
  destruct (Ascii.eqb c "-"); apply IH.
Qed.

Lemma last_segment_digits (p q : string) (d : Decimal.uint) :
  NilEmpty.uint_of_string q = Some d ->
  last_segment (p +:+ "-" +:+ q) = q.
Proof.
  intros H. unfold last_segment. simpl.
  rewrite last_segment_from_hyphen.
  by rewrite (last_segment_from_digits _ _ _ H).
Qed.

Lemma uint_of_zeros (k : nat) (d : Decimal.uint) :
  NilEmpty.uint_of_string (zeros k +:+ NilEmpty.string_of_uint d)
  = Some (lead_zeros k d).
Proof.
  induction k as [|k IH]; simpl.
  - apply NilEmpty.usu.
  - by rewrite IH.
Qed.

Lemma of_uint_lead_zeros (k : nat) (d : Decimal.uint) :
  N.of_uint (lead_zeros k d) = N.of_uint d.
Proof. induction k; simpl; auto. Qed.

Lemma decimal_NilEmpty (n : N) :
  decimal n = NilEmpty.string_of_uint (N.to_uint n).
Proof.
  unfold decimal, NilZero.string_of_uint.
  destruct (N.to_uint n) eqn:E; try done.
  destruct n as [|p]; simpl in E; [done|].
  exfalso. revert E. apply DecimalPos.Unsigned.to_uint_nonnil.
Qed.

Lemma decimal_nonempty (n : N) : decimal n <> ""%string.
Proof.
  rewrite decimal_NilEmpty. destruct (N.to_uint n) eqn:E; try done.
  destruct n as [|p]; simpl in E; [done|].
  exfalso. revert E. apply DecimalPos.Unsigned.to_uint_nonnil.
Qed.

Lemma uint_of_zfill (w : nat) (n : N) :
  NilEmpty.uint_of_string (zfill w (decimal n))
  = Some (lead_zeros (w - String.length (decimal n)) (N.to_uint n)).
Proof. unfold zfill. rewrite decimal_NilEmpty at 2. apply uint_of_zeros. Qed.

Lemma zfill_nonempty (w : nat) (n : N) : zfill w (decimal n) <> ""%string.
Proof.
  unfold zfill. intros H. apply (f_equal String.length) in H.
  rewrite length_append in H. simpl in H.
  pose proof (decimal_nonempty n). destruct (decimal n); simpl in *; [done|lia].
Qed.

Lemma py_int_zfill (w : nat) (n : N) :
  py_int (zfill w (decimal n)) = Some (Z.of_N n).
Proof.
  unfold py_int. pose proof (zfill_nonempty w n).
  destruct (zfill w (decimal n)) eqn:E; [done|]. rewrite <- E.
  rewrite uint_of_zfill. simpl.
  by rewrite of_uint_lead_zeros, DecimalN.Unsigned.of_to.
Qed.

Lemma format_0d_nonneg (w : nat) (z : Z) :
  0 <= z -> format_0d w z = zfill w (decimal (Z.to_N z)).
Proof. intros H. unfold format_0d. by rewrite (proj2 (Z.ltb_ge z 0) H). Qed.

Lemma py_int_format (w : nat) (z : Z) :
  0 <= z -> py_int (format_0d w z) = Some z.
Proof.
  intros H. rewrite format_0d_nonneg by done.
  rewrite py_int_zfill. f_equal. lia.
Qed.

Lemma inventory_format_seq (b n : Z) :
  0 <= n -> py_int (last_segment (inventory_format b n)) = Some n.
Proof.
  intros Hn. unfold inventory_format.
  rewrite (format_0d_nonneg 4 n Hn) at 1.
  erewrite last_segment_digits by apply uint_of_zfill.
  rewrite <- format_0d_nonneg by done. by apply py_int_format.
Qed.

Lemma inventory_format_nonempty (b n : Z) : inventory_format b n <> ""%string.
Proof.
  unfold inventory_format. intros H.
  apply (f_equal String.length) in H.
  rewrite length_append in H. simpl in H. lia.
Qed.

Lemma inventory_format_inj (b b' n n' : Z) :
  0 <= b -> 0 <= b' -> 0 <= n -> 0 <= n' ->
  inventory_format b n = inventory_format b' n' -> b = b' /\ n = n'.
Proof.
  intros Hb Hb' Hn Hn' H.
  assert (n = n') as <-.
  { apply (f_equal (fun s => py_int (last_segment s))) in H.
    rewrite !inventory_format_seq in H by done. congruence. }
  split; [|done].
  unfold inventory_format in H.
  rewrite <- !append_assoc in H. apply append_inv_tail in H.
  assert (format_0d 3 b = format_0d 3 b') as E.
  { apply (append_inv_tail _ _ "-"). exact H. }
  apply (f_equal py_int) in E. rewrite !py_int_format in E by done.
  congruence.
Qed.

(** ** Equations of the operations *)

Lemma Book_save_eq (self : Book) (w : World) :
  Book_save self w = Model_save_Book (clamped self) w.
Proof. reflexivity. Qed.

Lemma Book_save_Some (self : Book) (k : Z) (w : World) :
  book_pk self = Some k ->
  Book_save self w
  = (with_books (insert k (clamped self)) w, inr (clamped self)).
Proof.
  intros H. rewrite Book_save_eq. unfold Model_save_Book.
  assert (book_pk (clamped self) = Some k) as ->; [|done].
  unfold clamped. by destruct (_ >? _).
Qed.

Lemma Book_save_None (self : Book) (w : World) :
  book_pk self = None ->
  Book_save self w
  = (bump_book_id
       (with_books
          (insert (next_book_id w) (set_book_pk (next_book_id w) (clamped self)))
          w),
     inr (set_book_pk (next_book_id w) (clamped self))).
Proof.
  intros H. rewrite Book_save_eq. unfold Model_save_Book.
  assert (book_pk (clamped self) = None) as ->; [|done].
  unfold clamped. by destruct (_ >? _).
Qed.

Lemma eqb_empty_false (s : string) : s <> ""%string -> String.eqb s "" = false.
Proof. intros H. by apply String.eqb_neq. Qed.

Lemma BookInstance_save_numbered (self : BookInstance) (k : Z) (w : World) :
  inventory_number self <> ""%string ->
  instance_pk self = Some k ->
  BookInstance_save self w
  = (with_instances (insert k (instance_row self)) w, inr self).
Proof.
  intros Hn Hk. unfold BookInstance_save, Model_save_BookInstance.
  by rewrite eqb_empty_false, Hk.
Qed.

Lemma Book_objects_get_Some (k : Z) (r : Book) (w : World) :
  books w !! k = Some r -> Book_objects_get k w = (w, inr (load_Book (k, r))).
Proof. intros H. unfold Book_objects_get, bind, gets. by rewrite H. Qed.

Lemma Book_objects_get_None (k : Z) (w : World) :
  books w !! k = None -> Book_objects_get k w = (w, inl DoesNotExist).
Proof. intros H. unfold Book_objects_get, bind, gets. by rewrite H. Qed.

Lemma BookInstance_objects_get_Some (k : Z) (r : BookInstance) (w : World) :
  instances w !! k = Some r ->
  BookInstance_objects_get k w = (w, inr (load_BookInstance (k, r))).
Proof. intros H. unfold BookInstance_objects_get, bind, gets. by rewrite H. Qed.

Lemma BookInstance_objects_get_None (k : Z) (w : World) :
  instances w !! k = None ->
  BookInstance_objects_get k w = (w, inl DoesNotExist).
Proof. intros H. unfold BookInstance_objects_get, bind, gets. by rewrite H. Qed.

Lemma Borrowing_objects_get_Some (k : Z) (r : Borrowing) (w : World) :
  borrowings w !! k = Some r ->
  Borrowing_objects_get k w = (w, inr (load_Borrowing (k, r))).
Proof. intros H. unfold Borrowing_objects_get, bind, gets. by rewrite H. Qed.

Lemma Borrowing_objects_get_None (k : Z) (w : World) :
  borrowings w !! k = None ->
  Borrowing_objects_get k w = (w, inl DoesNotExist).
Proof. intros H. unfold Borrowing_objects_get, bind, gets. by rewrite H. Qed.

(** The new-record branch of [Borrowing.save] on an available copy whose
    book is found: three rows are written. *)
Lemma Borrowing_save_new (self : Borrowing) (inst : BookInstance) (bk : Book)
    (i b : Z) (w : World) :
  pk self = None ->
  (related_book_instance self w).2 = inr inst ->
  is_available inst = true ->
  instance_pk inst = Some i ->
  inventory_number inst <> ""%string ->
  (related_book inst w).2 = inr bk ->
  book_pk bk = Some b ->
  let bk' := clamped (set_available_copies (available_copies bk - 1) bk) in
  let inst' := set_book bk' (set_is_available false inst) in
  let kb := next_borrowing_id w in
  let self' := set_pk kb (set_book_instance inst' self) in
  Borrowing_save self w
  = (bump_borrowing_id
       (with_borrowings (insert kb (borrowing_row self'))
          (with_instances (insert i (instance_row inst'))
             (with_books (insert b bk') w))),
     inr self').
Proof.
  intros Hpk Hinst Hav Hi Hinv Hbk Hb. simpl.
  unfold Borrowing_save. rewrite Hpk. simpl. unfold bind at 1.
  rewrite (run_eq _ _ _ _ (related_book_instance_fst self w) Hinst).
  rewrite Hav. unfold bind at 1.
  assert (related_book (set_is_available false inst) w = (w, inr bk)) as ->.
  { apply run_eq; [apply related_book_fst|]. by rewrite <- Hbk. }
  unfold bind at 1. rewrite (Book_save_Some _ b) by done.
  unfold bind at 1. rewrite (BookInstance_save_numbered _ i) by done.
  unfold Model_save_Borrowing. simpl. rewrite Hpk. reflexivity.
Qed.

Lemma not_pk_Some (k : Z) : k <> 0 -> not_pk (Some k) = false.
Proof. intros H. simpl. by apply Z.eqb_neq. Qed.

(** [Borrowing.save] on a record that has a primary key writes its row and
    nothing else. *)
Lemma Borrowing_save_update (self : Borrowing) (k : Z) (w : World) :
  pk self = Some k -> k <> 0 ->
  Borrowing_save self w
  = (with_borrowings (insert k (borrowing_row self)) w, inr self).
Proof.
  intros Hpk Hk. unfold Borrowing_save, Model_save_Borrowing.
  by rewrite Hpk, not_pk_Some.
Qed.

(** [mark_as_returned] on a record already returned. *)
Lemma mark_as_returned_done (now : Z) (self : Borrowing) (w : World) :
  is_returned self = true -> mark_as_returned now self w = (w, inr self).
Proof. intros H. unfold mark_as_returned. by rewrite H. Qed.

(** [mark_as_returned] on a stored record not yet returned, whose copy and
    book are found: three rows are written. *)
Lemma mark_as_returned_open (now : Z) (self : Borrowing) (inst : BookInstance)
    (bk : Book) (k i b : Z) (w : World) :
  is_returned self = false ->
  pk self = Some k -> k <> 0 ->
  (related_book_instance self w).2 = inr inst ->
  instance_pk inst = Some i ->
  inventory_number inst <> ""%string ->
  (related_book inst w).2 = inr bk ->
  book_pk bk = Some b ->
  let bk' := clamped (set_available_copies (available_copies bk + 1) bk) in
  let inst' := set_book bk' (set_is_available true inst) in
  let self' := set_book_instance inst' (set_returned now self) in
  mark_as_returned now self w
  = (with_borrowings (insert k (borrowing_row self'))
       (with_instances (insert i (instance_row inst'))
          (with_books (insert b bk') w)),
     inr self').
Proof.
  intros Hret Hpk Hk Hinst Hi Hinv Hbk Hb. simpl.
  unfold mark_as_returned. rewrite Hret. simpl. unfold bind at 1.
  assert (related_book_instance (set_returned now self) w = (w, inr inst)) as ->.
  { apply run_eq; [apply related_book_instance_fst|]. by rewrite <- Hinst. }
  unfold bind at 1.
  assert (related_book (set_is_available true inst) w = (w, inr bk)) as ->.
  { apply run_eq; [apply related_book_fst|]. by rewrite <- Hbk. }
  unfold bind at 1. rewrite (Book_save_Some _ b) by done.
  unfold bind at 1. rewrite (BookInstance_save_numbered _ i) by done.
  by rewrite (Borrowing_save_update _ k).
Qed.

(** C9. Saving a borrowing that has a primary key leaves the tables of
    books and of book instances as they were, and the objects reachable
    from the record (its copy, with the flag [is_available], and the book of
    the copy, with [available_copies]) are returned unchanged; only the row
    of the borrowing is written. *)
Theorem Borrowing_save_existing_frame (self : Borrowing) (k : Z) (w : World) :
  pk self = Some k -> k <> 0 ->
  (Borrowing_save self w).2 = inr self /\
  books (Borrowing_save self w).1 = books w /\
  instances (Borrowing_save self w).1 = instances w /\
  borrowings (Borrowing_save self w).1
  = <[k := borrowing_row self]> (borrowings w).
Proof.
  intros Hpk Hk. by rewrite (Borrowing_save_update self k w Hpk Hk).
Qed.

Lemma BookInstance_save_unnumbered (self : BookInstance) (bk : Book)
    (b num : Z) (w : World) :
  inventory_number self = ""%string ->
  instance_pk self = None ->
  (related_book self w).2 = inr bk ->
  book_pk bk = Some b ->
  next_number b w = Some num ->
  let k := next_instance_id w in
  let self' :=
    set_instance_pk k
      (set_inventory_number (inventory_format b num) (set_book bk self)) in
  BookInstance_save self w
  = (bump_instance_id (with_instances (insert k (instance_row self')) w),
     inr self').
Proof.
  intros Hinv Hpk Hbk Hb Hnum. simpl.
  unfold BookInstance_save. rewrite Hinv. simpl. unfold bind at 1.
  rewrite (run_eq _ _ _ _ (related_book_fst self w) Hbk).
  rewrite Hb. unfold bind at 1. simpl. unfold bind at 1. simpl.
  unfold next_number in Hnum.
  destruct (last_by_id (instances_of_book b w)) as [kv|].
  - unfold bind at 1. unfold bind at 1.
    destruct (py_int _) as [n|]; [|done]. simpl in *.
    injection Hnum as <-. unfold Model_save_BookInstance. simpl.
    by rewrite Hpk.
  - injection Hnum as <-. unfold bind at 1. simpl.
    unfold Model_save_BookInstance. simpl. by rewrite Hpk.
Qed.

(** *** The five operations on a consistent database *)

Lemma run_NewBook (total available : Z) (w : World) :
  let k := next_book_id w in
  run_op (NewBook total available) w
  = (bump_book_id
       (with_books (insert k (set_book_pk k (clamped (mkBook None total available))))
          w),
     inr tt).
Proof.
  simpl. unfold run_op, bind. by rewrite Book_save_None.
Qed.

Lemma run_SetCopyCounts (k total available : Z) (r : Book) (w : World) :
  books w !! k = Some r ->
  run_op (SetCopyCounts k total available) w
  = (with_books (insert k (clamped (mkBook (Some k) total available))) w,
     inr tt).
Proof.
  intros H. unfold run_op, bind.
  rewrite (Book_objects_get_Some k r) by done. simpl.
  by rewrite (Book_save_Some _ k).
Qed.

Lemma run_SetCopyCounts_missing (k total available : Z) (w : World) :
  books w !! k = None ->
  run_op (SetCopyCounts k total available) w = (w, inl DoesNotExist).
Proof.
  intros H. unfold run_op, bind. by rewrite Book_objects_get_None.
Qed.

Lemma run_NewInstance (k num : Z) (c : Condition) (r : Book) (w : World) :
  books w !! k = Some r ->
  next_number k w = Some num ->
  let i := next_instance_id w in
  run_op (NewInstance k c) w
  = (bump_instance_id
       (with_instances
          (insert i (mkBookInstance (Some i) k None (inventory_format k num) c true))
          w),
     inr tt).
Proof.
  intros H Hnum. simpl. unfold run_op, bind.
  rewrite (Book_objects_get_Some k r) by done.
  by erewrite BookInstance_save_unnumbered.
Qed.

Lemma run_NewInstance_missing (k : Z) (c : Condition) (w : World) :
  books w !! k = None ->
  run_op (NewInstance k c) w = (w, inl DoesNotExist).
Proof.
  intros H. unfold run_op, bind. by rewrite Book_objects_get_None.
Qed.

Lemma run_CreateBorrowing (k borrower borrow_dt due : Z) (r : BookInstance)
    (bk : Book) (w : World) :
  instances w !! k = Some r ->
  is_available r = true ->
  inventory_number r <> ""%string ->
  books w !! book_id r = Some bk ->
  let kb := next_borrowing_id w in
  run_op (CreateBorrowing k borrower borrow_dt due) w
  = (bump_borrowing_id
       (with_borrowings
          (insert kb (mkBorrowing (Some kb) k None borrower borrow_dt due None
                        false 0))
          (with_instances
             (insert k (mkBookInstance (Some k) (book_id r) None
                          (inventory_number r) (condition r) false))
             (with_books
                (insert (book_id r)
                   (clamped (mkBook (Some (book_id r)) (total_copies bk)
                               (available_copies bk - 1))))
                w))),
     inr tt).
Proof.
  intros Hr Hav Hinv Hbk. simpl. unfold run_op. unfold bind at 1.
  rewrite (BookInstance_objects_get_Some k r) by done.
  unfold bind at 1. unfold Borrowing_objects_create, bind at 1. simpl.
  erewrite (Borrowing_save_new _ (load_BookInstance (k, r))
              (load_Book (book_id r, bk)) k (book_id r)); try done.
  simpl. unfold related_book. simpl.
  by rewrite (Book_objects_get_Some _ bk).
Qed.

Lemma run_CreateBorrowing_unavailable (k borrower borrow_dt due : Z)
    (r : BookInstance) (w : World) :
  instances w !! k = Some r ->
  is_available r = false ->
  run_op (CreateBorrowing k borrower borrow_dt due) w
  = (w, inl InstanceUnavailable).
Proof.
  intros Hr Hav. unfold run_op. unfold bind at 1.
  rewrite (BookInstance_objects_get_Some k r) by done.
  unfold bind at 1. unfold Borrowing_objects_create, bind at 1. simpl.
  unfold Borrowing_save. simpl. unfold bind at 1. simpl. by rewrite Hav.
Qed.

Lemma run_CreateBorrowing_missing (k borrower borrow_dt due : Z) (w : World) :
  instances w !! k = None ->
  run_op (CreateBorrowing k borrower borrow_dt due) w = (w, inl DoesNotExist).
Proof.
  intros H. unfold run_op, bind. by rewrite BookInstance_objects_get_None.
Qed.

Lemma run_MarkReturned (k now : Z) (rb : Borrowing) (ri : BookInstance)
    (bk : Book) (w : World) :
  borrowings w !! k = Some rb ->
  is_returned rb = false ->
  k <> 0 ->
  instances w !! book_instance_id rb = Some ri ->
  inventory_number ri <> ""%string ->
  books w !! book_id ri = Some bk ->
  let i := book_instance_id rb in
  run_op (MarkReturned k now) w
  = (with_borrowings
       (insert k (mkBorrowing (Some k) i None (borrower_id rb) (borrow_date rb)
                    (due_date rb) (Some now) true (fine rb)))
       (with_instances
          (insert i (mkBookInstance (Some i) (book_id ri) None
                       (inventory_number ri) (condition ri) true))
          (with_books
             (insert (book_id ri)
                (clamped (mkBook (Some (book_id ri)) (total_copies bk)
                            (available_copies bk + 1))))
             w)),
     inr tt).
Proof.
  intros Hrb Hret Hk Hri Hinv Hbk. simpl. unfold run_op. unfold bind at 1.
  rewrite (Borrowing_objects_get_Some k rb) by done.
  unfold bind at 1.
  erewrite (mark_as_returned_open now _ (load_BookInstance (_, ri))
              (load_Book (book_id ri, bk)) k _ (book_id ri)); try done.
  - simpl. unfold related_book_instance. simpl.
    by rewrite (BookInstance_objects_get_Some _ ri).
  - simpl. unfold related_book. simpl.
    by rewrite (Book_objects_get_Some _ bk).
Qed.

Lemma run_MarkReturned_done (k now : Z) (rb : Borrowing) (w : World) :
  borrowings w !! k = Some rb ->
  is_returned rb = true ->
  run_op (MarkReturned k now) w = (w, inr tt).
Proof.
  intros Hrb Hret. unfold run_op. unfold bind at 1.
  rewrite (Borrowing_objects_get_Some k rb) by done.
  unfold bind at 1. by rewrite mark_as_returned_done.
Qed.

Lemma run_MarkReturned_missing (k now : Z) (w : World) :
  borrowings w !! k = None ->
  run_op (MarkReturned k now) w = (w, inl DoesNotExist).
Proof.
  intros H. unfold run_op, bind. by rewrite Borrowing_objects_get_None.
Qed.

(** ** The last row of a query *)

Lemma last_by_id_nil (l : list (Z * BookInstance)) :
  last_by_id l = None -> l = [].
Proof.
  destruct l as [|kv l]; [done|]. simpl.
  destruct (last_by_id l) as [kv'|]; [|done]. by destruct (_ <? _).
Qed.

Lemma last_by_id_max (l : list (Z * BookInstance)) (kv : Z * BookInstance) :
  last_by_id l = Some kv ->
  kv ∈ l /\ forall kv', kv' ∈ l -> kv'.1 <= kv.1.
Proof.
  revert kv. induction l as [|x l IH]; intros kv H; [done|].
  simpl in H. destruct (last_by_id l) as [y|] eqn:E.
  - destruct (IH y eq_refl) as [Hy Hmax].
    destruct (y.1 <? x.1) eqn:Hlt; injection H as <-.
    + apply Z.ltb_lt in Hlt. split; [left|].
      intros kv' [->|Hin]%elem_of_cons; [lia|].
      specialize (Hmax kv' Hin). lia.
    + apply Z.ltb_ge in Hlt. split; [by right|].
      intros kv' [->|Hin]%elem_of_cons; [lia|]. by apply Hmax.
  - injection H as <-. apply last_by_id_nil in E as ->.
    split; [left|]. intros kv' [->|Hin]%elem_of_cons; [lia|].
    by apply elem_of_nil in Hin.
Qed.

Lemma elem_of_instances_of_book (b i : Z) (r : BookInstance) (w : World) :
  (i, r) ∈ instances_of_book b w <->
  instances w !! i = Some r /\ book_id r = b.
Proof.
  unfold instances_of_book. rewrite list_elem_of_filter. simpl.
  rewrite elem_of_map_to_list. tauto.
Qed.

(** On a consistent database the next number of a book is found, and it is
    above the numbers of all copies of the book. *)
Lemma next_number_wf (b : Z) (w : World) :
  wf_world w ->
  exists num, next_number b w = Some num /\ 1 <= num /\
    forall i r, instances w !! i = Some r -> book_id r = b ->
                sequence_of r < num.
Proof.
  intros Hwf. unfold next_number.
  destruct (last_by_id (instances_of_book b w)) as [[j rj]|] eqn:E.
  - apply last_by_id_max in E as [Hin Hmax].
    apply elem_of_instances_of_book in Hin as [Hj Hb]. simpl.
    destruct (wf_inventory w Hwf j rj Hj) as [H1 Hfmt].
    assert (py_int (last_segment (inventory_number rj)) = Some (sequence_of rj))
      as ->.
    { rewrite Hfmt at 1. apply inventory_format_seq. lia. }
    eexists. split; [done|]. split; [lia|].
    intros i r Hi Hr.
    assert (i <= j) as Hle.
    { apply (Hmax (i, r)). by apply elem_of_instances_of_book. }
    destruct (decide (i = j)) as [->|Hne].
    + assert (r = rj) as -> by congruence. lia.
    + assert (sequence_of r < sequence_of rj); [|lia].
      apply (wf_sequence w Hwf i j); [done..|congruence|lia].
  - apply last_by_id_nil in E. exists 1. split; [done|]. split; [lia|].
    intros i r Hi Hr.
    assert ((i, r) ∈ instances_of_book b w) as Hin
      by by apply elem_of_instances_of_book.
    rewrite E in Hin. by apply elem_of_nil in Hin.
Qed.

(** ** The written book *)


Lemma clamped_total (b : Book) : total_copies (clamped b) = total_copies b.
Proof. unfold clamped. by destruct (_ >? _). Qed.

Lemma clamped_available (b : Book) :
  available_copies (clamped b) = Z.min (available_copies b) (total_copies b).
Proof.
  unfold clamped. destruct (_ >? _) eqn:E; simpl.
  - apply Z.gtb_lt in E. lia.
  - rewrite Z.gtb_ltb in E. apply Z.ltb_ge in E. lia.
Qed.

Lemma clamped_le (b : Book) :
  available_copies (clamped b) <= total_copies (clamped b).
Proof. rewrite clamped_available, clamped_total. lia. Qed.

(** ** Every operation keeps the database consistent *)

Lemma wf_empty (us : list Z) : wf_world (empty_world us).
Proof.
  split; simpl; try (intros; simplify_map_eq; fail); [lia|].
  intros i k k' [b [H _]]. simplify_map_eq.
Qed.

Lemma wf_NewBook (total available : Z) (w : World) :
  wf_world w -> 0 <= total ->
  wf_world (run_op (NewBook total available) w).1.
Proof.
  intros Hwf Ht. rewrite run_NewBook. simpl.
  destruct Hwf as [Hc Hbk Hcnt Htot Hik Hib Hinv Hseq Hbok Hboi Hfl Hsi].
  split; simpl; try done.
  - lia.
  - intros k b [[<- <-]|[Hne H]]%lookup_insert_Some; [lia|].
    apply Hbk in H. lia.
  - intros k b [[<- <-]|[Hne H]]%lookup_insert_Some; [|by eapply Hcnt].
    apply (clamped_le (mkBook None total available)).
  - intros k b [[<- <-]|[Hne H]]%lookup_insert_Some; [|by eapply Htot].
    simpl. by rewrite clamped_total.
  - intros i r H. rewrite lookup_insert. case_decide; [done|by eapply Hib].
Qed.

Lemma wf_SetCopyCounts (k total available : Z) (w : World) :
  wf_world w -> 0 <= total ->
  wf_world (run_op (SetCopyCounts k total available) w).1.
Proof.
  intros Hwf Ht. destruct (books w !! k) as [r|] eqn:E.
  2: { by rewrite run_SetCopyCounts_missing. }
  rewrite (run_SetCopyCounts _ _ _ r) by done. simpl.
  destruct Hwf as [Hc Hbk Hcnt Htot Hik Hib Hinv Hseq Hbok Hboi Hfl Hsi].
  split; simpl; try done.
  - intros k' b [[<- <-]|[Hne H]]%lookup_insert_Some; by eapply Hbk.
  - intros k' b [[<- <-]|[Hne H]]%lookup_insert_Some; [|by eapply Hcnt].
    apply clamped_le.
  - intros k' b [[<- <-]|[Hne H]]%lookup_insert_Some; [|by eapply Htot].
    by rewrite clamped_total.
  - intros i r' H. rewrite lookup_insert. case_decide; [done|by eapply Hib].
Qed.

Lemma outstanding_frame (w w' : World) (i k : Z) :
  borrowings w' = borrowings w -> outstanding w' i k <-> outstanding w i k.
Proof. intros H. unfold outstanding. by rewrite H. Qed.

Lemma sequence_of_format (b n : Z) (c : Condition) (p : option Z)
    (bk : option Book) (a : bool) :
  0 <= n ->
  sequence_of (mkBookInstance p b bk (inventory_format b n) c a) = n.
Proof.
  intros H. unfold sequence_of. simpl. by rewrite inventory_format_seq.
Qed.

Lemma wf_NewInstance (k : Z) (c : Condition) (w : World) :
  wf_world w -> wf_world (run_op (NewInstance k c) w).1.
Proof.
  intros Hwf. destruct (books w !! k) as [bk|] eqn:E.
  2: { by rewrite run_NewInstance_missing. }
  destruct (next_number_wf k w Hwf) as (num & Hnum & H1 & Hmax).
  rewrite (run_NewInstance _ num _ bk) by done. simpl.
  destruct Hwf as [Hc Hbk Hcnt Htot Hik Hib Hinv Hseq Hbok Hboi Hfl Hsi].
  split; simpl; try done.
  - lia.
  - intros i r [[<- <-]|[Hne H]]%lookup_insert_Some; [lia|].
    apply Hik in H. lia.
  - intros i r [[<- <-]|[Hne H]]%lookup_insert_Some; [by simpl|by eapply Hib].
  - intros i r [[<- <-]|[Hne H]]%lookup_insert_Some; [|by eapply Hinv].
    rewrite sequence_of_format by lia. simpl. split; [lia|done].
  - intros i j ri rj [[<- <-]|[Hne Hi]]%lookup_insert_Some
      [[<- <-]|[Hne' Hj]]%lookup_insert_Some Hb Hlt; simpl in *.
    + lia.
    + apply Hik in Hj. lia.
    + rewrite sequence_of_format by lia. by eapply Hmax.
    + by eapply Hseq.
  - intros kb b H. rewrite lookup_insert. case_decide; [done|by eapply Hboi].
  - intros i r [[<- <-]|[Hne H]]%lookup_insert_Some; simpl.
    + split; [done|]. intros [kb (b & Hb & Hi & _)].
      destruct (Hboi kb b Hb) as [r Hr]. apply Hik in Hr. lia.
    + by apply Hfl.
Qed.

Lemma outstanding_insert (w w' : World) (kb : Z) (nb : Borrowing) (i k : Z) :
  borrowings w' = <[kb := nb]> (borrowings w) ->
  outstanding w' i k <->
  (k = kb /\ book_instance_id nb = i /\ is_returned nb = false) \/
  (k <> kb /\ outstanding w i k).
Proof.
  intros H. unfold outstanding. rewrite H. split.
  - intros (b & [[<- <-]|[Hne Hb]]%lookup_insert_Some & Hi & Hr); [by left|].
    right. split; [done|]. by exists b.
  - intros [(-> & Hi & Hr)|(Hne & b & Hb & Hi & Hr)].
    + exists nb. by rewrite lookup_insert_eq.
    + exists b. by rewrite lookup_insert_ne.
Qed.

Lemma wf_inventory_nonempty (w : World) (i : Z) (r : BookInstance) :
  wf_world w -> instances w !! i = Some r -> inventory_number r <> ""%string.
Proof.
  intros Hwf Hr. destruct (wf_inventory w Hwf i r Hr) as [_ ->].
  apply inventory_format_nonempty.
Qed.

Lemma wf_CreateBorrowing (k borrower borrow_dt due : Z) (w : World) :
  wf_world w ->
  wf_world (run_op (CreateBorrowing k borrower borrow_dt due) w).1.
Proof.
  intros Hwf. destruct (instances w !! k) as [r|] eqn:Er.
  2: { by rewrite run_CreateBorrowing_missing. }
  destruct (is_available r) eqn:Eav.
  2: { by rewrite (run_CreateBorrowing_unavailable _ _ _ _ r). }
  destruct (wf_instance_book w Hwf k r Er) as [bk Ebk].
  pose proof (wf_inventory_nonempty w k r Hwf Er) as Hne.
  rewrite (run_CreateBorrowing _ _ _ _ r bk) by done. simpl.
  set (nb := mkBorrowing _ _ _ _ _ _ _ _ _).
  set (nr := mkBookInstance _ _ _ _ _ _).
  set (nbk := clamped _).
  set (w' := bump_borrowing_id _).
  assert (borrowings w' = <[next_borrowing_id w := nb]> (borrowings w)) as Hbw
    by done.
  pose proof (fun i k0 => outstanding_insert w w' _ nb i k0 Hbw) as Hoi.
  destruct Hwf as [Hc Hbk Hcnt Htot Hik Hib Hinv Hseq Hbok Hboi Hfl Hsi].
  assert (forall i k0, outstanding w i k0 -> k0 <> next_borrowing_id w) as Hfresh.
  { intros i k0 (b & Hb & _). apply Hbok in Hb. lia. }
  split; simpl.
  - lia.
  - intros k' b [[<- <-]|[Hne' H]]%lookup_insert_Some; by eapply Hbk.
  - intros k' b [[<- <-]|[Hne' H]]%lookup_insert_Some; [|by eapply Hcnt].
    apply clamped_le.
  - intros k' b [[<- <-]|[Hne' H]]%lookup_insert_Some; [|by eapply Htot].
    subst nbk. rewrite clamped_total. simpl. by eapply Htot.
  - intros i r' [[<- <-]|[Hne' H]]%lookup_insert_Some; by eapply Hik.
  - intros i r' [[<- <-]|[Hne' H]]%lookup_insert_Some; simpl.
    + by rewrite lookup_insert_eq.
    + rewrite lookup_insert. case_decide; [done|by eapply Hib].
  - intros i r' [[<- <-]|[Hne' H]]%lookup_insert_Some; [|by eapply Hinv].
    by apply (Hinv k r).
  - intros i j ri rj [[<- <-]|[Hne1 Hi]]%lookup_insert_Some
      [[<- <-]|[Hne2 Hj]]%lookup_insert_Some Hb Hlt; simpl in *.
    + lia.
    + by apply (Hseq k j r rj).
    + by apply (Hseq i k ri r).
    + by eapply Hseq.
  - intros kb b [[<- <-]|[Hne' H]]%lookup_insert_Some; [lia|].
    apply Hbok in H. lia.
  - intros kb b [[<- <-]|[Hne' H]]%lookup_insert_Some; simpl.
    + by rewrite lookup_insert_eq.
    + rewrite lookup_insert. case_decide; [done|by eapply Hboi].
  - intros i r' [[<- <-]|[Hne' H]]%lookup_insert_Some; simpl.
    + split; [|done]. intros _. exists (next_borrowing_id w).
      apply Hoi. by left.
    + rewrite (Hfl i r' H). split; intros [k0 Hk0]; exists k0.
      * apply Hoi. right. split; [by eapply Hfresh|done].
      * apply Hoi in Hk0 as [(_ & Hi & _)|[_ Ho]]; [|done].
        simpl in Hi. congruence.
  - intros i k1 k2 H1 H2.
    apply Hoi in H1. apply Hoi in H2.
    assert (forall k0, ~ outstanding w k k0) as Hnone.
    { intros k0 Ho. assert (is_available r = false); [|congruence].
      apply (Hfl k r Er). by exists k0. }
    destruct H1 as [(-> & Hi1 & _)|[Hn1 H1]], H2 as [(-> & Hi2 & _)|[Hn2 H2]];
      simpl in *; subst; try done.
    + by destruct (Hnone k2).
    + by destruct (Hnone k1).
    + by eapply Hsi.
Qed.

Lemma wf_MarkReturned (k now : Z) (w : World) :
  wf_world w -> wf_world (run_op (MarkReturned k now) w).1.
Proof.
  intros Hwf. destruct (borrowings w !! k) as [rb|] eqn:Eb.
  2: { by rewrite run_MarkReturned_missing. }
  destruct (is_returned rb) eqn:Eret.
  { by rewrite (run_MarkReturned_done _ _ rb). }
  destruct (wf_borrowing_instance w Hwf k rb Eb) as [ri Eri].
  destruct (wf_instance_book w Hwf _ ri Eri) as [bk Ebk].
  pose proof (wf_inventory_nonempty w _ ri Hwf Eri) as Hne.
  pose proof (wf_borrowing_key w Hwf k rb Eb) as Hk.
  rewrite (run_MarkReturned _ _ rb ri bk) by (done || lia). simpl.
  set (nb := mkBorrowing _ _ _ _ _ _ _ _ _).
  set (nr := mkBookInstance _ _ _ _ _ _).
  set (nbk := clamped _).
  set (w' := with_borrowings _ _).
  assert (borrowings w' = <[k := nb]> (borrowings w)) as Hbw by done.
  pose proof (fun i k0 => outstanding_insert w w' _ nb i k0 Hbw) as Hoi.
  assert (outstanding w (book_instance_id rb) k) as Hout by by exists rb.
  destruct Hwf as [Hc Hbk Hcnt Htot Hik Hib Hinv Hseq Hbok Hboi Hfl Hsi].
  split; simpl.
  - lia.
  - intros k' b [[<- <-]|[Hne' H]]%lookup_insert_Some; by eapply Hbk.
  - intros k' b [[<- <-]|[Hne' H]]%lookup_insert_Some; [|by eapply Hcnt].
    apply clamped_le.
  - intros k' b [[<- <-]|[Hne' H]]%lookup_insert_Some; [|by eapply Htot].
    subst nbk. rewrite clamped_total. simpl. by eapply Htot.
  - intros i r' [[<- <-]|[Hne' H]]%lookup_insert_Some; by eapply Hik.
  - intros i r' [[<- <-]|[Hne' H]]%lookup_insert_Some; simpl.
    + by rewrite lookup_insert_eq.
    + rewrite lookup_insert. case_decide; [done|by eapply Hib].
  - intros i r' [[<- <-]|[Hne' H]]%lookup_insert_Some; [|by eapply Hinv].
    by apply (Hinv (book_instance_id rb) ri).
  - intros i j r1 r2 [[<- <-]|[Hne1 Hi]]%lookup_insert_Some
      [[<- <-]|[Hne2 Hj]]%lookup_insert_Some Hb Hlt; simpl in *.
    + lia.
    + by apply (Hseq (book_instance_id rb) j ri r2).
    + by apply (Hseq i (book_instance_id rb) r1 ri).
    + by eapply Hseq.
  - intros kb b [[<- <-]|[Hne' H]]%lookup_insert_Some; [done|].
    by eapply Hbok.
  - intros kb b [[<- <-]|[Hne' H]]%lookup_insert_Some; simpl.
    + by rewrite lookup_insert_eq.
    + rewrite lookup_insert. case_decide; [done|by eapply Hboi].
  - intros i r' [[<- <-]|[Hne' H]]%lookup_insert_Some; simpl.
    + split; [done|]. intros [k0 Hk0].
      apply Hoi in Hk0 as [(_ & _ & Hr)|[Hn Ho]]; [done|].
      destruct Hn. by eapply Hsi.
    + rewrite (Hfl i r' H). split; intros [k0 Hk0]; exists k0.
      * apply Hoi. right. split; [|done].
        intros ->. destruct Hne'. destruct Hk0 as (b & Hb & Hi & _).
        congruence.
      * by apply Hoi in Hk0 as [(_ & _ & Hr)|[_ Ho]].
  - intros i k1 k2 H1 H2.
    apply Hoi in H1 as [(_ & _ & Hr)|[_ H1]]; [done|].
    apply Hoi in H2 as [(_ & _ & Hr)|[_ H2]]; [done|].
    by eapply Hsi.
Qed.

Lemma wf_step (op : Op) (w : World) :
  wf_world w -> op_valid op -> wf_world (run_op op w).1.
Proof.
  intros Hwf Hop. destruct op; simpl in Hop.
  - apply wf_NewBook; tauto.
  - apply wf_SetCopyCounts; tauto.
  - by apply wf_NewInstance.
  - by apply wf_CreateBorrowing.
  - by apply wf_MarkReturned.
Qed.

Lemma reachable_wf (us : list Z) (w : World) : reachable us w -> wf_world w.
Proof.
  induction 1 as [|w op _ IH Hop]; [apply wf_empty|by apply wf_step].
Qed.

(** ** Availability flag and outstanding borrowings *)


(** ** Inventory numbers *)



(** ** Bounds of the copy counts *)




(** The operations of a list, one after the other. *)
Lemma reachable_run_ops (us : list Z) (ops : list Op) (w : World) :
  reachable us w -> Forall op_valid ops -> reachable us (run_ops ops w).
Proof.
  revert w. induction ops as [|op ops IH]; intros w Hw Hops; [done|].
  apply Forall_cons in Hops as [Hop Hops]. simpl.
  apply IH; [|done]. by apply reachable_step.
Qed.


(** ** Creating and returning a borrowing *)

Lemma clamped_mk (p : option Z) (t a : Z) :
  clamped (mkBook p t a) = mkBook p t (Z.min a t).
Proof.
  unfold clamped. simpl. destruct (a >? t) eqn:E.
  - apply Z.gtb_lt in E. unfold set_available_copies. simpl. f_equal. lia.
  - rewrite Z.gtb_ltb in E. apply Z.ltb_ge in E. f_equal. lia.
Qed.


Lemma bind_inr {A B} (m : M A) (k : A -> M B) (w w' : World) (b : B) :
  bind m k w = (w', inr b) ->
  exists w1 a, m w = (w1, inr a) /\ k a w1 = (w', inr b).
Proof.
  unfold bind. destruct (m w) as [w1 [e|a]]; [done|]. intros H.
  by exists w1, a.
Qed.

Lemma bind_inl {A B} (m : M A) (k : A -> M B) (w w' : World) (e : exn) :
  bind m k w = (w', inl e) ->
  m w = (w', inl e) \/
  exists w1 a, m w = (w1, inr a) /\ k a w1 = (w', inl e).
Proof.
  unfold bind. destruct (m w) as [w1 [e'|a]]; intros H.
  - injection H as -> ->. by left.
  - right. by exists w1, a.
Qed.

Lemma Model_save_Borrowing_is_returned (self self' : Borrowing) (w w' : World) :
  Model_save_Borrowing self w = (w', inr self') ->
  is_returned self' = is_returned self.
Proof.
  unfold Model_save_Borrowing.
  destruct (pk self); intros [= _ <-]; done.
Qed.

Lemma Borrowing_save_is_returned (self self' : Borrowing) (w w' : World) :
  Borrowing_save self w = (w', inr self') ->
  is_returned self' = is_returned self.
Proof.
  unfold Borrowing_save. destruct (not_pk (pk self)).
  - intros (w1 & inst & _ & H)%bind_inr.
    destruct (is_available inst); [|done].
    apply bind_inr in H as (w2 & bk & _ & H).
    apply bind_inr in H as (w3 & bk' & _ & H).
    apply bind_inr in H as (w4 & inst' & _ & H).
    by apply Model_save_Borrowing_is_returned in H.
  - apply Model_save_Borrowing_is_returned.
Qed.

Lemma mark_as_returned_is_returned (now : Z) (self self' : Borrowing)
    (w w' : World) :
  mark_as_returned now self w = (w', inr self') -> is_returned self' = true.
Proof.
  unfold mark_as_returned. destruct (is_returned self) eqn:E; simpl.
  - by intros [= _ <-].
  - intros (w1 & inst & _ & H)%bind_inr.
    apply bind_inr in H as (w2 & bk & _ & H).
    apply bind_inr in H as (w3 & bk' & _ & H).
    apply bind_inr in H as (w4 & inst' & _ & H).
    by apply Borrowing_save_is_returned in H.
Qed.

(** C4, as the code has it.  Marking a borrowing as returned a second time
    changes nothing, on the object that the first call returned and on the
    record read again from the database.  On a stored borrowing already
    returned the call changes nothing.  On a stored borrowing not yet
    returned it writes three rows: the borrowing, with [is_returned] true
    and [return_date] the current time; its book instance, with
    [is_available] true; and the book, whose [available_copies] becomes one
    more than before, or [total_copies] if that is smaller. *)
Theorem mark_as_returned_twice (us : list Z) (w : World) (k now now' : Z)
    (rb : Borrowing) :
  reachable us w ->
  borrowings w !! k = Some rb ->
  let res := run_op (MarkReturned k now) w in
  (forall self w0 w1 self1,
      mark_as_returned now self w0 = (w1, inr self1) ->
      mark_as_returned now' self1 w1 = (w1, inr self1)) /\
  res.2 = inr tt /\
  run_op (MarkReturned k now') res.1 = (res.1, inr tt) /\
  (is_returned rb = true -> res.1 = w) /\
  (is_returned rb = false ->
   exists ri bk,
     let i := book_instance_id rb in
     instances w !! i = Some ri /\
     books w !! book_id ri = Some bk /\
     borrowings res.1
     = <[k := mkBorrowing (Some k) i None (borrower_id rb) (borrow_date rb)
                (due_date rb) (Some now) true (fine rb)]> (borrowings w) /\
     instances res.1
     = <[i := mkBookInstance (Some i) (book_id ri) None (inventory_number ri)
                (condition ri) true]> (instances w) /\
     books res.1
     = <[book_id ri := mkBook (Some (book_id ri)) (total_copies bk)
                         (Z.min (available_copies bk + 1) (total_copies bk))]>
         (books w)).
Proof.
  intros Hwf%reachable_wf Hrb. cbv zeta. split.
  { intros self w0 w1 self1 H. apply mark_as_returned_done.
    by eapply mark_as_returned_is_returned. }
  destruct (is_returned rb) eqn:Eret.
  - rewrite !(run_MarkReturned_done _ _ rb) by done. by repeat split.
  - destruct (wf_borrowing_instance w Hwf k rb Hrb) as [ri Hri].
    destruct (wf_instance_book w Hwf _ ri Hri) as [bk Hbk].
    pose proof (wf_borrowing_key w Hwf k rb Hrb) as Hk.
    rewrite (run_MarkReturned _ _ rb ri bk);
      [|done|done|lia|done|by eapply wf_inventory_nonempty|done].
    cbn [fst snd]. split; [done|]. split; [|split; [done|]].
    + erewrite run_MarkReturned_done; [done| |]; simpl.
      * apply lookup_insert_eq.
      * done.
    + intros _. exists ri, bk. simpl. by rewrite clamped_mk.
Qed.

(** C4 as the specification states it does not hold: after one copy of two
    is borrowed and the total is lowered to one, the return leaves
    [available_copies] at 1 instead of raising it to 2. *)
Lemma mark_as_returned_not_plus_one :
  ~ (forall us w k now rb ri bk,
        reachable us w ->
        borrowings w !! k = Some rb ->
        is_returned rb = false ->
        instances w !! book_instance_id rb = Some ri ->
        books w !! book_id ri = Some bk ->
        available_copies <$> books (run_op (MarkReturned k now) w).1 !! book_id ri
        = Some (available_copies bk + 1)).
Proof.
  intros H.
  specialize (H [] (run_ops [NewBook 2 2; NewInstance 1 good; NewInstance 1 good;
                             CreateBorrowing 1 1 0 14; SetCopyCounts 1 1 1]
                      (empty_world []))
                1 100
                (mkBorrowing (Some 1) 1 None 1 0 14 None false 0)
                (mkBookInstance (Some 1) 1 None "001-0001" good false)
                (mkBook (Some 1) 1 1)).
  assert (Some 1 = Some (1 + 1)); [|done]. apply H.
  - apply reachable_run_ops; [constructor|].
    repeat constructor; simpl; lia.
  - vm_compute. reflexivity.
  - reflexivity.
  - vm_compute. reflexivity.
  - vm_compute. reflexivity.
Qed.

(** ** Rules for specifications *)

Lemma hoare_bind {A B} (P : World -> Prop) (m : M A) (k : A -> M B)
    (Q : A -> World -> Prop) (R : B -> World -> Prop)
    (E : exn -> World -> Prop) :
  hoare P m Q E -> (forall a, hoare (Q a) (k a) R E) ->
  hoare P (bind m k) R E.
Proof.
  intros Hm Hk w Hw. unfold bind. specialize (Hm w Hw).
  destruct (m w) as [w1 [e|a]]; [done|]. by apply Hk.
Qed.

Lemma hoare_conseq {A} (P P' : World -> Prop) (m : M A)
    (Q Q' : A -> World -> Prop) (E E' : exn -> World -> Prop) :
  hoare P' m Q' E' ->
  (forall w, P w -> P' w) ->
  (forall a w, Q' a w -> Q a w) ->
  (forall e w, E' e w -> E e w) ->
  hoare P m Q E.
Proof.
  intros Hm HP HQ HE w Hw. specialize (Hm w (HP w Hw)).
  destruct (m w) as [w1 [e|a]]; auto.
Qed.

Lemma hoare_ret {A} (P : World -> Prop) (a : A) (Q : A -> World -> Prop)
    (E : exn -> World -> Prop) :
  (forall w, P w -> Q a w) -> hoare P (ret a) Q E.
Proof. intros H w Hw. by apply H. Qed.

Lemma hoare_raise {A} (P : World -> Prop) (e : exn) (Q : A -> World -> Prop)
    (E : exn -> World -> Prop) :
  (forall w, P w -> E e w) -> hoare P (raise e) Q E.
Proof. intros H w Hw. by apply H. Qed.

Lemma hoare_gets {A} (P : World -> Prop) (f : World -> A)
    (E : exn -> World -> Prop) :
  hoare P (gets f) (fun a w => P w /\ a = f w) E.
Proof. by intros w Hw. Qed.

Lemma hoare_unwrap {A} (P : World -> Prop) (e : exn) (o : option A)
    (E : exn -> World -> Prop) :
  (forall w, P w -> o = None -> E e w) ->
  hoare P (unwrap e o) (fun a w => P w /\ o = Some a) E.
Proof. intros H w Hw. destruct o; simpl; auto. Qed.

(** A precondition that does not depend on the database. *)
Lemma hoare_pure {A} (P : World -> Prop) (phi : Prop) (m : M A)
    (Q : A -> World -> Prop) (E : exn -> World -> Prop) :
  (phi -> hoare P m Q E) -> hoare (fun w => P w /\ phi) m Q E.
Proof. intros H w [Hw Hphi]. by apply H. Qed.

Lemma hoare_fact {A} (phi : Prop) (m : M A)
    (Q : A -> World -> Prop) (E : exn -> World -> Prop) :
  (phi -> hoare (fun _ => True) m Q E) -> hoare (fun _ => phi) m Q E.
Proof. intros H w Hphi. by apply H. Qed.

(** ** The seed generator never borrows an unavailable copy *)

Lemma safe_Book_objects_get (k : Z) :
  hoare any_world (Book_objects_get k) (fun _ _ => True) other_exn.
Proof.
  intros w _. unfold Book_objects_get, bind, gets. simpl.
  by destruct (books w !! k).
Qed.

Lemma safe_related_book (self : BookInstance) :
  hoare any_world (related_book self) (fun _ _ => True) other_exn.
Proof.
  unfold related_book. destruct (book self); [done|].
  apply safe_Book_objects_get.
Qed.

Lemma safe_related_book_instance (self : Borrowing) :
  hoare any_world (related_book_instance self)
    (fun i _ => forall i', book_instance self = Some i' -> i = i') other_exn.
Proof.
  unfold related_book_instance. destruct (book_instance self) as [i|].
  - intros w _. simpl. congruence.
  - intros w _. unfold BookInstance_objects_get, bind, gets. simpl.
    by destruct (instances w !! _).
Qed.

Lemma safe_Book_save (self : Book) :
  hoare any_world (Book_save self) (fun _ _ => True) other_exn.
Proof.
  intros w _. destruct (book_pk self) as [k|] eqn:E.
  - by rewrite (Book_save_Some _ k).
  - by rewrite Book_save_None.
Qed.

Lemma safe_Model_save_BookInstance (self : BookInstance) :
  hoare any_world (Model_save_BookInstance self)
    (fun i _ => is_available i = is_available self) other_exn.
Proof.
  intros w _. unfold Model_save_BookInstance. by destruct (instance_pk self).
Qed.

Lemma safe_BookInstance_save (self : BookInstance) :
  hoare any_world (BookInstance_save self)
    (fun i _ => is_available i = is_available self) other_exn.
Proof.
  unfold BookInstance_save. destruct (String.eqb _ _).
  2: apply safe_Model_save_BookInstance.
  eapply hoare_bind; [apply safe_related_book|]. intros bk. simpl.
  eapply hoare_bind.
  { eapply hoare_conseq; [apply (hoare_unwrap any_world)|..]; try done.
    by intros w _ _. }
  intros b. simpl. eapply hoare_bind.
  { eapply hoare_conseq; [apply (hoare_gets any_world)|..]; done. }
  intros last. simpl. eapply hoare_bind with (Q := fun _ _ => True).
  - destruct last as [kv|]; [|done].
    eapply hoare_bind.
    { eapply hoare_conseq; [apply (hoare_unwrap any_world)|..]; try done.
      by intros w _ _. }
    done.
  - intros num.
    eapply hoare_conseq;
      [apply safe_Model_save_BookInstance|done|done|done].
Qed.

Lemma safe_Model_save_Borrowing (self : Borrowing) :
  hoare any_world (Model_save_Borrowing self) (fun _ _ => True) other_exn.
Proof.
  intros w _. unfold Model_save_Borrowing. by destruct (pk self).
Qed.

(** [Borrowing.save] on a record whose cached copy is available. *)
Lemma safe_Borrowing_save (self : Borrowing) (inst : BookInstance) :
  book_instance self = Some inst ->
  is_available inst = true ->
  hoare any_world (Borrowing_save self) (fun _ _ => True) other_exn.
Proof.
  intros Hc Hav. unfold Borrowing_save. destruct (not_pk (pk self)).
  2: apply safe_Model_save_Borrowing.
  eapply hoare_bind; [apply safe_related_book_instance|].
  intros i.
  apply (hoare_fact (forall i', book_instance self = Some i' -> i = i')).
  intros Hi. rewrite (Hi inst Hc), Hav.
  eapply hoare_bind with (Q := fun _ => any_world).
  { eapply hoare_conseq; [apply safe_related_book|done..]. }
  intros bk. eapply hoare_bind with (Q := fun _ => any_world).
  { eapply hoare_conseq; [apply safe_Book_save|done..]. }
  intros bk'. eapply hoare_bind with (Q := fun _ => any_world).
  { eapply hoare_conseq; [apply safe_BookInstance_save|done..]. }
  intros inst'. apply safe_Model_save_Borrowing.
Qed.

Lemma safe_mark_as_returned (now : Z) (self : Borrowing) :
  hoare any_world (mark_as_returned now self) (fun _ _ => True) other_exn.
Proof.
  unfold mark_as_returned. destruct (is_returned self); [done|]. simpl.
  eapply hoare_bind with (Q := fun _ => any_world).
  { eapply hoare_conseq; [apply safe_related_book_instance|done..]. }
  intros inst. eapply hoare_bind with (Q := fun _ => any_world).
  { eapply hoare_conseq; [apply safe_related_book|done..]. }
  intros bk. eapply hoare_bind with (Q := fun _ => any_world).
  { eapply hoare_conseq; [apply safe_Book_save|done..]. }
  intros bk'. eapply hoare_bind; [apply safe_BookInstance_save|].
  intros inst'. simpl.
  apply (hoare_fact (is_available inst' = true)). intros Hav.
  by apply (safe_Borrowing_save _ inst').
Qed.

Lemma safe_Borrowing_objects_create (instance : BookInstance)
    (borrower borrow_dt due : Z) :
  is_available instance = true ->
  hoare any_world (Borrowing_objects_create instance borrower borrow_dt due)
    (fun _ _ => True) other_exn.
Proof.
  intros Hav. unfold Borrowing_objects_create.
  eapply hoare_bind with (Q := fun _ => any_world).
  { eapply hoare_conseq; [apply (hoare_unwrap any_world)|..]; try done.
    by intros w _ _. }
  intros i. by apply (safe_Borrowing_save _ instance).
Qed.

Lemma safe_choice {A} (n : nat) (l : list A) :
  hoare any_world (choice n l) (fun a _ => a ∈ l) other_exn.
Proof.
  intros w _. unfold choice, unwrap.
  destruct (l !! _) as [a|] eqn:E; simpl; [|done].
  by eapply list_elem_of_lookup_2.
Qed.

Lemma elem_of_available_instances_query (o : BookInstance) (w : World) :
  o ∈ available_instances_query w <->
  exists k r, o = load_BookInstance (k, r) /\
              instances w !! k = Some r /\ is_available r = true.
Proof.
  unfold available_instances_query. rewrite list_elem_of_fmap. split.
  - intros ([k r] & -> & [Hav Hin%elem_of_map_to_list]%list_elem_of_filter).
    by exists k, r.
  - intros (k & r & -> & Hr & Hav). exists (k, r). split; [done|].
    apply list_elem_of_filter. split; [done|]. by apply elem_of_map_to_list.
Qed.

Lemma pool_available_query (w : World) :
  pool_available (available_instances_query w).
Proof.
  apply Forall_forall.
  by intros o (k & r & -> & _ & Hav)%elem_of_available_instances_query.
Qed.

Lemma pool_available_filter (P : BookInstance -> Prop)
    `{!forall o, Decision (P o)} (pool : list BookInstance) :
  pool_available pool -> pool_available (filter P pool).
Proof.
  unfold pool_available. rewrite !Forall_forall.
  intros Hall o [_ Hin]%list_elem_of_filter. by apply Hall.
Qed.

Lemma safe_borrowing_loop (fuel : nat) (rng : nat -> Draw) (users : list Z)
    (count max_tries : Z) (pool : list BookInstance) (created tries : Z) :
  pool_available pool ->
  hoare any_world
    (borrowing_loop fuel rng users count max_tries pool created tries)
    (fun _ _ => True) other_exn.
Proof.
  revert pool created tries.
  induction fuel as [|fuel IH]; intros pool created tries Hpool; simpl;
    destruct ((created <? count) && (tries <? max_tries)); try done.
  eapply hoare_bind with (Q := fun p _ => pool_available p).
  { destruct pool; [|by intros w _]. intros w _. apply pool_available_query. }
  intros [|o pool']; [done|].
  apply (hoare_fact (pool_available (o :: pool'))). intros Hpool'.
  eapply hoare_bind; [apply safe_choice|]. intros instance. simpl.
  apply (hoare_fact (instance ∈ o :: pool')). intros Hin.
  assert (is_available instance = true) as Hav.
  { by apply (proj1 (Forall_forall _ _) Hpool'). }
  eapply hoare_bind with (Q := fun _ => any_world).
  { eapply hoare_conseq; [apply safe_choice|done..]. }
  intros borrower. eapply hoare_bind with (Q := fun _ => any_world).
  { eapply hoare_conseq; [by apply safe_Borrowing_objects_create|done..]. }
  intros borrowing. eapply hoare_bind with (Q := fun _ => any_world).
  { destruct (returned _); [|done].
    eapply hoare_conseq; [apply safe_mark_as_returned|done..]. }
  intros _. apply IH. by apply pool_available_filter.
Qed.

(** C10. [create_borrowings] never ends with the exception of the
    unavailable copy, whatever the database, the requested count and the
    random draws are: every copy that the loop borrows is taken from a pool
    of objects whose [is_available] is true. *)
Theorem create_borrowings_never_unavailable (fuel : nat) (rng : nat -> Draw)
    (count : Z) (w : World) :
  (create_borrowings fuel rng count w).2 <> inl InstanceUnavailable.
Proof.
  assert (hoare any_world (create_borrowings fuel rng count)
            (fun _ _ => True) other_exn) as H.
  { unfold create_borrowings.
    eapply hoare_bind with (Q := fun _ => any_world); [done|]. intros us.
    eapply hoare_bind with (Q := fun p _ => pool_available p).
    { intros w0 _. apply pool_available_query. }
    intros pool. destruct us as [|u us]; [done|].
    destruct pool as [|o pool]; [done|].
    apply (hoare_fact (pool_available (o :: pool))). intros Hpool.
    eapply hoare_bind with (Q := fun _ => any_world); [|done].
    eapply hoare_conseq; [by apply safe_borrowing_loop|done..]. }
  specialize (H w I).
  destruct (create_borrowings fuel rng count w) as [w' [e|r]]; simpl; [|done].
  congruence.
Qed.

(** ** The loop of the seed generator ends *)

Lemma hoare_any {A} (P : World -> Prop) (m : M A) :
  hoare P m (fun _ => any_world) (fun _ _ => True).
Proof. intros w _. by destruct (m w) as [w' [e|a]]. Qed.

Lemma borrowing_loop_ends (fuel : nat) (rng : nat -> Draw) (users : list Z)
    (count : Z) (pool : list BookInstance) (n : Z) :
  0 <= n <= Z.max 0 count ->
  (Z.to_nat (count - n) <= fuel)%nat ->
  hoare any_world
    (borrowing_loop fuel rng users count (count * 10) pool n n)
    (fun r w => exists e, r = Some e /\ loop_end_ok count e w)
    (fun _ _ => True).
Proof.
  revert pool n.
  induction fuel as [|fuel IH]; intros pool n Hn Hfuel; simpl;
    destruct ((n <? count) && (n <? count * 10)) eqn:Hc.
  - apply andb_true_iff in Hc as [Hc _]. apply Z.ltb_lt in Hc. lia.
  - intros w _. eexists. split; [done|]. unfold loop_end_ok. simpl.
    apply andb_false_iff in Hc as [Hc|Hc]; apply Z.ltb_ge in Hc; lia.
  - apply andb_true_iff in Hc as [Hc _]. apply Z.ltb_lt in Hc.
    eapply hoare_bind
      with (Q := fun p w => p = [] -> available_instances_query w = []).
    { destruct pool; intros w _; unfold gets, ret; simpl; done. }
    intros [|o pool'].
    { intros w Hw. eexists. split; [done|]. unfold loop_end_ok. simpl.
      split; [lia|]. split; [lia|]. split; [done|]. by apply Hw. }
    eapply hoare_bind; [apply hoare_any|]. intros instance.
    eapply hoare_bind; [apply hoare_any|]. intros borrower.
    eapply hoare_bind; [apply hoare_any|]. intros borrowing.
    eapply hoare_bind; [apply hoare_any|]. intros ?.
    apply IH; lia.
  - intros w _. eexists. split; [done|]. unfold loop_end_ok. simpl.
    apply andb_false_iff in Hc as [Hc|Hc]; apply Z.ltb_ge in Hc; lia.
Qed.

(** C8. With a unit of fuel for each requested record, [create_borrowings]
    ends for every database and all random draws: it returns a report or
    raises an exception, and its loop is left either by its condition with
    [count] records created, or by [break] on an empty refreshed pool;
    the number of passes is at most ten times the count. *)
Theorem create_borrowings_terminates (fuel : nat) (rng : nat -> Draw)
    (count : Z) (w : World) :
  (Z.to_nat count <= fuel)%nat ->
  (create_borrowings fuel rng count w).2 <> inr None /\
  (forall users pool,
      match borrowing_loop fuel rng users count (count * 10) pool 0 0 w with
      | (w', inr r) => exists e, r = Some e /\ loop_end_ok count e w'
      | (_, inl _) => True
      end).
Proof.
  intros Hfuel.
  assert (forall users pool,
             hoare any_world
               (borrowing_loop fuel rng users count (count * 10) pool 0 0)
               (fun r w => exists e, r = Some e /\ loop_end_ok count e w)
               (fun _ _ => True)) as Hloop.
  { intros users pool. apply borrowing_loop_ends; lia. }
  split.
  - unfold create_borrowings, bind, gets. simpl.
    destruct (users w) as [|u us]; [done|].
    destruct (available_instances_query w) as [|o pool] eqn:E; [done|].
    specialize (Hloop (u :: us) (o :: pool) w I).
    destruct (borrowing_loop _ _ _ _ _ _ _ _ w) as [w' [e|r]]; [done|].
    destruct Hloop as (e & -> & _). done.
  - intros users pool. apply (Hloop users pool w I).
Qed.

(** ** One pass of the seed loop on a consistent database *)

Lemma choice_Some {A} (n : nat) (l : list A) (w : World) :
  l <> [] -> exists a, choice n l w = (w, inr a) /\ a ∈ l.
Proof.
  intros Hl. unfold choice.
  destruct (lookup_lt_is_Some_2 l (n mod length l)) as [a Ha].
  { apply Nat.mod_upper_bound. by destruct l. }
  exists a. rewrite Ha. split; [done|]. by eapply list_elem_of_lookup_2.
Qed.

(** Creating the borrowing from the object of a stored row is the
    operation [CreateBorrowing] on the key of the row. *)
Lemma run_CreateBorrowing_create (j borrower borrow_dt due : Z)
    (r : BookInstance) (w : World) :
  instances w !! j = Some r ->
  (run_op (CreateBorrowing j borrower borrow_dt due) w).1
  = (Borrowing_objects_create (load_BookInstance (j, r)) borrower borrow_dt
       due w).1.
Proof.
  intros Hr. unfold run_op. unfold bind at 1.
  rewrite (BookInstance_objects_get_Some j r) by done.
  unfold bind at 1.
  by destruct (Borrowing_objects_create _ _ _ _ w) as [w' [e|b]].
Qed.

(** The borrowing that the loop creates from the object of an available
    row, with the copy and the book cached in it. *)
Lemma Borrowing_objects_create_loaded (j borrower borrow_dt due : Z)
    (r : BookInstance) (bk : Book) (w : World) :
  instances w !! j = Some r ->
  is_available r = true ->
  inventory_number r <> ""%string ->
  books w !! book_id r = Some bk ->
  let kb := next_borrowing_id w in
  let bk' := mkBook (Some (book_id r)) (total_copies bk)
               (Z.min (available_copies bk - 1) (total_copies bk)) in
  let inst' := mkBookInstance (Some j) (book_id r) (Some bk')
                 (inventory_number r) (condition r) false in
  Borrowing_objects_create (load_BookInstance (j, r)) borrower borrow_dt due w
  = ((run_op (CreateBorrowing j borrower borrow_dt due) w).1,
     inr (mkBorrowing (Some kb) j (Some inst') borrower borrow_dt due None
            false 0)).
Proof.
  intros Hr Hav Hinv Hbk. cbv zeta.
  rewrite (run_CreateBorrowing_create _ _ _ _ r) by done.
  unfold Borrowing_objects_create, bind at 1. simpl.
  unfold bind at 1. simpl.
  assert ((related_book (load_BookInstance (j, r)) w).2
          = inr (load_Book (book_id r, bk))) as Hrel.
  { unfold related_book. simpl. by rewrite (Book_objects_get_Some _ bk). }
  rewrite !(Borrowing_save_new _ (load_BookInstance (j, r))
              (load_Book (book_id r, bk)) j (book_id r)) by done.
  simpl. unfold set_pk, set_book_instance, set_book, set_is_available,
    set_available_copies. simpl. by rewrite clamped_mk.
Qed.

(** Marking that borrowing as returned is the operation [MarkReturned] on
    its key. *)
Lemma mark_as_returned_created (j kb borrower borrow_dt due now : Z)
    (ri : BookInstance) (bk : Book) (w : World) :
  kb <> 0 ->
  borrowings w !! kb
  = Some (mkBorrowing (Some kb) j None borrower borrow_dt due None false 0) ->
  instances w !! j = Some ri ->
  inventory_number ri <> ""%string ->
  books w !! book_id ri = Some bk ->
  book_pk bk = Some (book_id ri) ->
  (mark_as_returned now
     (mkBorrowing (Some kb) j
        (Some (mkBookInstance (Some j) (book_id ri) (Some bk)
                 (inventory_number ri) (condition ri) false))
        borrower borrow_dt due None false 0) w).1
  = (run_op (MarkReturned kb now) w).1 /\
  exists self', (mark_as_returned now
     (mkBorrowing (Some kb) j
        (Some (mkBookInstance (Some j) (book_id ri) (Some bk)
                 (inventory_number ri) (condition ri) false))
        borrower borrow_dt due None false 0) w).2 = inr self'.
Proof.
  intros Hkb Hb Hi Hinv Hbk Hpk.
  erewrite (run_MarkReturned _ _ _ ri bk); try done.
  erewrite (mark_as_returned_open now _ _ bk kb j (book_id ri)); try done.
  simpl. split; [|by eexists].
  unfold set_book_instance, set_returned, set_book, set_is_available,
    set_available_copies, borrowing_row, instance_row. simpl.
  destruct bk as [p t a]. simpl in *. by rewrite Hpk.
Qed.

#[local] Arguments run_op : simpl never.

(** One pass of the loop on an available row [j]: a borrowing is created
    and, if the draw says so, returned at once.  The pass raises no
    exception, keeps the database consistent, and leaves the row of the copy
    with [is_available] equal to the draw. *)
Lemma loop_pass (j borrower borrow_dt due now : Z) (ret_now : bool)
    (r : BookInstance) (w : World) :
  wf_world w ->
  instances w !! j = Some r ->
  is_available r = true ->
  exists w2 b2,
    (do borrowing <- Borrowing_objects_create (load_BookInstance (j, r))
                       borrower borrow_dt due;
     if ret_now then mark_as_returned now borrowing else ret borrowing) w
    = (w2, inr b2) /\
    wf_world w2 /\
    instances w2
    = <[j := mkBookInstance (Some j) (book_id r) None (inventory_number r)
               (condition r) ret_now]> (instances w).
Proof.
  intros Hwf Hr Hav.
  destruct (wf_instance_book w Hwf j r Hr) as [bk Hbk].
  pose proof (wf_inventory_nonempty w j r Hwf Hr) as Hinv.
  pose proof (wf_CreateBorrowing j borrower borrow_dt due w Hwf) as Hwf1.
  pose proof (run_CreateBorrowing j borrower borrow_dt due r bk w Hr Hav Hinv
                Hbk) as Hw1.
  cbv zeta in Hw1. apply (f_equal fst) in Hw1. cbn [fst] in Hw1.
  rewrite clamped_mk in Hw1.
  unfold bind.
  rewrite (Borrowing_objects_create_loaded _ _ _ _ r bk) by done.
  set (w1 := (run_op (CreateBorrowing j borrower borrow_dt due) w).1) in *.
  destruct ret_now.
  - set (ri := mkBookInstance (Some j) (book_id r) None (inventory_number r)
                 (condition r) false).
    set (bk' := mkBook (Some (book_id r)) (total_copies bk)
                  (Z.min (available_copies bk - 1) (total_copies bk))).
    destruct (mark_as_returned_created j (next_borrowing_id w) borrower
                borrow_dt due now ri bk' w1) as [Hfst [self' Hsnd]].
    + pose proof (wf_counters w Hwf). lia.
    + rewrite Hw1. simpl. apply lookup_insert_eq.
    + rewrite Hw1. simpl. apply lookup_insert_eq.
    + done.
    + rewrite Hw1. simpl. apply lookup_insert_eq.
    + done.
    + simpl in Hfst, Hsnd. exists (run_op (MarkReturned (next_borrowing_id w) now) w1).1, self'.
      split; [by apply run_eq|]. split; [by apply wf_MarkReturned|].
      rewrite (run_MarkReturned _ _
                 (mkBorrowing (Some (next_borrowing_id w)) j None borrower
                    borrow_dt due None false 0) ri bk').
      * simpl. rewrite Hw1. simpl. apply insert_insert_eq.
      * rewrite Hw1. simpl. apply lookup_insert_eq.
      * done.
      * pose proof (wf_counters w Hwf). lia.
      * rewrite Hw1. simpl. apply lookup_insert_eq.
      * done.
      * rewrite Hw1. simpl. apply lookup_insert_eq.
  - eexists _, _. split; [done|]. split; [done|]. by rewrite Hw1.
Qed.

(** ** Counting the available rows *)

Lemma bind_assoc {A B C} (m : M A) (f : A -> M B) (g : B -> M C) (w : World) :
  bind (bind m f) g w = bind m (fun a => bind (f a) g) w.
Proof. unfold bind. by destruct (m w) as [w1 [e|a]]. Qed.

Lemma available_length_insert (m : gmap Z BookInstance) (j : Z)
    (r r' : BookInstance) :
  m !! j = Some r ->
  (length (filter (fun kv : Z * BookInstance => is_available kv.2 = true)
             (map_to_list (<[j := r']> m)))
   + (if is_available r then 1 else 0)
   = length (filter (fun kv : Z * BookInstance => is_available kv.2 = true)
               (map_to_list m))
     + (if is_available r' then 1 else 0))%nat.
Proof.
  intros Hr.
  rewrite <- (insert_delete_eq m j r').
  rewrite <- (insert_delete_id m j r Hr) at 2.
  rewrite !map_to_list_insert by apply lookup_delete_eq.
  rewrite !filter_cons. simpl.
  destruct (is_available r), (is_available r'); repeat case_decide;
    try done; simpl; lia.
Qed.

Lemma available_count_insert (w w' : World) (j : Z) (r r' : BookInstance) :
  instances w !! j = Some r ->
  instances w' = <[j := r']> (instances w) ->
  available_count w' + (if is_available r then 1 else 0)
  = available_count w + (if is_available r' then 1 else 0).
Proof.
  intros Hr Hw'. unfold available_count, available_instances_query.
  rewrite !length_fmap, Hw'.
  pose proof (available_length_insert (instances w) j r r' Hr).
  destruct (is_available r), (is_available r'); lia.
Qed.

Lemma returned_count_S (rng : nat -> Draw) (n : nat) :
  returned_count rng (S n)
  = returned_count rng n + (if returned (rng (S n)) then 1 else 0).
Proof.
  unfold returned_count. rewrite seq_S, filter_app, length_app. simpl.
  rewrite filter_cons, filter_nil.
  destruct (returned (rng (S n))); case_decide; try done; simpl; lia.
Qed.

Lemma pool_in_query (w : World) : pool_in w (available_instances_query w).
Proof. by intros o. Qed.

(** After a pass on row [j] the other objects of the pool are still found
    by the query. *)
Lemma pool_in_filter (w w' : World) (pool : list BookInstance) (j : Z)
    (r' : BookInstance) :
  pool_in w pool ->
  instances w' = <[j := r']> (instances w) ->
  pool_in w' (filter (fun bi => instance_pk bi <> Some j) pool).
Proof.
  intros Hpool Hw' o [Hne Hin]%list_elem_of_filter.
  apply Hpool, elem_of_available_instances_query in Hin
    as (k & r & -> & Hr & Hav).
  apply elem_of_available_instances_query. exists k, r.
  split; [done|]. split; [|done].
  rewrite Hw', lookup_insert_ne; [done|]. simpl in Hne. congruence.
Qed.

(** ** The number of borrowings that the seed generator creates *)

(** On a consistent database the loop ends without exception, and the
    records created, less those returned at once, are as many as the
    available rows that have gone. *)
Lemma borrowing_loop_count (fuel : nat) (rng : nat -> Draw) (users : list Z)
    (count base : Z) (pool : list BookInstance) (n : Z) (w : World) :
  users <> [] ->
  wf_world w ->
  pool_in w pool ->
  0 <= n <= Z.max 0 count ->
  (Z.to_nat (count - n) <= fuel)%nat ->
  n + available_count w = base + returned_count rng (Z.to_nat n) ->
  exists w' e,
    borrowing_loop fuel rng users count (count * 10) pool n n w
    = (w', inr (Some e)) /\
    0 <= created e <= Z.max 0 count /\
    created e + available_count w'
    = base + returned_count rng (Z.to_nat (created e)).
Proof.
  intros Hus. revert pool n w.
  induction fuel as [|fuel IH]; intros pool n w Hwf Hpool Hn Hfuel Heq; simpl;
    destruct ((n <? count) && (n <? count * 10)) eqn:Hc.
  - apply andb_true_iff in Hc as [Hc _]. apply Z.ltb_lt in Hc. lia.
  - by eexists _, _.
  - apply andb_true_iff in Hc as [Hc _]. apply Z.ltb_lt in Hc.
    set (d := rng (Z.to_nat (n + 1))).
    assert (exists pool1,
               match pool with
               | [] => gets available_instances_query
               | _ :: _ => ret pool
               end w = (w, inr pool1) /\ pool_in w pool1)
      as (pool1 & Hrefresh & Hpool1).
    { destruct pool; eexists; (split; [done|]); [apply pool_in_query|done]. }
    unfold bind at 1. rewrite Hrefresh.
    destruct pool1 as [|o pool1]; [by eexists _, _|].
    destruct (choice_Some (pick_instance d) (o :: pool1) w) as (inst & Hch & Hin);
      [done|].
    unfold bind at 1. rewrite Hch.
    destruct (choice_Some (pick_user d) users w) as (borrower & Hch' & _);
      [done|].
    unfold bind at 1. rewrite Hch'.
    apply Hpool1, elem_of_available_instances_query in Hin
      as (j & r & -> & Hr & Hav).
    rewrite <- bind_assoc.
    destruct (loop_pass j borrower (borrow_dt d)
                ((borrow_dt d + due_days d * 86400) / 86400) (clock d)
                (returned d) r w Hwf Hr Hav) as (w2 & b2 & Hpass & Hwf2 & Hw2).
    unfold bind at 1. rewrite Hpass.
    destruct (IH (filter (fun bi => instance_pk bi <> Some j) (o :: pool1))
                (n + 1) w2) as (w' & e & Hloop & Hce & Hcount).
    + done.
    + by eapply pool_in_filter.
    + lia.
    + lia.
    + pose proof (available_count_insert w w2 j r _ Hr Hw2) as Hac.
      rewrite Hav in Hac. simpl in Hac.
      replace (Z.to_nat (n + 1)) with (S (Z.to_nat n)) by lia.
      rewrite returned_count_S.
      replace (S (Z.to_nat n)) with (Z.to_nat (n + 1)) by lia. fold d.
      destruct (returned d); lia.
    + exists w', e. split; [|done]. exact Hloop.
  - by eexists _, _.
Qed.





(** ** The properties on sample databases *)

Example format_0d_book : format_0d 3 7 = "007"%string.
Proof. reflexivity. Qed.

Example format_0d_wide : format_0d 3 12345 = "12345"%string.
Proof. reflexivity. Qed.

Example last_segment_inventory : last_segment "LIB-001-2025" = "2025"%string.
Proof. reflexivity. Qed.

Example py_int_padded : py_int "0012" = Some 12.
Proof. reflexivity. Qed.

Example py_int_invalid : py_int "12a" = None.
Proof. reflexivity. Qed.

Example two_available_inventory :
  inventory_number <$> instances two_available !! 2 = Some "001-0002"%string.
Proof. vm_compute. reflexivity. Qed.

Example one_borrowed_copies :
  available_copies <$> books one_borrowed !! 1 = Some 1.
Proof. vm_compute. reflexivity. Qed.

Example seed_without_returns :
  (create_borrowings 5 draw_keep 5 two_available).2
  = inr (Some (CreatedRecords 2)).
Proof. vm_compute. reflexivity. Qed.

Example seed_with_returns :
  (create_borrowings 5 draw_return 5 two_available).2
  = inr (Some (CreatedRecords 5)).
Proof. vm_compute. reflexivity. Qed.

Lemma reachable_two_available : reachable [1] two_available.
Proof.
  apply reachable_run_ops; [constructor|].
  repeat constructor; simpl; lia.
Defined.

Lemma reachable_one_borrowed : reachable [1] one_borrowed.
Proof.
  apply reachable_run_ops; [apply reachable_two_available|].
  repeat constructor.
Defined.

Lemma Borrowing_save_unavailable_witness :
  not_pk None = true /\
  (related_book_instance (mkBorrowing None 1 None 1 0 14 None false 0)
     one_borrowed).2
  = inr (mkBookInstance (Some 1) 1 None "001-0001" good false) /\
  Borrowing_save (mkBorrowing None 1 None 1 0 14 None false 0) one_borrowed
  = (one_borrowed, inl InstanceUnavailable).
Proof.
  split; [reflexivity|]. split; [vm_compute; reflexivity|].
  apply (Borrowing_save_unavailable one_borrowed
           (mkBorrowing None 1 None 1 0 14 None false 0)
           (mkBookInstance (Some 1) 1 None "001-0001" good false)).
  - reflexivity.
  - vm_compute. reflexivity.
  - reflexivity.
Defined.



Lemma mark_as_returned_twice_witness :
  reachable [1] one_borrowed /\
  borrowings one_borrowed !! 1
  = Some (mkBorrowing (Some 1) 1 None 1 0 14 None false 0) /\
  run_op (MarkReturned 1 200) (run_op (MarkReturned 1 100) one_borrowed).1
  = ((run_op (MarkReturned 1 100) one_borrowed).1, inr tt).
Proof.
  split; [apply reachable_one_borrowed|].
  split; [vm_compute; reflexivity|].
  apply (mark_as_returned_twice [1] one_borrowed 1 100 200
           (mkBorrowing (Some 1) 1 None 1 0 14 None false 0)).
  - apply reachable_one_borrowed.
  - vm_compute. reflexivity.
Defined.




Lemma create_borrowings_terminates_witness :
  (Z.to_nat 5 <= 5)%nat /\
  (create_borrowings 5 draw_return 5 two_available).2 <> inr None.
Proof.
  split; [vm_compute; lia|].
  apply (create_borrowings_terminates 5 draw_return 5 two_available).
  vm_compute. lia.
Defined.

Lemma Borrowing_save_existing_frame_witness :
  pk (mkBorrowing (Some 1) 1 None 1 0 21 None false 0) = Some 1 /\
  1 <> 0 /\
  books (Borrowing_save (mkBorrowing (Some 1) 1 None 1 0 21 None false 0)
           one_borrowed).1
  = books one_borrowed /\
  instances (Borrowing_save (mkBorrowing (Some 1) 1 None 1 0 21 None false 0)
               one_borrowed).1
  = instances one_borrowed.
Proof.
  split; [reflexivity|]. split; [lia|].
  destruct (Borrowing_save_existing_frame
              (mkBorrowing (Some 1) 1 None 1 0 21 None false 0) 1 one_borrowed)
    as (_ & Hb & Hi & _); [reflexivity|lia|].
  by split.
Defined.

(** * Further properties of models.py *)

(** ** What one operation writes *)

(** On a consistent database an operation writes at most one row of each
    table: a book under its key; a copy, either an existing one with a new
    flag or a new available one under the next key; a borrowing. *)
Lemma run_op_effect (op : Op) (w : World) :
  wf_world w ->
  (books (run_op op w).1 = books w \/
   exists k t a,
     books (run_op op w).1 = <[k := mkBook (Some k) t a]> (books w)) /\
  (instances (run_op op w).1 = instances w \/
   (exists i r v,
       instances w !! i = Some r /\
       instances (run_op op w).1
       = <[i := mkBookInstance (Some i) (book_id r) None (inventory_number r)
                  (condition r) v]> (instances w)) \/
   (exists k c n,
       instances w !! next_instance_id w = None /\
       instances (run_op op w).1
       = <[next_instance_id w :=
             mkBookInstance (Some (next_instance_id w)) k None
               (inventory_format k n) c true]> (instances w))) /\
  (borrowings (run_op op w).1 = borrowings w \/
   exists k b,
     borrowings (run_op op w).1 = <[k := b]> (borrowings w) /\
     pk b = Some k /\ book_instance b = None).
Proof.
  intros Hwf.
  destruct op as [t a|k0 t a|k0 c|i u d e|k0 now].
  - rewrite run_NewBook. cbn [fst]. rewrite clamped_mk.
    split; [right; by eexists _, _, _|]. split; by left.
  - destruct (books w !! k0) as [r|] eqn:E.
    2: { rewrite run_SetCopyCounts_missing by done. repeat split; by left. }
    rewrite (run_SetCopyCounts _ _ _ r) by done. cbn [fst]. rewrite clamped_mk.
    split; [right; by eexists _, _, _|]. split; by left.
  - destruct (books w !! k0) as [r|] eqn:E.
    2: { rewrite run_NewInstance_missing by done. repeat split; by left. }
    destruct (next_number_wf k0 w Hwf) as (num & Hnum & _).
    rewrite (run_NewInstance _ num _ r) by done. cbn [fst].
    split; [by left|]. split; [|by left]. right. right.
    exists k0, c, num. split; [|done].
    destruct (instances w !! next_instance_id w) as [r0|] eqn:E0; [|done].
    apply (wf_instance_key w Hwf) in E0. lia.
  - destruct (instances w !! i) as [r|] eqn:Er.
    2: { rewrite run_CreateBorrowing_missing by done. repeat split; by left. }
    destruct (is_available r) eqn:Eav.
    2: { rewrite (run_CreateBorrowing_unavailable _ _ _ _ r) by done.
         repeat split; by left. }
    destruct (wf_instance_book w Hwf i r Er) as [bk Ebk].
    rewrite (run_CreateBorrowing _ _ _ _ r bk);
      [|done..|by eapply wf_inventory_nonempty|done].
    cbn [fst]. rewrite clamped_mk.
    split; [right; by eexists _, _, _|].
    split; [right; left; by exists i, r, false|].
    right. by eexists _, _.
  - destruct (borrowings w !! k0) as [rb|] eqn:Eb.
    2: { rewrite run_MarkReturned_missing by done. repeat split; by left. }
    destruct (is_returned rb) eqn:Eret.
    { rewrite (run_MarkReturned_done _ _ rb) by done. repeat split; by left. }
    destruct (wf_borrowing_instance w Hwf k0 rb Eb) as [ri Eri].
    destruct (wf_instance_book w Hwf _ ri Eri) as [bk Ebk].
    pose proof (wf_borrowing_key w Hwf k0 rb Eb) as Hk.
    rewrite (run_MarkReturned _ _ rb ri bk);
      [|done|done|lia|done|by eapply wf_inventory_nonempty|done].
    cbn [fst]. rewrite clamped_mk.
    split; [right; by eexists _, _, _|].
    split; [right; left; by exists (book_instance_id rb), ri, true|].
    right. by eexists _, _.
Qed.




(** ** Borrowing and returning *)






(** ** What the operations never do *)

(** X6. In every state that the operations produce from the empty database,
    no operation deletes a row, and none changes the inventory number, the
    book or the condition of a stored copy. *)
Theorem rows_persist (us : list Z) (w : World) (op : Op) :
  reachable us w ->
  (forall k, is_Some (books w !! k) -> is_Some (books (run_op op w).1 !! k)) /\
  (forall k, is_Some (borrowings w !! k) ->
             is_Some (borrowings (run_op op w).1 !! k)) /\
  (forall i r, instances w !! i = Some r ->
     exists r', instances (run_op op w).1 !! i = Some r' /\
                inventory_number r' = inventory_number r /\
                book_id r' = book_id r /\ condition r' = condition r).
Proof.
  intros Hwf%reachable_wf.
  destruct (run_op_effect op w Hwf) as (Eb & Ei & Ebo).
  split; [|split].
  - intros k Hk. destruct Eb as [->|(k' & t & a & ->)]; [done|].
    rewrite lookup_insert. by case_decide.
  - intros k Hk. destruct Ebo as [->|(k' & b & -> & _)]; [done|].
    rewrite lookup_insert. by case_decide.
  - intros i r Hr.
    destruct Ei as [->|[(j & rj & v & Hj & ->)|(k & c & n & Hnew & ->)]].
    + by exists r.
    + destruct (decide (j = i)) as [->|Hne].
      * rewrite lookup_insert_eq. eexists. split; [done|]. simpl.
        by assert (rj = r) as -> by congruence.
      * rewrite lookup_insert_ne by done. by exists r.
    + rewrite lookup_insert_ne; [by exists r|]. congruence.
Qed.

(** X7. [BookInstance.save] reads back from an inventory number that it
    generated the sequence number it was generated with: what follows the
    last hyphen of [f"{b:03d}-{n:04d}"] parses as [n], for every book id [b]
    and every [n >= 0], also beyond four digits. *)
Theorem inventory_number_read_back (b n : Z) :
  0 <= n ->
  py_int (last_segment (inventory_format b n)) = Some n.
Proof. apply inventory_format_seq. Qed.

(** X8. The inventory numbers that [BookInstance.save] generates determine
    the book id and the sequence number: two of them are equal only for the
    same book and the same number, also when an id or a number has more
    digits than the padding. *)
Theorem inventory_format_injective (b b' n n' : Z) :
  0 <= b -> 0 <= b' -> 0 <= n -> 0 <= n' ->
  inventory_format b n = inventory_format b' n' ->
  b = b' /\ n = n'.
Proof. apply inventory_format_inj. Qed.


(** X10. [BookInstance.save] writes the table of book instances only: the
    tables of books and of borrowings are as before whatever the outcome, so
    adding a copy does not raise the counts of its book; and when it raises
    nothing at all was written. *)
Theorem BookInstance_save_frame (self : BookInstance) (w : World) :
  books (BookInstance_save self w).1 = books w /\
  borrowings (BookInstance_save self w).1 = borrowings w /\
  (forall e, (BookInstance_save self w).2 = inl e ->
             (BookInstance_save self w).1 = w).
Proof.
  set (Q := fun res : World * (exn + BookInstance) =>
              books res.1 = books w /\ borrowings res.1 = borrowings w /\
              forall e, res.2 = inl e -> res.1 = w).
  change (Q (BookInstance_save self w)).
  assert (forall o : BookInstance, Q (Model_save_BookInstance o w)) as Hsave.
  { intros o. unfold Model_save_BookInstance.
    by destruct (instance_pk o). }
  unfold BookInstance_save. destruct (String.eqb _ _); [|apply Hsave].
  unfold bind at 1. pose proof (related_book_fst self w) as Hfst.
  destruct (related_book self w) as [w1 [e|bk]]; simpl in Hfst; subst w1;
    [done|].
  unfold bind at 1. destruct (book_pk bk) as [b|]; [|done]. simpl.
  unfold bind at 1. simpl. unfold bind at 1.
  destruct (last_by_id _) as [kv|]; [|apply Hsave].
  unfold bind at 1. destruct (py_int _) as [n|]; [|done]. simpl.
  apply Hsave.
Qed.

(** ** Counting the copies of a book *)

Lemma filter_length_insert {A} (P : Z * A -> Prop) `{!forall x, Decision (P x)}
    (m : gmap Z A) (i : Z) (y x : A) :
  m !! i = Some y ->
  (length (filter P (map_to_list (<[i := x]> m)))
   + (if decide (P (i, y)) then 1 else 0)
   = length (filter P (map_to_list m))
     + (if decide (P (i, x)) then 1 else 0))%nat.
Proof.
  intros Hy.
  rewrite <- (insert_delete_eq m i x).
  rewrite <- (insert_delete_id m i y Hy) at 2.
  rewrite !map_to_list_insert by apply lookup_delete_eq.
  rewrite !filter_cons. repeat case_decide; simpl; lia.
Qed.

Lemma filter_length_insert_new {A} (P : Z * A -> Prop)
    `{!forall x, Decision (P x)} (m : gmap Z A) (i : Z) (x : A) :
  m !! i = None ->
  length (filter P (map_to_list (<[i := x]> m)))
  = ((if decide (P (i, x)) then 1 else 0)
     + length (filter P (map_to_list m)))%nat.
Proof.
  intros Hi. rewrite map_to_list_insert by done.
  rewrite filter_cons. by case_decide.
Qed.

Lemma available_of_eq (b : Z) (w : World) :
  available_of b w
  = Z.of_nat
      (length (filter (fun kv : Z * BookInstance =>
                         is_available kv.2 = true /\ book_id kv.2 = b)
                 (map_to_list (instances w)))).
Proof.
  unfold available_of, instances_of_book. by rewrite list_filter_filter.
Qed.

(** Changing the flag of copy [i] of book [book_id r]. *)
Lemma copies_of_flag (w w' : World) (i b : Z) (r : BookInstance) (v : bool) :
  instances w !! i = Some r ->
  instances w'
  = <[i := mkBookInstance (Some i) (book_id r) None (inventory_number r)
             (condition r) v]> (instances w) ->
  copies_of b w' = copies_of b w.
Proof.
  intros Hr Hw'. unfold copies_of, instances_of_book. rewrite Hw'.
  pose proof (filter_length_insert
                (fun kv : Z * BookInstance => book_id kv.2 = b)
                (instances w) i r
                (mkBookInstance (Some i) (book_id r) None (inventory_number r)
                   (condition r) v) Hr) as H.
  simpl in H. repeat case_decide; try done; lia.
Qed.

Lemma available_of_flag (w w' : World) (i b : Z) (r : BookInstance)
    (v : bool) :
  instances w !! i = Some r ->
  instances w'
  = <[i := mkBookInstance (Some i) (book_id r) None (inventory_number r)
             (condition r) v]> (instances w) ->
  available_of b w'
  + (if decide (book_id r = b) then if is_available r then 1 else 0 else 0)
  = available_of b w
    + (if decide (book_id r = b) then if v then 1 else 0 else 0).
Proof.
  intros Hr Hw'. rewrite !available_of_eq, Hw'.
  pose proof (filter_length_insert
                (fun kv : Z * BookInstance =>
                   is_available kv.2 = true /\ book_id kv.2 = b)
                (instances w) i r
                (mkBookInstance (Some i) (book_id r) None (inventory_number r)
                   (condition r) v) Hr) as H.
  simpl in H.
  destruct (is_available r), v; repeat case_decide; try lia; naive_solver.
Qed.

(** A book with a copy that is not available has fewer available copies
    than copies. *)
Lemma available_of_lt (w : World) (i : Z) (r : BookInstance) :
  instances w !! i = Some r ->
  is_available r = false ->
  available_of (book_id r) w < copies_of (book_id r) w.
Proof.
  intros Hr Hav. unfold available_of, copies_of.
  apply inj_lt. apply (length_filter_lt _ _ (i, r)).
  - by apply elem_of_instances_of_book.
  - simpl. congruence.
Qed.

(** ** Borrowing and returning keep the counts in step *)

Lemma synced_CreateBorrowing (k borrower borrow_dt due : Z) (w : World) :
  wf_world w -> synced w ->
  synced (run_op (CreateBorrowing k borrower borrow_dt due) w).1.
Proof.
  intros Hwf Hs. destruct (instances w !! k) as [r|] eqn:Er.
  2: { by rewrite run_CreateBorrowing_missing. }
  destruct (is_available r) eqn:Eav.
  2: { by rewrite (run_CreateBorrowing_unavailable _ _ _ _ r). }
  destruct (wf_instance_book w Hwf k r Er) as [bk Ebk].
  pose proof (wf_inventory_nonempty w k r Hwf Er) as Hne.
  pose proof (wf_book_count w Hwf _ bk Ebk) as Hcount.
  rewrite (run_CreateBorrowing k borrower borrow_dt due r bk w) by done.
  cbn [fst]. rewrite clamped_mk.
  set (w' := bump_borrowing_id _).
  assert (instances w'
          = <[k := mkBookInstance (Some k) (book_id r) None
                     (inventory_number r) (condition r) false]> (instances w))
    as Hi by done.
  intros j b Hb.
  rewrite (copies_of_flag w w' k j r false Er Hi).
  pose proof (available_of_flag w w' k j r false Er Hi) as Hav.
  rewrite Eav in Hav. simpl in Hb.
  apply lookup_insert_Some in Hb as [[<- <-]|[Hne' Hb]].
  - destruct (Hs _ bk Ebk) as [Ht Ha]. simpl.
    split; [done|]. revert Hav. repeat case_decide; try done.
    cbv iota. lia.
  - destruct (Hs _ b Hb) as [Ht Ha].
    split; [done|]. revert Hav. repeat case_decide; try done.
    cbv iota. lia.
Qed.

Lemma synced_MarkReturned (k now : Z) (w : World) :
  wf_world w -> synced w -> synced (run_op (MarkReturned k now) w).1.
Proof.
  intros Hwf Hs. destruct (borrowings w !! k) as [rb|] eqn:Eb.
  2: { by rewrite run_MarkReturned_missing. }
  destruct (is_returned rb) eqn:Eret.
  { by rewrite (run_MarkReturned_done _ _ rb). }
  destruct (wf_borrowing_instance w Hwf k rb Eb) as [ri Eri].
  destruct (wf_instance_book w Hwf _ ri Eri) as [bk Ebk].
  pose proof (wf_inventory_nonempty w _ ri Hwf Eri) as Hne.
  pose proof (wf_borrowing_key w Hwf k rb Eb) as Hk.
  assert (is_available ri = false) as Eav.
  { apply (wf_flag w Hwf _ ri Eri). exists k. by exists rb. }
  pose proof (available_of_lt w _ ri Eri Eav) as Hlt.
  rewrite (run_MarkReturned k now rb ri bk w) by (done || lia).
  cbn [fst]. rewrite clamped_mk.
  set (w' := with_borrowings _ _).
  assert (instances w'
          = <[book_instance_id rb :=
                mkBookInstance (Some (book_instance_id rb)) (book_id ri) None
                  (inventory_number ri) (condition ri) true]> (instances w))
    as Hi by done.
  intros j b Hb.
  rewrite (copies_of_flag w w' _ j ri true Eri Hi).
  pose proof (available_of_flag w w' _ j ri true Eri Hi) as Hav.
  rewrite Eav in Hav. simpl in Hb.
  apply lookup_insert_Some in Hb as [[<- <-]|[Hne' Hb]].
  - destruct (Hs _ bk Ebk) as [Ht Ha]. simpl.
    split; [done|]. revert Hav. repeat case_decide; try done.
    cbv iota. lia.
  - destruct (Hs _ b Hb) as [Ht Ha].
    split; [done|]. revert Hav. repeat case_decide; try done.
    cbv iota. lia.
Qed.

Lemma synced_borrow_op (op : Op) (w : World) :
  wf_world w -> synced w -> borrow_op op -> synced (run_op op w).1.
Proof.
  intros Hwf Hs Hop. destruct op; try done.
  - by apply synced_CreateBorrowing.
  - by apply synced_MarkReturned.
Qed.

Lemma borrow_op_valid (op : Op) : borrow_op op -> op_valid op.
Proof. by destruct op. Qed.

Lemma synced_run_ops (ops : list Op) (w : World) :
  wf_world w -> synced w -> Forall borrow_op ops ->
  wf_world (run_ops ops w) /\ synced (run_ops ops w).
Proof.
  revert w. induction ops as [|op ops IH]; intros w Hwf Hs Hops; [done|].
  apply Forall_cons in Hops as [Hop Hops]. simpl. apply IH; [| |done].
  - apply wf_step; [done|by apply borrow_op_valid].
  - by apply synced_borrow_op.
Qed.

(** X11. Where every book counts its copies ([total_copies] is the number
    of its stored copies and [available_copies] the number of those with
    [is_available] true), creating a borrowing and marking one as returned
    keep it so, in every state that the operations produce from the empty
    database; and then [0 <= available_copies <= total_copies] holds after
    the call. *)
Theorem borrowing_keeps_counts (us : list Z) (w : World) (op : Op) :
  reachable us w ->
  synced w ->
  borrow_op op ->
  synced (run_op op w).1 /\
  forall k b, books (run_op op w).1 !! k = Some b ->
              0 <= available_copies b <= total_copies b.
Proof.
  intros Hwf%reachable_wf Hs Hop.
  pose proof (synced_borrow_op op w Hwf Hs Hop) as Hs'.
  split; [done|]. intros k b Hb.
  pose proof (wf_step op w Hwf (borrow_op_valid op Hop)) as Hwf'.
  pose proof (wf_book_count _ Hwf' k b Hb).
  destruct (Hs' k b Hb) as [_ Ha]. rewrite Ha at 1.
  unfold available_of. lia.
Qed.

(** * Further properties of the seed generator *)

(** ** The loop as a sequence of operations *)

(** One pass of the loop on an available row is the operation
    [CreateBorrowing], followed by [MarkReturned] on the new borrowing when
    the draw says so. *)
Lemma loop_pass_ops (j borrower borrow_dt due now : Z) (ret_now : bool)
    (r : BookInstance) (w : World) :
  wf_world w ->
  instances w !! j = Some r ->
  is_available r = true ->
  exists b2,
    (do borrowing <- Borrowing_objects_create (load_BookInstance (j, r))
                       borrower borrow_dt due;
     if ret_now then mark_as_returned now borrowing else ret borrowing) w
    = (run_ops
         (CreateBorrowing j borrower borrow_dt due
          :: if ret_now then [MarkReturned (next_borrowing_id w) now] else [])
         w,
       inr b2).
Proof.
  intros Hwf Hr Hav.
  destruct (wf_instance_book w Hwf j r Hr) as [bk Hbk].
  pose proof (wf_inventory_nonempty w j r Hwf Hr) as Hinv.
  pose proof (run_CreateBorrowing j borrower borrow_dt due r bk w Hr Hav Hinv
                Hbk) as Hw1.
  cbv zeta in Hw1. apply (f_equal fst) in Hw1. cbn [fst] in Hw1.
  rewrite clamped_mk in Hw1.
  unfold bind.
  rewrite (Borrowing_objects_create_loaded _ _ _ _ r bk) by done.
  set (w1 := (run_op (CreateBorrowing j borrower borrow_dt due) w).1) in *.
  destruct ret_now; [|by eexists].
  set (ri := mkBookInstance (Some j) (book_id r) None (inventory_number r)
               (condition r) false).
  set (bk' := mkBook (Some (book_id r)) (total_copies bk)
                (Z.min (available_copies bk - 1) (total_copies bk))).
  destruct (mark_as_returned_created j (next_borrowing_id w) borrower
              borrow_dt due now ri bk' w1) as [Hfst [self' Hsnd]].
  - pose proof (wf_counters w Hwf). lia.
  - rewrite Hw1. simpl. apply lookup_insert_eq.
  - rewrite Hw1. simpl. apply lookup_insert_eq.
  - done.
  - rewrite Hw1. simpl. apply lookup_insert_eq.
  - done.
  - simpl in Hfst, Hsnd. exists self'. by apply run_eq.
Qed.

Lemma run_ops_app (ops ops' : list Op) (w : World) :
  run_ops (ops ++ ops') w = run_ops ops' (run_ops ops w).
Proof. apply foldl_app. Qed.

Lemma wf_run_ops (ops : list Op) (w : World) :
  wf_world w -> Forall op_valid ops -> wf_world (run_ops ops w).
Proof.
  revert w. induction ops as [|op ops IH]; intros w Hwf Hops; [done|].
  apply Forall_cons in Hops as [Hop Hops]. simpl.
  apply IH; [by apply wf_step|done].
Qed.

(** The candidates after one pass on row [j]. *)
Lemma pool_in_pass (w : World) (pool : list BookInstance) (j : Z)
    (r : BookInstance) (ops : list Op) :
  wf_world w ->
  pool_in w pool ->
  instances w !! j = Some r ->
  (exists v, instances (run_ops ops w)
             = <[j := mkBookInstance (Some j) (book_id r) None
                        (inventory_number r) (condition r) v]> (instances w)) ->
  pool_in (run_ops ops w) (filter (fun bi => instance_pk bi <> Some j) pool).
Proof.
  intros Hwf Hpool Hr [v Hw']. by eapply pool_in_filter.
Qed.

(** On a consistent database the loop raises no exception, and the
    database it leaves is the one that a sequence of operations
    [CreateBorrowing] and [MarkReturned] produces. *)
Lemma borrowing_loop_ops (fuel : nat) (rng : nat -> Draw) (users : list Z)
    (count max_tries : Z) (pool : list BookInstance) (created tries : Z)
    (w : World) :
  users <> [] ->
  wf_world w ->
  pool_in w pool ->
  exists ops r,
    borrowing_loop fuel rng users count max_tries pool created tries w
    = (run_ops ops w, inr r) /\
    Forall borrow_op ops.
Proof.
  intros Hus. revert pool created tries w.
  induction fuel as [|fuel IH]; intros pool created tries w Hwf Hpool; simpl;
    destruct ((created <? count) && (tries <? max_tries)) eqn:Hc;
    try (eexists [], _; split; [reflexivity|constructor]).
  set (d := rng (Z.to_nat (tries + 1))).
  assert (exists pool1,
             match pool with
             | [] => gets available_instances_query
             | _ :: _ => ret pool
             end w = (w, inr pool1) /\ pool_in w pool1)
    as (pool1 & Hrefresh & Hpool1).
  { destruct pool; eexists; (split; [done|]); [apply pool_in_query|done]. }
  unfold bind at 1. rewrite Hrefresh.
  destruct pool1 as [|o pool1];
    [eexists [], _; split; [reflexivity|constructor]|].
  destruct (choice_Some (pick_instance d) (o :: pool1) w) as (inst & Hch & Hin);
    [done|].
  unfold bind at 1. rewrite Hch.
  destruct (choice_Some (pick_user d) users w) as (borrower & Hch' & _);
    [done|].
  unfold bind at 1. rewrite Hch'.
  apply Hpool1, elem_of_available_instances_query in Hin
    as (j & r & -> & Hr & Hav).
  rewrite <- bind_assoc.
  destruct (loop_pass_ops j borrower (borrow_dt d)
              ((borrow_dt d + due_days d * 86400) / 86400) (clock d)
              (returned d) r w Hwf Hr Hav) as (b2 & Hpass).
  destruct (loop_pass j borrower (borrow_dt d)
              ((borrow_dt d + due_days d * 86400) / 86400) (clock d)
              (returned d) r w Hwf Hr Hav) as (w2 & b2' & Hpass' & Hwf2 & Hw2).
  rewrite Hpass in Hpass'. injection Hpass' as <- <-.
  set (ops1 := CreateBorrowing j borrower (borrow_dt d)
                 ((borrow_dt d + due_days d * 86400) / 86400)
               :: (if returned d
                   then [MarkReturned (next_borrowing_id w) (clock d)]
                   else [])) in *.
  unfold bind at 1. rewrite Hpass.
  destruct (IH (filter (fun bi => instance_pk bi <> Some j) (o :: pool1))
              (created + 1) (tries + 1) (run_ops ops1 w))
    as (ops & res & Hloop & Hops).
  - done.
  - by eapply pool_in_filter.
  - exists (ops1 ++ ops), res. split.
    + rewrite run_ops_app. exact Hloop.
    + apply Forall_app. split; [|done].
      subst ops1. destruct (returned d); repeat constructor.
Qed.

Lemma create_borrowings_ops (fuel : nat) (rng : nat -> Draw) (count : Z)
    (w : World) :
  wf_world w ->
  exists ops r,
    create_borrowings fuel rng count w = (run_ops ops w, inr r) /\
    Forall borrow_op ops.
Proof.
  intros Hwf. unfold create_borrowings, bind, gets. simpl.
  destruct (users w) as [|u us] eqn:Eus.
  { eexists [], _. split; [reflexivity|constructor]. }
  destruct (available_instances_query w) as [|o pool] eqn:Eq.
  { eexists [], _. split; [reflexivity|constructor]. }
  destruct (borrowing_loop_ops fuel rng (u :: us) count (count * 10)
              (o :: pool) 0 0 w) as (ops & r & Hloop & Hops); [done|done| |].
  { rewrite <- Eq. apply pool_in_query. }
  rewrite Hloop. by eexists ops, _.
Qed.


(** X13. When there is nothing to do [create_borrowings] leaves the
    database as it is: without users it reports that no users were found;
    with users but without an available instance it reports that no
    instances were found; and with both but a count that is not positive it
    reports zero created records. *)
Theorem create_borrowings_nothing_to_do (fuel : nat) (rng : nat -> Draw)
    (count : Z) (w : World) :
  (users w = [] ->
   create_borrowings fuel rng count w = (w, inr (Some NoUsersFound))) /\
  (users w <> [] -> available_instances_query w = [] ->
   create_borrowings fuel rng count w = (w, inr (Some NoInstancesFound))) /\
  (users w <> [] -> available_instances_query w <> [] -> count <= 0 ->
   create_borrowings fuel rng count w = (w, inr (Some (CreatedRecords 0)))).
Proof.
  unfold create_borrowings, bind, gets. simpl.
  split; [by intros ->|]. split.
  - intros Hus ->. by destruct (users w).
  - intros Hus Hq Hc. destruct (users w); [done|].
    destruct (available_instances_query w); [done|].
    assert ((0 <? count) && (0 <? count * 10) = false) as Hcond.
    { apply andb_false_iff. left. apply Z.ltb_ge. lia. }
    destruct fuel; simpl; by rewrite Hcond.
Qed.

(** The number of records that [create_borrowings] creates. *)
Lemma create_borrowings_created (us : list Z) (w : World) (fuel : nat)
    (rng : nat -> Draw) (count : Z) :
  reachable us w ->
  users w <> [] ->
  0 < available_count w ->
  (Z.to_nat count <= fuel)%nat ->
  exists n w',
    create_borrowings fuel rng count w = (w', inr (Some (CreatedRecords n))) /\
    (n = Z.max 0 count \/
     (n < count /\ available_instances_query w' = [] /\
      n = available_count w + returned_count rng (Z.to_nat n))) /\
    Z.min (Z.max 0 count) (available_count w) <= n.
Proof.
  intros Hwf%reachable_wf Hus Hav Hfuel.
  unfold create_borrowings, bind, gets. simpl.
  destruct (users w) as [|u us'] eqn:Eus; [done|].
  destruct (available_instances_query w) as [|o pool] eqn:Eq.
  { unfold available_count in Hav. rewrite Eq in Hav. simpl in Hav. lia. }
  destruct (borrowing_loop_count fuel rng (u :: us') count (available_count w)
              (o :: pool) 0 w) as (w' & e & Hloop & Hce & Hcount);
    [done|done|by rewrite <- Eq; apply pool_in_query|lia|lia| |].
  { unfold returned_count. simpl. lia. }
  pose proof (borrowing_loop_ends fuel rng (u :: us') count (o :: pool) 0
                ltac:(lia) ltac:(lia) w I) as Hend.
  rewrite Hloop in Hend. destruct Hend as (e' & [= <-] & Hle & Hexit).
  rewrite Hloop. simpl. exists (created e), w'. split; [done|].
  assert (0 <= returned_count rng (Z.to_nat (created e))) as HR.
  { unfold returned_count. lia. }
  destruct (exit e).
  - destruct Hexit as [-> _]. split; [by left|]. lia.
  - destruct Hexit as (Hlt & _ & Hempty).
    unfold available_count in Hcount at 1. rewrite Hempty in Hcount.
    simpl in Hcount. split; [right; split; [done|split; [done|lia]]|]. lia.
Qed.


(** ** The records that the seed generator reports *)




(** * Properties of the rest of the seed command *)

(** ** Rules for seed code *)

Lemma cmd_ok_ret {A} (P : Site -> Prop) (a : A) (Q : A -> Site -> Prop) :
  (forall s, P s -> Q a s) -> cmd_ok P (cret a) Q.
Proof. intros H s Hs. exists s, a. split; [done|]. by apply H. Qed.

Lemma cmd_ok_bind {A B} (P : Site -> Prop) (m : Cmd A) (k : A -> Cmd B)
    (Q : A -> Site -> Prop) (R : B -> Site -> Prop) :
  cmd_ok P m Q -> (forall a, cmd_ok (Q a) (k a) R) -> cmd_ok P (cbind m k) R.
Proof.
  intros Hm Hk s Hs. destruct (Hm s Hs) as (s1 & a & Hrun & Ha).
  destruct (Hk a s1 Ha) as (s2 & b & Hrun' & Hb).
  exists s2, b. split; [|done]. unfold cbind. by rewrite Hrun.
Qed.

Lemma cmd_ok_conseq {A} (P P' : Site -> Prop) (m : Cmd A)
    (Q Q' : A -> Site -> Prop) :
  cmd_ok P' m Q' ->
  (forall s, P s -> P' s) ->
  (forall a s, Q' a s -> Q a s) ->
  cmd_ok P m Q.
Proof.
  intros Hm HP HQ s Hs. destruct (Hm s (HP s Hs)) as (s' & a & Hrun & Ha).
  exists s', a. split; [done|]. by apply HQ.
Qed.

Lemma cmd_ok_gets {A} (P : Site -> Prop) (f : Site -> A) :
  cmd_ok P (cgets f) (fun a s => P s /\ a = f s).
Proof. intros s Hs. by exists s, (f s). Qed.

Lemma cmd_ok_modify (P : Site -> Prop) (f : Site -> Site)
    (Q : unit -> Site -> Prop) :
  (forall s, P s -> Q tt (f s)) -> cmd_ok P (cmodify f) Q.
Proof. intros H s Hs. exists (f s), tt. split; [done|]. by apply H. Qed.

(** A loop keeps what every pass keeps; [I done acc] speaks of the elements
    already visited. *)
Lemma cmd_ok_for_each {A B} (I : list A -> B -> Site -> Prop) (l : list A)
    (body : A -> B -> Cmd B) (acc : B) :
  (forall done x acc,
      (exists rest, l = done ++ x :: rest) ->
      cmd_ok (I done acc) (body x acc) (fun acc' => I (done ++ [x]) acc')) ->
  cmd_ok (I [] acc) (for_each l body acc) (fun acc' => I l acc').
Proof.
  intros Hbody.
  assert (forall rest done acc,
             l = done ++ rest ->
             cmd_ok (I done acc) (for_each rest body acc)
               (fun acc' => I l acc')) as H.
  { induction rest as [|x rest IH]; intros done acc0 Hl.
    - rewrite app_nil_r in Hl. subst done. by apply cmd_ok_ret.
    - simpl. eapply cmd_ok_bind.
      + apply Hbody. by exists rest.
      + intros acc'. apply IH. by rewrite <- app_assoc. }
  by apply (H l []).
Qed.

(** Catalogue code that does not raise, run on the catalogue of a site. *)
Lemma lift_inr {A} (m : M A) (s : Site) (w : World) (a : A) :
  m (db s) = (w, inr a) -> lift m s = (set_db w s, inr a).
Proof. intros H. unfold lift. by rewrite H. Qed.

(** ** Draws without replacement *)

Lemma select_submseteq {A} (n : nat) (draws : nat -> nat) (i : nat)
    (l : list A) :
  select n draws i l ⊆+ l.
Proof.
  revert i l. induction n as [|n IH]; intros i l; simpl.
  { apply submseteq_nil_l. }
  destruct (l !! _) as [x|] eqn:E; [|apply submseteq_nil_l].
  trans (x :: delete (draws i mod length l)%nat l).
  - apply submseteq_skip, IH.
  - apply Permutation_submseteq. symmetry. by apply delete_Permutation.
Qed.

Lemma select_length {A} (n : nat) (draws : nat -> nat) (i : nat)
    (l : list A) :
  (n <= length l)%nat -> length (select n draws i l) = n.
Proof.
  revert i l. induction n as [|n IH]; intros i l Hn; simpl; [done|].
  destruct (lookup_lt_is_Some_2 l (draws i mod length l)) as [x Hx].
  { apply Nat.mod_upper_bound. lia. }
  rewrite Hx. simpl. f_equal. apply IH.
  rewrite length_delete by by eexists. lia.
Qed.

Lemma shuffle_Permutation {A} (draws : nat -> nat) (l : list A) :
  shuffle draws l ≡ₚ l.
Proof.
  apply submseteq_length_Permutation; [apply select_submseteq|].
  unfold shuffle. by rewrite select_length.
Qed.

Lemma sample_ok {A} (draws : nat -> nat) (l : list A) (k : Z) (s : Site) :
  0 <= k <= Z.of_nat (length l) ->
  sample draws l k s = (s, inr (select (Z.to_nat k) draws 0 l)) /\
  Z.of_nat (length (select (Z.to_nat k) draws 0 l)) = k /\
  select (Z.to_nat k) draws 0 l ⊆+ l.
Proof.
  intros Hk. unfold sample.
  assert ((k <? 0) || (Z.of_nat (length l) <? k) = false) as ->.
  { apply orb_false_iff. split; apply Z.ltb_ge; lia. }
  split; [done|]. split; [|apply select_submseteq].
  rewrite select_length; lia.
Qed.

Lemma randint_range (lo hi : Z) (d : nat) :
  lo <= hi -> lo <= randint lo hi d <= hi.
Proof.
  intros H. unfold randint.
  pose proof (Z.mod_pos_bound (Z.of_nat d) (hi - lo + 1)). lia.
Qed.

(** ** Slices *)

Lemma slice_to_length {A} (l : list A) (count : Z) :
  Z.of_nat (length (slice_to l count))
  = (if 0 <=? count then Z.min count (Z.of_nat (length l))
     else Z.max 0 (Z.of_nat (length l) + count)).
Proof.
  unfold slice_to. destruct (0 <=? count) eqn:E; rewrite length_take.
  - apply Z.leb_le in E. lia.
  - apply Z.leb_gt in E. lia.
Qed.

Lemma slice_to_all {A} (l : list A) (count : Z) :
  Z.of_nat (length l) <= count -> slice_to l count = l.
Proof.
  intros H. unfold slice_to.
  assert ((0 <=? count) = true) as -> by (apply Z.leb_le; lia).
  apply take_ge. lia.
Qed.

Lemma slice_to_submseteq {A} (l : list A) (count : Z) : slice_to l count ⊆+ l.
Proof. unfold slice_to. destruct (0 <=? count); apply submseteq_take. Qed.

Lemma range_length (count : Z) : Z.of_nat (length (range count)) = Z.max 0 count.
Proof. unfold range. rewrite length_seq. lia. Qed.

(** ** create_authors and create_users *)

Lemma range_split (count : Z) (done rest : list nat) (x : nat) :
  range count = done ++ x :: rest -> x = length done.
Proof.
  intros H.
  assert (range count !! length done = Some x) as Hx.
  { rewrite H. by apply list_lookup_middle. }
  unfold range in Hx. apply lookup_seq in Hx. lia.
Qed.

(** The author that pass [i] of [create_authors] creates. *)
Lemma create_authors_run (draws : nat -> AuthorDraw) (count : Z) (s : Site) :
  (forall k a, authors s !! k = Some a -> k < next_author_id s) ->
  exists s',
    create_authors draws count s = (s', inr (Z.max 0 count)) /\
    db s' = db s /\ genres s' = genres s /\
    book_authors s' = book_authors s /\ book_genres s' = book_genres s /\
    next_genre_id s' = next_genre_id s /\ next_user_id s' = next_user_id s /\
    next_author_id s' = next_author_id s + Z.max 0 count /\
    Z.of_nat (size (authors s')) = Z.of_nat (size (authors s)) + Z.max 0 count /\
    (forall k a, authors s !! k = Some a -> authors s' !! k = Some a) /\
    (forall k, next_author_id s' <= k -> authors s' !! k = None) /\
    (forall i, (i < Z.to_nat count)%nat ->
       authors s' !! (next_author_id s + Z.of_nat i)
       = Some (mkAuthor (fake_first_name (draws i)) (fake_last_name (draws i))
                 (Some (fake_date_of_birth (draws i)))
                 (if still_alive (draws i) then None
                  else Some (fake_date_between (draws i)))
                 (fake_text (draws i)))).
Proof.
  intros Hfresh.
  set (made := fun i : nat =>
         mkAuthor (fake_first_name (draws i)) (fake_last_name (draws i))
           (Some (fake_date_of_birth (draws i)))
           (if still_alive (draws i) then None
            else Some (fake_date_between (draws i)))
           (fake_text (draws i))).
  set (I := fun (done : list nat) (acc : Z) (s' : Site) =>
         acc = Z.of_nat (length done) /\
         db s' = db s /\ genres s' = genres s /\
         book_authors s' = book_authors s /\ book_genres s' = book_genres s /\
         next_genre_id s' = next_genre_id s /\
         next_user_id s' = next_user_id s /\
         next_author_id s' = next_author_id s + Z.of_nat (length done) /\
         Z.of_nat (size (authors s'))
         = Z.of_nat (size (authors s)) + Z.of_nat (length done) /\
         (forall k a, authors s !! k = Some a -> authors s' !! k = Some a) /\
         (forall k, next_author_id s' <= k -> authors s' !! k = None) /\
         (forall i, (i < length done)%nat ->
            authors s' !! (next_author_id s + Z.of_nat i) = Some (made i))).
  destruct (cmd_ok_for_each I (range count)
              (fun i created =>
                 cmd _ <- Author_objects_create (made i) ; cret (created + 1))
              0) with (s := s)
    as (s' & n & Hrun & Hn & Hs').
  - intros done x acc Hsplit. destruct Hsplit as [rest Hsplit].
    apply range_split in Hsplit as ->.
    intros s0 (-> & Hdb & Hg & Hba & Hbg & Hng & Hnu & Hna & Hsize & Hold & Hnone
               & Hnew).
    eexists _, _. split; [reflexivity|]. unfold I. simpl.
    rewrite length_app. simpl.
    repeat split; try done; try lia.
    + rewrite map_size_insert_None by (apply Hnone; lia). lia.
    + intros k a Hk. rewrite lookup_insert_ne; [by apply Hold|].
      apply Hfresh in Hk. lia.
    + intros k Hk. rewrite lookup_insert_ne by lia. apply Hnone. lia.
    + intros i Hi. destruct (decide (i = length done)) as [->|Hne].
      * rewrite Hna. apply lookup_insert_eq.
      * rewrite lookup_insert_ne by lia. apply Hnew. lia.
  - unfold I. simpl. repeat split; try done; try lia.
    intros k Hk. destruct (authors s !! k) as [a|] eqn:E; [|done].
    apply Hfresh in E. lia.
  - exists s'. subst n.
    destruct Hs' as (Hdb & Hg & Hba & Hbg & Hng & Hnu & Hna & Hsize & Hold
                     & Hnone & Hnew).
    rewrite range_length in *.
    split; [exact Hrun|]. repeat split; try done.
    intros i Hi. apply Hnew.
    pose proof (range_length count). lia.
Qed.

(** X16. [create_authors] creates one author for each of [range(count)]:
    on a site whose author keys are below the counter it raises nothing,
    reports [max(0, count)], leaves every stored author and the rest of the
    site as they were, and adds exactly that many rows; the row of pass [i]
    holds the drawn names and has no date of death when the draw is below
    0.8. *)
Theorem create_authors_creates (draws : nat -> AuthorDraw) (count : Z)
    (s : Site) :
  (forall k a, authors s !! k = Some a -> k < next_author_id s) ->
  exists s',
    create_authors draws count s = (s', inr (Z.max 0 count)) /\
    db s' = db s /\ genres s' = genres s /\
    Z.of_nat (size (authors s')) = Z.of_nat (size (authors s)) + Z.max 0 count /\
    (forall k a, authors s !! k = Some a -> authors s' !! k = Some a) /\
    (forall i, (i < Z.to_nat count)%nat ->
       exists a, authors s' !! (next_author_id s + Z.of_nat i) = Some a /\
         first_name a = fake_first_name (draws i) /\
         last_name a = fake_last_name (draws i) /\
         (still_alive (draws i) = true -> date_of_death a = None)).
Proof.
  intros Hfresh.
  destruct (create_authors_run draws count s Hfresh)
    as (s' & Hrun & Hdb & Hg & _ & _ & _ & _ & _ & Hsize & Hold & _ & Hnew).
  exists s'. repeat split; try done.
  intros i Hi. eexists. split; [by apply Hnew|]. simpl.
  repeat split. by intros ->.
Qed.

Lemma create_users_run (count : Z) (s : Site) :
  exists s',
    create_users count s = (s', inr (Z.max 0 count)) /\
    db s'
    = with_users
        (fun us => us ++ ((fun i : nat => next_user_id s + Z.of_nat i)
                            <$> range count))
        (db s) /\
    authors s' = authors s /\ genres s' = genres s /\
    book_authors s' = book_authors s /\ book_genres s' = book_genres s /\
    next_author_id s' = next_author_id s /\
    next_genre_id s' = next_genre_id s /\
    next_user_id s' = next_user_id s + Z.max 0 count.
Proof.
  set (I := fun (done : list nat) (acc : Z) (s' : Site) =>
         acc = Z.of_nat (length done) /\
         db s'
         = with_users
             (fun us => us ++ ((fun i : nat => next_user_id s + Z.of_nat i)
                                 <$> done))
             (db s) /\
         authors s' = authors s /\ genres s' = genres s /\
         book_authors s' = book_authors s /\ book_genres s' = book_genres s /\
         next_author_id s' = next_author_id s /\
         next_genre_id s' = next_genre_id s /\
         next_user_id s' = next_user_id s + Z.of_nat (length done)).
  destruct (cmd_ok_for_each I (range count)
              (fun (_ : nat) created =>
                 cmd _ <- User_objects_create_user ; cret (created + 1))
              0) with (s := s)
    as (s' & n & Hrun & Hn & Hs').
  - intros done x acc Hsplit. destruct Hsplit as [rest Hsplit].
    apply range_split in Hsplit as ->.
    intros s0 (-> & Hdb & Ha & Hg & Hba & Hbg & Hna & Hng & Hnu).
    eexists _, _. split; [reflexivity|]. unfold I. simpl.
    rewrite length_app. simpl.
    repeat split; try done; try lia.
    rewrite Hdb, Hnu. unfold with_users. simpl. f_equal.
    by rewrite fmap_app, app_assoc.
  - unfold I. simpl. repeat split; try done; try lia.
    unfold with_users. simpl. rewrite app_nil_r. by destruct (db s).
  - exists s'. subst n.
    destruct Hs' as (Hdb & Ha & Hg & Hba & Hbg & Hna & Hng & Hnu).
    rewrite range_length in *.
    split; [exact Hrun|]. by repeat split.
Qed.

(** X17. [create_users] creates one user for each of [range(count)]: it
    raises nothing, reports [max(0, count)], and leaves the site as it was
    except that the users of the catalogue are the earlier ones followed by
    that many new keys, counted up from the counter. *)
Theorem create_users_creates (count : Z) (s : Site) :
  exists s',
    create_users count s = (s', inr (Z.max 0 count)) /\
    users (db s')
    = users (db s)
      ++ ((fun i : nat => next_user_id s + Z.of_nat i) <$> range count) /\
    Z.of_nat (length (users (db s')))
    = Z.of_nat (length (users (db s))) + Z.max 0 count /\
    books (db s') = books (db s) /\
    instances (db s') = instances (db s) /\
    borrowings (db s') = borrowings (db s) /\
    authors s' = authors s /\ genres s' = genres s.
Proof.
  destruct (create_users_run count s)
    as (s' & Hrun & Hdb & Ha & Hg & _).
  exists s'. rewrite Hdb. simpl. repeat split; try done.
  rewrite length_app, length_fmap. pose proof (range_length count). lia.
Qed.

(** ** create_genres *)

Lemma singleton_of_equal {A} (l : list A) (x : A) :
  NoDup l -> x ∈ l -> (forall y, y ∈ l -> y = x) -> l = [x].
Proof.
  intros Hnd Hin Hall. destruct l as [|a [|b l]].
  - by apply elem_of_nil in Hin.
  - f_equal. apply Hall. left.
  - assert (a = x) as -> by (apply Hall; left).
    assert (b = x) as -> by (apply Hall; right; left).
    apply NoDup_cons in Hnd as [Hnot _]. destruct Hnot. left.
Qed.

Lemma has_genre_dec (s : Site) (nm : string) :
  has_genre s nm \/ ~ has_genre s nm.
Proof.
  destruct (filter (fun kv : Z * Genre => name kv.2 = nm)
              (map_to_list (genres s))) as [|[k g] l] eqn:E.
  - right. intros (k & g & Hk & Hname).
    assert ((k, g) ∈ filter (fun kv : Z * Genre => name kv.2 = nm)
                       (map_to_list (genres s))) as Hin.
    { apply list_elem_of_filter. split; [done|]. by apply elem_of_map_to_list. }
    rewrite E in Hin. by apply elem_of_nil in Hin.
  - left. exists k, g.
    assert ((k, g) ∈ filter (fun kv : Z * Genre => name kv.2 = nm)
                       (map_to_list (genres s))) as Hin.
    { rewrite E. left. }
    by apply list_elem_of_filter in Hin as [Hn Hin%elem_of_map_to_list].
Qed.

Lemma get_or_create_found (nm d : string) (s : Site) :
  genres_ok s -> has_genre s nm ->
  exists k, Genre_objects_get_or_create nm d s = (s, inr (k, false)).
Proof.
  intros [Huniq _] (k & g & Hk & Hname).
  unfold Genre_objects_get_or_create, cbind, cgets. simpl.
  rewrite (singleton_of_equal _ (k, g)).
  - by exists k.
  - apply NoDup_filter, NoDup_map_to_list.
  - apply list_elem_of_filter. split; [done|]. by apply elem_of_map_to_list.
  - intros [k' g'] [Hn Hin%elem_of_map_to_list]%list_elem_of_filter.
    simpl in Hn. assert (k' = k) as -> by (eapply Huniq; [done..|congruence]).
    congruence.
Qed.

Lemma get_or_create_new (nm d : string) (s : Site) :
  ~ has_genre s nm ->
  Genre_objects_get_or_create nm d s
  = (mkSite (db s) (authors s) (<[next_genre_id s := mkGenre nm d]> (genres s))
       (book_authors s) (book_genres s)
       (next_author_id s) (next_genre_id s + 1) (next_user_id s),
     inr (next_genre_id s, true)).
Proof.
  intros Hno. unfold Genre_objects_get_or_create, cbind, cgets. simpl.
  destruct (filter _ _) as [|[k g] l] eqn:E; [done|].
  destruct Hno. exists k, g.
  assert ((k, g) ∈ filter (fun kv : Z * Genre => name kv.2 = nm)
                     (map_to_list (genres s))) as Hin.
  { rewrite E. left. }
  apply list_elem_of_filter in Hin as [Hn Hin%elem_of_map_to_list]. done.
Qed.

Lemma snd_imap_pair {A} (l : list A) (j : nat) :
  (imap (fun i x => ((j + i)%nat, x)) l).*2 = l.
Proof.
  revert j. induction l as [|x l IH]; intros j; [done|].
  rewrite imap_cons. simpl. f_equal.
  rewrite <- (IH (S j)) at 2. f_equal. apply imap_ext.
  intros i y _. simpl. f_equal. lia.
Qed.

(** What a run of [create_genres] over the names [l] keeps and gives. *)
Lemma create_genres_loop (sentence : nat -> string) (l : list (nat * string))
    (s : Site) :
  genres_ok s ->
  exists s' n,
    for_each l
      (fun '(i, nm) created =>
         cmd r <- Genre_objects_get_or_create nm (sentence i) ;
         cret (if r.2 then created + 1 else created)) 0 s
    = (s', inr n) /\
    genres_ok s' /\
    db s' = db s /\ authors s' = authors s /\
    book_authors s' = book_authors s /\ book_genres s' = book_genres s /\
    next_author_id s' = next_author_id s /\ next_user_id s' = next_user_id s /\
    0 <= n <= Z.of_nat (length l) /\
    Z.of_nat (size (genres s')) = Z.of_nat (size (genres s)) + n /\
    next_genre_id s' = next_genre_id s + n /\
    (forall k g, genres s !! k = Some g -> genres s' !! k = Some g) /\
    (forall nm, nm ∈ l.*2 -> has_genre s' nm) /\
    (forall nm, has_genre s' nm -> has_genre s nm \/ nm ∈ l.*2) /\
    ((forall nm, ~ has_genre s nm) -> NoDup l.*2 -> n = Z.of_nat (length l)) /\
    ((forall nm, nm ∈ l.*2 -> has_genre s nm) -> n = 0 /\ s' = s).
Proof.
  intros Hok.
  set (body := fun '((i, nm) : nat * string) (created : Z) =>
         cmd r <- Genre_objects_get_or_create nm (sentence i) ;
         cret (if r.2 then created + 1 else created)).
  set (I := fun (done : list (nat * string)) (n : Z) (s' : Site) =>
         genres_ok s' /\
         db s' = db s /\ authors s' = authors s /\
         book_authors s' = book_authors s /\ book_genres s' = book_genres s /\
         next_author_id s' = next_author_id s /\
         next_user_id s' = next_user_id s /\
         0 <= n <= Z.of_nat (length done) /\
         Z.of_nat (size (genres s')) = Z.of_nat (size (genres s)) + n /\
         next_genre_id s' = next_genre_id s + n /\
         (forall k g, genres s !! k = Some g -> genres s' !! k = Some g) /\
         (forall nm, nm ∈ done.*2 -> has_genre s' nm) /\
         (forall nm, has_genre s' nm -> has_genre s nm \/ nm ∈ done.*2) /\
         ((forall nm, ~ has_genre s nm) -> NoDup done.*2 ->
          n = Z.of_nat (length done)) /\
         ((forall nm, nm ∈ done.*2 -> has_genre s nm) -> n = 0 /\ s' = s)).
  destruct (cmd_ok_for_each I l body 0) with (s := s)
    as (s' & n & Hrun & Hs').
  - intros done [i nm] acc _ s0
      (Hok0 & Hdb & Ha & Hba & Hbg & Hna & Hnu & Hn & Hsize & Hng & Hold & Hin
       & Hout & Hempty & Hfull).
    destruct (has_genre_dec s0 nm) as [Hhas|Hno].
    + destruct (get_or_create_found nm (sentence i) s0 Hok0 Hhas) as [k Hrun].
      exists s0, acc. split.
      { unfold body, cbind. by rewrite Hrun. }
      unfold I. rewrite fmap_app, length_app. simpl.
      repeat split; try done; try lia.
      * apply Hok0.
      * apply Hok0.
      * intros nm' [Hnm'|Hnm']%elem_of_app; [by apply Hin|].
        apply list_elem_of_singleton in Hnm' as ->. done.
      * intros nm' Hnm'. destruct (Hout nm' Hnm') as [?|?]; [by left|].
        right. apply elem_of_app. by left.
      * intros Hnone Hnd. apply NoDup_app in Hnd as (_ & Hdisj & _).
        destruct (Hout nm Hhas) as [Hs|Hd]; [by destruct (Hnone nm)|].
        destruct (Hdisj nm Hd). left.
      * apply Hfull. intros nm' Hnm'. apply H. apply elem_of_app. by left.
      * apply Hfull. intros nm' Hnm'. apply H. apply elem_of_app. by left.
    + eexists _, _. split.
      { unfold body, cbind. rewrite (get_or_create_new nm _ s0 Hno).
        reflexivity. }
      destruct Hok0 as [Huniq Hfresh].
      assert (genres s0 !! next_genre_id s0 = None) as Hfree.
      { destruct (genres s0 !! next_genre_id s0) as [g|] eqn:E; [|done].
        apply Hfresh in E. lia. }
      unfold I, genres_ok, has_genre. simpl.
      rewrite fmap_app, length_app. simpl.
      repeat split; try done; try lia.
      * intros k k' g g' [[<- <-]|[Hne Hk]]%lookup_insert_Some
          [[<- <-]|[Hne' Hk']]%lookup_insert_Some Hname; simpl in *;
          [done| | |by eapply Huniq].
        -- destruct Hno. by exists k', g'.
        -- destruct Hno. by exists k, g.
      * intros k g [[<- <-]|[Hne Hk]]%lookup_insert_Some; [lia|].
        apply Hfresh in Hk. lia.
      * rewrite map_size_insert_None by done. lia.
      * intros k g Hk. rewrite lookup_insert_ne; [by apply Hold|].
        apply Hold, Hfresh in Hk. lia.
      * intros nm' [Hnm'|Hnm']%elem_of_app.
        -- destruct (Hin nm' Hnm') as (k & g & Hk & Hg).
           exists k, g. split; [|done]. rewrite lookup_insert_ne; [done|].
           apply Hfresh in Hk. lia.
        -- apply list_elem_of_singleton in Hnm' as ->.
           exists (next_genre_id s0), (mkGenre nm (sentence i)).
           by rewrite lookup_insert_eq.
      * intros nm' (k & g & [[<- <-]|[Hne Hk]]%lookup_insert_Some & Hg).
        -- right. apply elem_of_app. right. simpl in Hg. subst. left.
        -- destruct (Hout nm') as [?|?]; [by exists k, g|by left|].
           right. apply elem_of_app. by left.
      * intros Hnone Hnd. apply NoDup_app in Hnd as (Hnd & _ & _).
        specialize (Hempty Hnone Hnd). lia.
      * destruct Hno. destruct (Hfull) as [_ ->].
        { intros nm' Hnm'. apply H. apply elem_of_app. by left. }
        apply H. apply elem_of_app. right. left.
      * destruct Hno. destruct (Hfull) as [_ ->].
        { intros nm' Hnm'. apply H. apply elem_of_app. by left. }
        apply H. apply elem_of_app. right. left.
  - unfold I. simpl. repeat split; try done; try lia; try apply Hok.
    + intros nm Hnm. by apply elem_of_nil in Hnm.
    + intros nm Hnm. by left.
  - exists s', n. split; [exact Hrun|]. exact Hs'.
Qed.

Lemma base_NoDup : NoDup base.
Proof. apply (bool_decide_unpack _). by vm_compute. Qed.

Lemma base_length : length base = 16%nat.
Proof. reflexivity. Qed.

Lemma shuffle_length {A} (draws : nat -> nat) (l : list A) :
  length (shuffle draws l) = length l.
Proof. unfold shuffle. by rewrite select_length. Qed.

(** The names that a run of [create_genres] visits. *)
Lemma genre_names_visited (draws : nat -> nat) (count : Z) :
  (imap (fun i nm => (i, nm)) (slice_to (shuffle draws base) count)).*2
  = slice_to (shuffle draws base) count.
Proof. apply (snd_imap_pair _ 0). Qed.

Lemma slice_in_base (draws : nat -> nat) (count : Z) (nm : string) :
  nm ∈ slice_to (shuffle draws base) count -> nm ∈ base.
Proof.
  intros H. rewrite <- (shuffle_Permutation draws base).
  eapply elem_of_submseteq; [done|apply slice_to_submseteq].
Qed.

(** X18. On a site where no two genres have the same name and the keys are
    below the counter, [create_genres] raises nothing and keeps it so: it
    only adds genres whose name was not there, all from the fixed list of
    sixteen names; the number it reports is the number of rows added, at
    most sixteen; the stored genres and the catalogue are as before; and
    every name it visited has a genre afterwards. *)
Theorem create_genres_keeps_names_unique (draws : nat -> nat)
    (sentence : nat -> string) (count : Z) (s : Site) :
  genres_ok s ->
  exists s' n,
    create_genres draws sentence count s = (s', inr n) /\
    genres_ok s' /\
    db s' = db s /\
    0 <= n <= 16 /\
    Z.of_nat (size (genres s')) = Z.of_nat (size (genres s)) + n /\
    (forall k g, genres s !! k = Some g -> genres s' !! k = Some g) /\
    (forall nm, nm ∈ slice_to (shuffle draws base) count -> has_genre s' nm) /\
    (forall nm, has_genre s' nm -> has_genre s nm \/ nm ∈ base).
Proof.
  intros Hok.
  destruct (create_genres_loop sentence
              (imap (fun i nm => (i, nm))
                 (slice_to (shuffle draws base) count)) s Hok)
    as (s' & n & Hrun & Hok' & Hdb & _ & _ & _ & _ & _ & Hn & Hsize & _ & Hold
        & Hin & Hout & _).
  rewrite genre_names_visited in Hin, Hout. rewrite length_imap in Hn.
  exists s', n. split; [exact Hrun|].
  split; [exact Hok'|]. split; [exact Hdb|].
  split; [|split; [exact Hsize|split; [exact Hold|split; [exact Hin|]]]].
  - pose proof (submseteq_length _ _
                  (slice_to_submseteq (shuffle draws base) count)) as Hle.
    rewrite shuffle_length, base_length in Hle. lia.
  - intros nm Hnm. destruct (Hout nm Hnm) as [?|?]; [by left|].
    right. by eapply slice_in_base.
Qed.

(** X19. On a site without genres [create_genres] creates one genre for
    each name of [base[:count]]: [min(count, 16)] of them for a count that
    is not negative and, because a negative count cuts the list from its
    end, [16 + count] of them for a count between -16 and -1; none below. *)
Theorem create_genres_on_empty (draws : nat -> nat) (sentence : nat -> string)
    (count : Z) (s : Site) :
  genres s = ∅ ->
  exists s',
    create_genres draws sentence count s
    = (s', inr (if 0 <=? count then Z.min count 16 else Z.max 0 (16 + count))).
Proof.
  intros Hempty.
  assert (genres_ok s) as Hok.
  { split; intros *; rewrite Hempty; intros; simplify_map_eq. }
  destruct (create_genres_loop sentence
              (imap (fun i nm => (i, nm))
                 (slice_to (shuffle draws base) count)) s Hok)
    as (s' & n & Hrun & _ & _ & _ & _ & _ & _ & _ & _ & _ & _ & _
        & _ & _ & Hall & _).
  exists s'. unfold create_genres. rewrite Hrun. do 2 f_equal.
  rewrite Hall.
  - rewrite length_imap, slice_to_length, shuffle_length, base_length. done.
  - intros nm (k & g & Hk & _). rewrite Hempty in Hk. simplify_map_eq.
  - rewrite genre_names_visited.
    assert (NoDup (shuffle draws base)) as Hnd
      by (rewrite shuffle_Permutation; apply base_NoDup).
    unfold slice_to.
    destruct (0 <=? count); (eapply sublist_NoDup; [exact Hnd|apply sublist_take]).
Qed.

(** X20. After [create_genres] has run with a count of sixteen or more, all
    sixteen names have a genre, and another run, with any count and any
    shuffle, reports zero and leaves the site as it is. *)
Theorem create_genres_again (draws draws' : nat -> nat)
    (sentence sentence' : nat -> string) (count count' : Z) (s : Site) :
  genres_ok s ->
  16 <= count ->
  exists s1 n,
    create_genres draws sentence count s = (s1, inr n) /\
    (forall nm, nm ∈ base -> has_genre s1 nm) /\
    create_genres draws' sentence' count' s1 = (s1, inr 0).
Proof.
  intros Hok Hcount.
  destruct (create_genres_loop sentence
              (imap (fun i nm => (i, nm))
                 (slice_to (shuffle draws base) count)) s Hok)
    as (s1 & n & Hrun & Hok1 & _ & _ & _ & _ & _ & _ & _ & _ & _ & _
        & Hin & _).
  rewrite genre_names_visited in Hin.
  rewrite slice_to_all in Hin by (rewrite shuffle_length, base_length; lia).
  assert (forall nm, nm ∈ base -> has_genre s1 nm) as Hall.
  { intros nm Hnm. apply Hin. by rewrite shuffle_Permutation. }
  exists s1, n. split; [exact Hrun|]. split; [done|].
  destruct (create_genres_loop sentence'
              (imap (fun i nm => (i, nm))
                 (slice_to (shuffle draws' base) count')) s1 Hok1)
    as (s2 & n' & Hrun' & _ & _ & _ & _ & _ & _ & _ & _ & _ & _ & _
        & _ & _ & _ & Hfull).
  destruct Hfull as [-> ->].
  - rewrite genre_names_visited. intros nm Hnm.
    apply Hall. by eapply slice_in_base.
  - exact Hrun'.
Qed.

(** ** create_books_and_instances *)

Lemma set_db_db (s : Site) : set_db (db s) s = s.
Proof. by destruct s. Qed.

Lemma set_db_set_db (w w' : World) (s : Site) :
  set_db w (set_db w' s) = set_db w s.
Proof. done. Qed.

(** Creating a copy from the object of a stored book is the operation
    [NewInstance] on the key of the book. *)
Lemma BookInstance_objects_create_op (book : Book) (k : Z) (c : Condition)
    (r : Book) (w : World) :
  wf_world w ->
  books w !! k = Some r ->
  book_pk book = Some k ->
  exists o,
    BookInstance_objects_create book c true w
    = ((run_op (NewInstance k c) w).1, inr o).
Proof.
  intros Hwf Hr Hk.
  destruct (next_number_wf k w Hwf) as (num & Hnum & _).
  rewrite (run_NewInstance k num c r w Hr Hnum). cbn [fst].
  unfold BookInstance_objects_create. rewrite Hk. unfold bind at 1. simpl.
  eexists.
  rewrite (BookInstance_save_unnumbered _ book k num w); try done.
Qed.

Lemma choice_condition (d : BookDraw) (i : nat) (w : World) :
  choice (condition_draws d i) conditions w = (w, inr (drawn_condition d i)).
Proof.
  unfold choice, drawn_condition.
  destruct (lookup_lt_is_Some_2 conditions
              (condition_draws d i mod length conditions)) as [c ->]; [|done].
  apply Nat.mod_upper_bound. done.
Qed.

Lemma books_NewInstance (k : Z) (c : Condition) (w : World) :
  wf_world w -> books (run_op (NewInstance k c) w).1 = books w.
Proof.
  intros Hwf. destruct (books w !! k) as [bk|] eqn:E.
  2: { by rewrite run_NewInstance_missing. }
  destruct (next_number_wf k w Hwf) as (num & Hnum & _).
  by rewrite (run_NewInstance k num c bk w E Hnum).
Qed.

(** The loop over the copies of one book. *)
Lemma copies_loop (book : Book) (k : Z) (d : BookDraw) (l : list nat)
    (s : Site) (created_instances : Z) :
  wf_world (db s) ->
  is_Some (books (db s) !! k) ->
  book_pk book = Some k ->
  for_each l
    (fun _i created_instances =>
       cmd c <- lift (choice (condition_draws d _i) conditions) ;
       cmd _ <- lift (BookInstance_objects_create book c true) ;
       cret (created_instances + 1))
    created_instances s
  = (set_db (run_ops (map (fun i => NewInstance k (drawn_condition d i)) l)
               (db s)) s,
     inr (created_instances + Z.of_nat (length l))).
Proof.
  revert s created_instances.
  induction l as [|i l IH]; intros s n Hwf [r Hr] Hk.
  - simpl. unfold cret. rewrite set_db_db. do 2 f_equal. lia.
  - cbn [for_each]. unfold cbind at 1. unfold cbind at 1.
    rewrite (lift_inr _ s (db s) (drawn_condition d i))
      by apply choice_condition.
    rewrite set_db_db. unfold cbind at 1.
    destruct (BookInstance_objects_create_op book k (drawn_condition d i) r
                (db s) Hwf Hr Hk) as (o & Ho).
    rewrite (lift_inr _ s _ o Ho). unfold cret at 1.
    rewrite IH; cbn [db set_db].
    + cbn [map run_ops foldl length]. do 2 f_equal. lia.
    + by apply wf_NewInstance.
    + rewrite books_NewInstance by done. by exists r.
    + done.
Qed.

(** What one new copy of book [k] changes. *)
Lemma NewInstance_effect (k : Z) (c : Condition) (bk : Book) (w : World) :
  wf_world w ->
  books w !! k = Some bk ->
  let w' := (run_op (NewInstance k c) w).1 in
  wf_world w' /\
  books w' = books w /\ borrowings w' = borrowings w /\ users w' = users w /\
  next_book_id w' = next_book_id w /\
  next_borrowing_id w' = next_borrowing_id w /\
  next_instance_id w' = next_instance_id w + 1 /\
  (forall i r, instances w !! i = Some r -> instances w' !! i = Some r) /\
  Z.of_nat (size (instances w')) = Z.of_nat (size (instances w)) + 1 /\
  (forall b, copies_of b w' = copies_of b w + (if decide (b = k) then 1 else 0)) /\
  (forall b, available_of b w'
             = available_of b w + (if decide (b = k) then 1 else 0)) /\
  available_count w' = available_count w + 1.
Proof.
  intros Hwf Hbk w'.
  assert (wf_world w') as Hwf' by by apply wf_NewInstance.
  destruct (next_number_wf k w Hwf) as (num & Hnum & _).
  subst w'. revert Hwf'. rewrite (run_NewInstance k num c bk w Hbk Hnum).
  cbn [fst]. intros Hwf'.
  assert (instances w !! next_instance_id w = None) as Hfresh.
  { destruct (instances w !! next_instance_id w) as [r|] eqn:E; [|done].
    apply (wf_instance_key w Hwf) in E. lia. }
  split; [done|]. do 6 (split; [simpl; done || lia|]).
  split; [|split; [|split; [|split]]].
  - intros i r Hi. simpl. rewrite lookup_insert_ne; [done|congruence].
  - simpl. rewrite map_size_insert_None by done. lia.
  - intros b. unfold copies_of, instances_of_book. simpl.
    rewrite filter_length_insert_new by done. simpl.
    repeat case_decide; try done; lia.
  - intros b. rewrite !available_of_eq. simpl.
    rewrite filter_length_insert_new by done. simpl.
    repeat case_decide; try lia; tauto.
  - unfold available_count, available_instances_query. rewrite !length_fmap.
    simpl. rewrite filter_length_insert_new by done. simpl. lia.
Qed.

(** What the new copies of book [k] change. *)
Lemma new_instances_effect (k : Z) (f : nat -> Condition) (l : list nat)
    (bk : Book) (w : World) :
  wf_world w ->
  books w !! k = Some bk ->
  let w' := run_ops (map (fun i => NewInstance k (f i)) l) w in
  let n := Z.of_nat (length l) in
  wf_world w' /\
  books w' = books w /\ borrowings w' = borrowings w /\ users w' = users w /\
  next_book_id w' = next_book_id w /\
  next_borrowing_id w' = next_borrowing_id w /\
  next_instance_id w' = next_instance_id w + n /\
  (forall i r, instances w !! i = Some r -> instances w' !! i = Some r) /\
  Z.of_nat (size (instances w')) = Z.of_nat (size (instances w)) + n /\
  (forall b, copies_of b w' = copies_of b w + (if decide (b = k) then n else 0)) /\
  (forall b, available_of b w'
             = available_of b w + (if decide (b = k) then n else 0)) /\
  available_count w' = available_count w + n.
Proof.
  revert w. induction l as [|i l IH]; intros w Hwf Hbk.
  - simpl. split; [done|]. do 5 (split; [done|]). split; [lia|].
    split; [done|]. split; [lia|].
    split; [|split; [|lia]]; intros b; case_decide; lia.
  - cbn [map length]. cbn zeta.
    change (run_ops (NewInstance k (f i) :: ?ops) w)
      with (run_ops ops (run_op (NewInstance k (f i)) w).1).
    destruct (NewInstance_effect k (f i) bk w Hwf Hbk)
      as (Hwf1 & Hb1 & Hbo1 & Hu1 & Hnb1 & Hnbo1 & Hni1 & Hold1 & Hsz1
          & Hc1 & Ha1 & Hq1).
    destruct (IH (run_op (NewInstance k (f i)) w).1 Hwf1)
      as (Hwf2 & Hb2 & Hbo2 & Hu2 & Hnb2 & Hnbo2 & Hni2 & Hold2 & Hsz2
          & Hc2 & Ha2 & Hq2); [by rewrite Hb1|].
    split; [done|].
    split; [congruence|]. split; [congruence|]. split; [congruence|].
    split; [congruence|]. split; [congruence|].
    split; [lia|]. split; [auto|]. split; [lia|].
    split; [|split].
    + intros b. rewrite Hc2, Hc1. case_decide; lia.
    + intros b. rewrite Ha2, Ha1. case_decide; lia.
    + lia.
Qed.

Lemma clamped_equal (k : option Z) (t : Z) : clamped (mkBook k t t) = mkBook k t t.
Proof. unfold clamped. simpl. by rewrite Z.gtb_ltb, Z.ltb_irrefl. Qed.

Lemma book_ops_valid (k : Z) (d : BookDraw) : Forall op_valid (book_ops k d).
Proof.
  pose proof (randint_range 1 6 (copies_draw d) ltac:(lia)).
  apply Forall_cons. split; [simpl; lia|].
  apply Forall_forall. by intros op (i & -> & _)%list_elem_of_fmap.
Qed.

(** What a new book with its copies changes: the passes of
    [create_books_and_instances] on the catalogue. *)
Lemma book_ops_effect (d : BookDraw) (w : World) :
  wf_world w ->
  let k := next_book_id w in
  let t := randint 1 6 (copies_draw d) in
  let w' := run_ops (book_ops k d) w in
  1 <= t <= 6 /\
  wf_world w' /\
  books w !! k = None /\
  books w' = <[k := mkBook (Some k) t t]> (books w) /\
  borrowings w' = borrowings w /\ users w' = users w /\
  next_book_id w' = k + 1 /\
  next_borrowing_id w' = next_borrowing_id w /\
  next_instance_id w' = next_instance_id w + t /\
  (forall i r, instances w !! i = Some r -> instances w' !! i = Some r) /\
  Z.of_nat (size (instances w')) = Z.of_nat (size (instances w)) + t /\
  (forall b, copies_of b w' = if decide (b = k) then t else copies_of b w) /\
  (forall b, available_of b w' = if decide (b = k) then t else available_of b w) /\
  available_count w' = available_count w + t.
Proof.
  intros Hwf k t w'.
  pose proof (randint_range 1 6 (copies_draw d) ltac:(lia)) as Ht.
  fold t in Ht. split; [done|].
  assert (books w !! k = None) as Hfresh.
  { destruct (books w !! k) as [b|] eqn:E; [|done].
    apply (wf_book_key w Hwf) in E. unfold k in E. lia. }
  assert (forall b, b = k -> instances_of_book b w = []) as Hnone.
  { intros b ->. destruct (instances_of_book k w) as [|[i r] l] eqn:E; [done|].
    assert ((i, r) ∈ instances_of_book k w) as Hin by (rewrite E; left).
    apply elem_of_instances_of_book in Hin as [Hi Hr].
    destruct (wf_instance_book w Hwf i r Hi) as [b Hb]. congruence. }
  subst w'. unfold book_ops. fold t.
  change (run_ops (NewBook t t :: ?ops) w)
    with (run_ops ops (run_op (NewBook t t) w).1).
  pose proof (wf_NewBook t t w Hwf ltac:(lia)) as Hwf1. revert Hwf1.
  rewrite run_NewBook. cbn [fst]. rewrite clamped_equal. fold k.
  change (set_book_pk k (mkBook None t t)) with (mkBook (Some k) t t).
  set (w1 := bump_book_id _). intros Hwf1.
  destruct (new_instances_effect k (drawn_condition d) (range t)
              (mkBook (Some k) t t) w1 Hwf1)
    as (Hwf2 & Hb2 & Hbo2 & Hu2 & Hnb2 & Hnbo2 & Hni2 & Hold2 & Hsz2
        & Hc2 & Ha2 & Hq2); [apply lookup_insert_eq|].
  rewrite range_length in *.
  replace (Z.max 0 t) with t in * by lia.
  split; [done|]. split; [done|]. split; [by rewrite Hb2|].
  split; [by rewrite Hbo2|]. split; [by rewrite Hu2|].
  split; [by rewrite Hnb2|]. split; [by rewrite Hnbo2|].
  split; [by rewrite Hni2|]. split; [by auto|]. split; [by rewrite Hsz2|].
  split; [|split; [|by rewrite Hq2]].
  - intros b. rewrite Hc2. case_decide; [|by rewrite Z.add_0_r].
    unfold copies_of at 1.
    change (instances_of_book b w1) with (instances_of_book b w).
    rewrite Hnone by done. simpl. lia.
  - intros b. rewrite Ha2. case_decide; [|by rewrite Z.add_0_r].
    unfold available_of at 1.
    change (instances_of_book b w1) with (instances_of_book b w).
    rewrite Hnone by done. simpl. lia.
Qed.

(** The passes keep the counts of the books in step with their copies. *)
Lemma book_ops_synced (d : BookDraw) (w : World) :
  wf_world w -> synced w -> synced (run_ops (book_ops (next_book_id w) d) w).
Proof.
  intros Hwf Hs.
  destruct (book_ops_effect d w Hwf)
    as (Ht & _ & Hfresh & Hb & _ & _ & _ & _ & _ & _ & _ & Hc & Ha & _).
  intros k b. rewrite Hb, Hc, Ha.
  intros [[<- <-]|[Hne Hk]]%lookup_insert_Some.
  - by rewrite !decide_True.
  - rewrite !decide_False by done. by apply Hs.
Qed.

Lemma sample_one_to_three (draws : nat -> nat) (l : list Z) (kd : nat)
    (s : Site) :
  l <> [] ->
  exists chosen,
    sample draws l (randint 1 (Z.min 3 (Z.of_nat (length l))) kd) s
    = (s, inr chosen) /\
    chosen ⊆+ l /\ (1 <= length chosen <= 3)%nat.
Proof.
  intros Hl.
  assert (1 <= Z.of_nat (length l)) as Hlen by (destruct l; [done|simpl; lia]).
  pose proof (randint_range 1 (Z.min 3 (Z.of_nat (length l))) kd ltac:(lia))
    as Hk.
  destruct (sample_ok draws l
              (randint 1 (Z.min 3 (Z.of_nat (length l))) kd) s ltac:(lia))
    as (Hrun & Hn & Hsub).
  eexists. split; [exact Hrun|]. split; [exact Hsub|]. lia.
Qed.

(** One pass of the loop of [create_books_and_instances]. *)
Lemma book_pass (draws : nat -> BookDraw) (al gl : list Z) (i : nat)
    (created_books created_instances : Z) (s : Site) :
  wf_world (db s) ->
  al <> [] ->
  let k := next_book_id (db s) in
  let t := randint 1 6 (copies_draw (draws i)) in
  exists s',
    (fun i '(created_books, created_instances) =>
       let d := draws i in
       let total_copies := randint 1 6 (copies_draw d) in
       cmd book <- lift (Book_objects_create total_copies total_copies) ;
       cmd chosen <-
         sample (authors_sample_draws d) al
           (randint 1 (Z.min 3 (Z.of_nat (length al))) (authors_k_draw d)) ;
       cmd _ <- set_authors book chosen ;
       cmd _ <-
         (match gl with
          | [] => cret tt
          | _ =>
              if with_genres d then
                cmd chosen <-
                  sample (genres_sample_draws d) gl
                    (randint 1 (Z.min 3 (Z.of_nat (length gl)))
                       (genres_k_draw d)) ;
                set_genres book chosen
              else cret tt
          end) ;
       cmd created_instances <-
         for_each (range total_copies)
           (fun _i created_instances =>
              cmd c <- lift (choice (condition_draws d _i) conditions) ;
              cmd _ <- lift (BookInstance_objects_create book c true) ;
              cret (created_instances + 1))
           created_instances ;
       cret (created_books + 1, created_instances))
      i (created_books, created_instances) s
    = (s', inr (created_books + 1, created_instances + t)) /\
    db s' = run_ops (book_ops k (draws i)) (db s) /\
    authors s' = authors s /\ genres s' = genres s /\
    next_author_id s' = next_author_id s /\
    next_genre_id s' = next_genre_id s /\
    next_user_id s' = next_user_id s /\
    (exists l, book_authors s' = <[k := l]> (book_authors s) /\
               l ⊆+ al /\ (1 <= length l <= 3)%nat) /\
    (book_genres s' = book_genres s \/
     exists l, book_genres s' = <[k := l]> (book_genres s) /\
               l ⊆+ gl /\ (1 <= length l <= 3)%nat).
Proof.
  intros Hwf Hal k t. cbv beta zeta. fold t.
  set (d := draws i).
  assert (1 <= t <= 6) as Ht by (apply randint_range; lia).
  (* the book *)
  set (w1 := (run_op (NewBook t t) (db s)).1).
  assert (Book_objects_create t t (db s) = (w1, inr (mkBook (Some k) t t)))
    as Hbook.
  { unfold Book_objects_create, w1. rewrite run_NewBook.
    rewrite Book_save_None by done. by rewrite clamped_equal. }
  assert (wf_world w1) as Hwf1 by (apply wf_NewBook; [done|lia]).
  assert (is_Some (books w1 !! k)) as Hk1.
  { unfold w1. rewrite run_NewBook. simpl. rewrite lookup_insert_eq. by eexists. }
  unfold cbind at 1. rewrite (lift_inr _ s w1 _ Hbook).
  (* its authors *)
  destruct (sample_one_to_three (authors_sample_draws d) al (authors_k_draw d)
              (set_db w1 s) Hal) as (chosen & Hsample & Hsub & Hlen).
  unfold cbind at 1. rewrite Hsample.
  unfold cbind at 1. unfold set_authors. unfold cbind at 1.
  rewrite (lift_inr _ (set_db w1 s) w1 k) by done.
  unfold cmodify at 1. cbn [db set_db authors genres book_authors book_genres
    next_author_id next_genre_id next_user_id].
  set (s2 := mkSite w1 _ _ _ _ _ _ _).
  (* its genres *)
  assert (exists s3,
    (match gl with
     | [] => cret tt
     | _ =>
         if with_genres d then
           cmd chosen <-
             sample (genres_sample_draws d) gl
               (randint 1 (Z.min 3 (Z.of_nat (length gl))) (genres_k_draw d)) ;
           set_genres (mkBook (Some k) t t) chosen
         else cret tt
     end) s2 = (s3, inr tt) /\
    db s3 = w1 /\ authors s3 = authors s /\ genres s3 = genres s /\
    next_author_id s3 = next_author_id s /\
    next_genre_id s3 = next_genre_id s /\
    next_user_id s3 = next_user_id s /\
    book_authors s3 = <[k := chosen]> (book_authors s) /\
    (book_genres s3 = book_genres s \/
     exists l, book_genres s3 = <[k := l]> (book_genres s) /\
               l ⊆+ gl /\ (1 <= length l <= 3)%nat)) as (s3 & Hg & Hs3).
  { destruct (decide (gl = [])) as [->|Hgl].
    { exists s2. split; [done|]. repeat split; try done. by left. }
    destruct (with_genres d).
    2: { exists s2. destruct gl; [done|]. split; [done|].
         repeat split; try done. by left. }
    destruct (sample_one_to_three (genres_sample_draws d) gl (genres_k_draw d)
                s2 Hgl) as (chosen' & Hsample' & Hsub' & Hlen').
    destruct gl as [|g0 gl]; [done|].
    eexists. split.
    { unfold cbind at 1. rewrite Hsample'.
      unfold set_genres. unfold cbind at 1.
      rewrite (lift_inr _ s2 w1 k) by done. reflexivity. }
    simpl. repeat split; try done. right. by exists chosen'. }
  unfold cbind at 1. rewrite Hg.
  destruct Hs3 as (Hdb3 & Ha3 & Hg3 & Hna3 & Hng3 & Hnu3 & Hba3 & Hbg3).
  (* its copies *)
  unfold cbind at 1.
  rewrite (copies_loop (mkBook (Some k) t t) k d (range t) s3 created_instances)
    by (rewrite ?Hdb3; done).
  unfold cret. rewrite Hdb3.
  eexists. split.
  { do 2 f_equal. f_equal. rewrite range_length. lia. }
  cbn [db set_db authors genres book_authors book_genres
    next_author_id next_genre_id next_user_id].
  split; [done|]. do 5 (split; [done|]). split; [|done].
  by exists chosen.
Qed.

Lemma books_added_refl (s0 : Site) (al gl : list Z) : books_added s0 al gl 0 0 s0.
Proof.
  split; try done; try lia.
  all: unfold new_book; intros; lia.
Qed.

(** A pass extends what the loop has done by one book and its copies. *)
Lemma books_added_pass (us : list Z) (s0 s s' : Site) (al gl : list Z)
    (d : BookDraw) (cb ci : Z) :
  reachable us (db s0) ->
  reachable us (db s) ->
  books_added s0 al gl cb ci s ->
  let k := next_book_id (db s) in
  db s' = run_ops (book_ops k d) (db s) ->
  authors s' = authors s -> genres s' = genres s ->
  next_author_id s' = next_author_id s ->
  next_genre_id s' = next_genre_id s ->
  next_user_id s' = next_user_id s ->
  (exists l, book_authors s' = <[k := l]> (book_authors s) /\
             l ⊆+ al /\ (1 <= length l <= 3)%nat) ->
  (book_genres s' = book_genres s \/
   exists l, book_genres s' = <[k := l]> (book_genres s) /\
             l ⊆+ gl /\ (1 <= length l <= 3)%nat) ->
  reachable us (db s') /\
  books_added s0 al gl (cb + 1) (ci + randint 1 6 (copies_draw d)) s'.
Proof.
  intros Hr0 Hr Hba k Hdb Ha Hg Hna Hng Hnu (la & Hla & Hsub & Hlen) Hgen.
  pose proof (reachable_wf us _ Hr) as Hwf.
  destruct (book_ops_effect d (db s) Hwf)
    as (Ht & Hwf' & Hfresh & Hb & Hbo & Hu & Hnb & Hnbo & Hni & Hold & Hsz
        & Hc & Hav & Hq).
  fold k in Hwf', Hfresh, Hb, Hbo, Hu, Hnb, Hnbo, Hni, Hold, Hsz, Hc, Hav, Hq.
  rewrite <- Hdb in Hwf', Hb, Hbo, Hu, Hnb, Hnbo, Hni, Hold, Hsz, Hc, Hav, Hq.
  set (t := randint 1 6 (copies_draw d)) in *.
  destruct Hba as [Ba Bg Bna Bng Bnu Bbo Bu Bnbo Bbd Bnb Bni Bbs Bis Bbk Bio
                    Bsy Bav Bnew Bau Bge Bot].
  split.
  { rewrite Hdb. apply reachable_run_ops; [done|apply book_ops_valid]. }
  assert (forall k0, new_book s0 s' k0 <-> new_book s0 s k0 \/ k0 = k) as Hnew.
  { intros k0. unfold new_book. rewrite Hnb. fold k. unfold k at 3. lia. }
  assert (~ new_book s0 s k) as Hk by (unfold new_book; fold k; lia).
  split.
  - congruence.
  - congruence.
  - congruence.
  - congruence.
  - congruence.
  - congruence.
  - congruence.
  - congruence.
  - lia.
  - rewrite Hnb. unfold k. lia.
  - lia.
  - rewrite Hb, map_size_insert_None by done. lia.
  - lia.
  - intros k0 Hk0. rewrite Hnew in Hk0. rewrite Hb.
    rewrite lookup_insert_ne by (intros <-; tauto). apply Bbk. tauto.
  - auto.
  - intros Hs. rewrite Hdb. apply book_ops_synced; auto.
  - lia.
  - intros k0 [Hk0| ->]%Hnew.
    + destruct (Bnew k0 Hk0) as (b & Hb0 & H1 & H2 & H3 & H4).
      assert (k0 <> k) as Hne by (intros ->; tauto).
      exists b. rewrite Hb, Hc, Hav, lookup_insert_ne by done.
      by rewrite !decide_False by done.
    + exists (mkBook (Some k) t t). rewrite Hb, Hc, Hav, lookup_insert_eq.
      by rewrite !decide_True by done.
  - intros k0 [Hk0| ->]%Hnew.
    + assert (k0 <> k) as Hne by (intros ->; tauto).
      rewrite Hla, lookup_insert_ne by done. by apply Bau.
    + exists la. by rewrite Hla, lookup_insert_eq.
  - intros k0 [Hk0| ->]%Hnew.
    + assert (k0 <> k) as Hne by (intros ->; tauto).
      destruct Hgen as [->|(lg & -> & _)]; [by apply Bge|].
      rewrite lookup_insert_ne by done. by apply Bge.
    + destruct Hgen as [->|(lg & -> & Hsubg & Hleng)].
      * left. by apply Bot.
      * right. exists lg. by rewrite lookup_insert_eq.
  - intros k0 Hk0. rewrite Hnew in Hk0.
    assert (k0 <> k) as Hne by (intros ->; tauto).
    assert (~ new_book s0 s k0) as Hk0' by tauto.
    rewrite Hla, lookup_insert_ne by done.
    destruct Hgen as [->|(lg & -> & _)]; [by apply Bot|].
    rewrite lookup_insert_ne by done. by apply Bot.
Qed.

Lemma submseteq_keys {A} (m : gmap Z A) (l : list Z) :
  l ⊆+ (map_to_list m).*1 ->
  NoDup l /\ forall a, a ∈ l -> is_Some (m !! a).
Proof.
  intros Hsub. split.
  - destruct (submseteq_Permutation _ _ Hsub) as (l' & Hl').
    pose proof (NoDup_fst_map_to_list m) as Hnd. rewrite Hl' in Hnd.
    by apply NoDup_app in Hnd as (? & _).
  - intros a Ha.
    assert (a ∈ (map_to_list m).*1) as Hin by by eapply elem_of_submseteq.
    apply list_elem_of_fmap in Hin as ([a' x] & -> & Hx).
    apply elem_of_map_to_list in Hx. by exists x.
Qed.

Lemma keys_nil {A} (m : gmap Z A) : (map_to_list m).*1 = [] <-> m = ∅.
Proof.
  split.
  - intros H. apply fmap_nil_inv in H. by apply map_to_list_empty_iff.
  - intros ->. by rewrite map_to_list_empty.
Qed.

(** The run of [create_books_and_instances] on a site with authors. *)
Lemma create_books_run (us : list Z) (draws : nat -> BookDraw) (count : Z)
    (s : Site) :
  reachable us (db s) ->
  authors s <> ∅ ->
  exists s' ci,
    create_books_and_instances draws count s
    = (s', inr (CreatedBooks (Z.max 0 count) ci)) /\
    reachable us (db s') /\
    books_added s (map_to_list (authors s)).*1 (map_to_list (genres s)).*1
      (Z.max 0 count) ci s'.
Proof.
  intros Hr Hne.
  unfold create_books_and_instances.
  unfold cbind at 1. unfold cgets at 1. unfold cbind at 1. unfold cgets at 1.
  set (al := (map_to_list (authors s)).*1).
  set (gl := (map_to_list (genres s)).*1).
  assert (al <> []) as Hal by (intros H; by apply keys_nil in H).
  destruct al as [|a0 al0] eqn:Eal; [done|]. rewrite <- Eal in *.
  unfold cbind at 1.
  match goal with
  | |- context [for_each (range count) ?b (0, 0)] => set (body := b)
  end.
  set (Inv := fun (done : list nat) (acc : Z * Z) (s' : Site) =>
         acc.1 = Z.of_nat (length done) /\ reachable us (db s') /\
         books_added s al gl acc.1 acc.2 s').
  destruct (cmd_ok_for_each Inv (range count) body (0, 0)) with (s := s)
    as (s' & [cb ci] & Hrun & Hcb & Hr' & Hba).
  - intros done x [cb ci] _ s1 (Hcb & Hr1 & Hba). simpl in Hcb.
    destruct (book_pass draws al gl x cb ci s1 (reachable_wf us _ Hr1) Hal)
      as (s2 & Hrun & Hdb & Ha & Hg & Hna & Hng & Hnu & Hau & Hge).
    exists s2, (cb + 1, ci + randint 1 6 (copies_draw (draws x))).
    split; [exact Hrun|].
    destruct (books_added_pass us s s1 s2 al gl (draws x) cb ci)
      as [Hr2 Hba2]; try done.
    split; [|done]. simpl. rewrite length_app. simpl. lia.
  - split; [done|]. split; [done|]. apply books_added_refl.
  - rewrite Hrun. simpl in Hcb. exists s', ci. unfold cret. simpl.
    rewrite Hcb, range_length in *. done.
Qed.

Lemma create_books_none (draws : nat -> BookDraw) (count : Z) (s : Site) :
  authors s = ∅ ->
  create_books_and_instances draws count s = (s, inr NoAuthorsFound).
Proof.
  intros H. unfold create_books_and_instances.
  unfold cbind at 1. unfold cgets at 1. unfold cbind at 1. unfold cgets at 1.
  by rewrite H, map_to_list_empty.
Qed.

(** X21. On a catalogue that the operations produce from the empty
    database, [create_books_and_instances] raises nothing and ends in such
    a catalogue.  Without authors it reports that and writes nothing.  With
    an author it reports [max(0, count)] books and a number of instances
    between once and six times that; the tables of books and instances have
    grown by exactly the reported numbers of rows, all instances available;
    the rows that were there and the borrowings are as before; and if every
    book counted its copies before, every book does so afterwards. *)
Theorem create_books_and_instances_creates (us : list Z)
    (draws : nat -> BookDraw) (count : Z) (s : Site) :
  reachable us (db s) ->
  exists s' r,
    create_books_and_instances draws count s = (s', inr r) /\
    reachable us (db s') /\
    (synced (db s) -> synced (db s')) /\
    borrowings (db s') = borrowings (db s) /\
    (forall k b, books (db s) !! k = Some b -> books (db s') !! k = Some b) /\
    (forall i o, instances (db s) !! i = Some o ->
                 instances (db s') !! i = Some o) /\
    match r with
    | NoAuthorsFound => authors s = ∅ /\ s' = s
    | CreatedBooks nb ni =>
        authors s <> ∅ /\
        nb = Z.max 0 count /\ nb <= ni <= 6 * nb /\
        Z.of_nat (size (books (db s')))
        = Z.of_nat (size (books (db s))) + nb /\
        Z.of_nat (size (instances (db s')))
        = Z.of_nat (size (instances (db s))) + ni /\
        available_count (db s') = available_count (db s) + ni
    end.
Proof.
  intros Hr. destruct (decide (authors s = ∅)) as [He|Hne].
  { exists s, NoAuthorsFound. by rewrite create_books_none. }
  destruct (create_books_run us draws count s Hr Hne)
    as (s' & ci & Hrun & Hr' & Hba).
  exists s', (CreatedBooks (Z.max 0 count) ci).
  split; [exact Hrun|]. split; [exact Hr'|].
  split; [by apply (ba_synced _ _ _ _ _ _ Hba)|].
  split; [by apply (ba_borrowings _ _ _ _ _ _ Hba)|].
  split; [|split; [by apply (ba_instances_old _ _ _ _ _ _ Hba)|]].
  - intros k b Hk. rewrite (ba_books_other _ _ _ _ _ _ Hba); [done|].
    apply (wf_book_key _ (reachable_wf us _ Hr)) in Hk.
    unfold new_book. lia.
  - split; [done|]. split; [done|].
    pose proof (ba_bounds _ _ _ _ _ _ Hba).
    split; [lia|]. split; [by apply (ba_books_size _ _ _ _ _ _ Hba)|].
    split; [by apply (ba_instances_size _ _ _ _ _ _ Hba)|].
    by apply (ba_available _ _ _ _ _ _ Hba).
Qed.

(** X22. Every book that [create_books_and_instances] has created, on a
    catalogue that the operations produce from the empty database, has
    between one and six copies on record, all of them available, and as
    many instances, all available; it has one to three different authors,
    all of them authors of the site; and its genres are either not set or
    one to three different genres of the site. *)
Theorem created_books_relations (us : list Z) (draws : nat -> BookDraw)
    (count : Z) (s s' : Site) (r : BooksReport) (k : Z) (b : Book) :
  reachable us (db s) ->
  create_books_and_instances draws count s = (s', inr r) ->
  books (db s) !! k = None ->
  books (db s') !! k = Some b ->
  1 <= total_copies b <= 6 /\
  available_copies b = total_copies b /\
  copies_of k (db s') = total_copies b /\
  available_of k (db s') = total_copies b /\
  (exists l, book_authors s' !! k = Some l /\ one_to_three (authors s) l) /\
  (book_genres s' !! k = book_genres s !! k \/
   exists l, book_genres s' !! k = Some l /\ one_to_three (genres s) l).
Proof.
  intros Hr Hrun Hk Hk'. destruct (decide (authors s = ∅)) as [He|Hne].
  { rewrite create_books_none in Hrun by done. congruence. }
  destruct (create_books_run us draws count s Hr Hne)
    as (s1 & ci & Hrun1 & Hr1 & Hba).
  rewrite Hrun in Hrun1. injection Hrun1 as -> ->.
  assert (new_book s s1 k) as Hnew.
  { destruct (decide (new_book s s1 k)) as [|Hn]; [done|].
    rewrite (ba_books_other _ _ _ _ _ _ Hba) in Hk' by done. congruence. }
  destruct (ba_new_book _ _ _ _ _ _ Hba k Hnew) as (b' & Hb' & H1 & H2 & H3 & H4).
  assert (b' = b) as -> by congruence.
  do 4 (split; [done|]). split.
  - destruct (ba_new_authors _ _ _ _ _ _ Hba k Hnew) as (l & Hl & Hsub & Hlen).
    exists l. split; [done|]. destruct (submseteq_keys _ _ Hsub) as [Hnd Hin].
    split; [exact Hnd|]. split; [exact Hlen|exact Hin].
  - destruct (ba_new_genres _ _ _ _ _ _ Hba k Hnew)
      as [?|(l & Hl & Hsub & Hlen)]; [by left|].
    right. exists l. split; [done|]. destruct (submseteq_keys _ _ Hsub) as [Hnd Hin].
    split; [exact Hnd|]. split; [exact Hlen|exact Hin].
Qed.

(** ** handle *)

(** [create_genres] on a site without genres. *)
Lemma create_genres_empty_run (draws : nat -> nat) (sentence : nat -> string)
    (count : Z) (s : Site) :
  genres s = ∅ ->
  let n := if 0 <=? count then Z.min count 16 else Z.max 0 (16 + count) in
  exists s',
    create_genres draws sentence count s = (s', inr n) /\
    db s' = db s /\ authors s' = authors s /\
    next_user_id s' = next_user_id s /\
    Z.of_nat (size (genres s')) = n.
Proof.
  intros Hempty n.
  assert (genres_ok s) as Hok.
  { split; intros *; rewrite Hempty; intros; simplify_map_eq. }
  destruct (create_genres_loop sentence
              (imap (fun i nm => (i, nm))
                 (slice_to (shuffle draws base) count)) s Hok)
    as (s' & n' & Hrun & _ & Hdb & Ha & _ & _ & _ & Hnu & _ & Hsize & _ & _
        & _ & _ & Hall & _).
  assert (n' = n) as ->.
  { rewrite Hall.
    - rewrite length_imap, slice_to_length, shuffle_length, base_length. done.
    - intros nm (k & g & Hk & _). rewrite Hempty in Hk. simplify_map_eq.
    - rewrite genre_names_visited.
      assert (NoDup (shuffle draws base)) as Hnd
        by (rewrite shuffle_Permutation; apply base_NoDup).
      unfold slice_to.
      destruct (0 <=? count);
        (eapply sublist_NoDup; [exact Hnd|apply sublist_take]). }
  exists s'. split; [exact Hrun|]. do 3 (split; [done|]).
  rewrite Hsize, Hempty, map_size_empty. lia.
Qed.

Lemma available_count_0 (w : World) :
  available_count w = 0 <-> available_instances_query w = [].
Proof.
  unfold available_count. destruct (available_instances_query w); simpl.
  - done.
  - split; [lia|done].
Qed.

(** The end of [create_borrowings] on a consistent catalogue. *)
Lemma create_borrowings_end (us : list Z) (w : World) (fuel : nat)
    (rng : nat -> Draw) (count : Z) :
  reachable us w ->
  synced w ->
  (Z.to_nat count <= fuel)%nat ->
  exists w' r,
    create_borrowings fuel rng count w = (w', inr (Some r)) /\
    reachable us w' /\ synced w' /\
    match r with
    | NoUsersFound => users w = []
    | NoInstancesFound => users w <> [] /\ available_count w = 0
    | CreatedRecords n =>
        users w <> [] /\ 0 < available_count w /\
        Z.min (Z.max 0 count) (available_count w) <= n <= Z.max 0 count
    end.
Proof.
  intros Hr Hs Hfuel. pose proof (reachable_wf us w Hr) as Hwf.
  destruct (create_borrowings_ops fuel rng count w Hwf)
    as (ops & r & Heq & Hops).
  assert (reachable us (run_ops ops w)) as Hr'.
  { apply reachable_run_ops; [done|].
    eapply Forall_impl; [exact Hops|]. apply borrow_op_valid. }
  assert (synced (run_ops ops w)) as Hs' by by apply synced_run_ops.
  destruct (decide (users w = [])) as [Hus|Hus].
  { exists (run_ops ops w), NoUsersFound. split; [|done].
    rewrite Heq. revert Heq. unfold create_borrowings, bind, gets. simpl.
    rewrite Hus. unfold ret. congruence. }
  destruct (decide (available_count w = 0)) as [Hav|Hav].
  { exists (run_ops ops w), NoInstancesFound. split; [|done].
    rewrite Heq. revert Heq. unfold create_borrowings, bind, gets. simpl.
    destruct (users w); [done|].
    apply available_count_0 in Hav. rewrite Hav. unfold ret. congruence. }
  assert (0 < available_count w) as Hpos by (unfold available_count in *; lia).
  destruct (create_borrowings_created us w fuel rng count Hr Hus Hpos Hfuel)
    as (n & w' & Hrun & Hn & Hmin).
  exists w', (CreatedRecords n).
  assert (w' = run_ops ops w) as -> by congruence.
  split; [done|]. split; [done|]. split; [done|].
  split; [done|]. split; [done|]. split; [done|].
  destruct Hn as [->|(Hlt & _)]; lia.
Qed.

Lemma range_nil (count : Z) : range count = [] <-> count <= 0.
Proof.
  pose proof (range_length count). destruct (range count); simpl in *.
  - split; [lia|done].
  - split; [done|lia].
Qed.

(** The whole command on the empty site. *)
Lemma handle_run (fuel : nat) (draws : SeedDraws) (kwargs : Options) :
  (Z.to_nat (opt_borrowings kwargs) <= fuel)%nat ->
  exists s' rep ni,
    handle fuel draws kwargs empty_site = (s', inr rep) /\
    reachable ((fun i : nat => 1 + Z.of_nat i) <$> range (opt_users kwargs))
      (db s') /\
    synced (db s') /\
    authors_created rep = Z.max 0 (opt_authors kwargs) /\
    Z.of_nat (size (authors s')) = authors_created rep /\
    genres_created rep
    = (if 0 <=? opt_genres kwargs then Z.min (opt_genres kwargs) 16
       else Z.max 0 (16 + opt_genres kwargs)) /\
    Z.of_nat (size (genres s')) = genres_created rep /\
    users_created rep = Z.max 0 (opt_users kwargs) /\
    match books_report rep with
    | NoAuthorsFound => opt_authors kwargs <= 0 /\ ni = 0
    | CreatedBooks nb n =>
        0 < opt_authors kwargs /\ nb = Z.max 0 (opt_books kwargs) /\
        n = ni /\ nb <= ni <= 6 * nb
    end /\
    match borrowings_report rep with
    | None => False
    | Some NoUsersFound => opt_users kwargs <= 0
    | Some NoInstancesFound => 0 < opt_users kwargs /\ ni = 0
    | Some (CreatedRecords n) =>
        0 < opt_users kwargs /\ 0 < ni /\
        Z.min (Z.max 0 (opt_borrowings kwargs)) ni <= n
        <= Z.max 0 (opt_borrowings kwargs)
    end.
Proof.
  intros Hfuel. destruct kwargs as [a g b u r]. simpl in *.
  set (keys := (fun i : nat => 1 + Z.of_nat i) <$> range u).
  (* authors *)
  destruct (create_authors_run (author_draws draws) a empty_site)
    as (s1 & Hrun1 & Hdb1 & Hg1 & _ & _ & _ & Hnu1 & _ & Hsz1 & _);
    [by intros k x H; simplify_map_eq|].
  change (authors empty_site) with (∅ : gmap Z Author) in Hsz1.
  rewrite map_size_empty in Hsz1.
  (* genres *)
  destruct (create_genres_empty_run (genre_shuffle_draws draws)
              (genre_sentences draws) g s1 Hg1)
    as (s2 & Hrun2 & Hdb2 & Ha2 & Hnu2 & Hsz2).
  (* users *)
  destruct (create_users_run u s2)
    as (s3 & Hrun3 & Hdb3 & Ha3 & Hg3 & _ & _ & _ & _ & _).
  assert (db s3 = empty_world keys) as Hw3.
  { rewrite Hdb3, Hdb2, Hdb1, Hnu2, Hnu1. done. }
  assert (reachable keys (db s3)) as Hr3 by (rewrite Hw3; constructor).
  assert (synced (db s3)) as Hs3.
  { rewrite Hw3. intros k x H. simplify_map_eq. }
  assert (available_count (db s3) = 0) as Hav3.
  { rewrite Hw3. unfold available_count, available_instances_query. simpl.
    by rewrite map_to_list_empty. }
  assert (keys = [] <-> u <= 0) as Hkeys.
  { unfold keys. rewrite <- range_nil. split; [|by intros ->].
    by intros ?%fmap_nil_inv. }
  (* books *)
  assert (exists s4 rb ni,
    create_books_and_instances (book_draws draws) b s3 = (s4, inr rb) /\
    reachable keys (db s4) /\ synced (db s4) /\
    users (db s4) = keys /\ available_count (db s4) = ni /\
    authors s4 = authors s3 /\ genres s4 = genres s3 /\
    match rb with
    | NoAuthorsFound => a <= 0 /\ ni = 0
    | CreatedBooks nb n =>
        0 < a /\ nb = Z.max 0 b /\ n = ni /\ nb <= ni <= 6 * nb
    end) as (s4 & rb & ni & Hrun4 & Hr4 & Hs4 & Hu4 & Hav4 & Ha4 & Hg4 & Hrb).
  { destruct (decide (authors s3 = ∅)) as [He|Hne].
    - exists s3, NoAuthorsFound, 0. rewrite create_books_none by done.
      split; [done|]. split; [done|]. split; [done|].
      split; [by rewrite Hw3|]. split; [done|]. split; [done|].
      split; [done|]. split; [|done].
      rewrite Ha3, Ha2 in He. rewrite He, map_size_empty in Hsz1. lia.
    - destruct (create_books_run keys (book_draws draws) b s3 Hr3 Hne)
        as (s4 & ci & Hrun4 & Hr4 & Hba).
      exists s4, (CreatedBooks (Z.max 0 b) ci), ci.
      split; [done|]. split; [done|].
      split; [by apply (ba_synced _ _ _ _ _ _ Hba)|].
      split; [by rewrite (ba_users _ _ _ _ _ _ Hba), Hw3|].
      split; [rewrite (ba_available _ _ _ _ _ _ Hba); lia|].
      split; [by apply (ba_authors _ _ _ _ _ _ Hba)|].
      split; [by apply (ba_genres _ _ _ _ _ _ Hba)|].
      pose proof (ba_bounds _ _ _ _ _ _ Hba).
      split; [|split; [done|split; [done|lia]]].
      destruct (decide (0 < a)) as [|Hle]; [done|]. exfalso. apply Hne.
      rewrite Ha3, Ha2. apply map_size_empty_iff. lia. }
  (* borrowings *)
  destruct (create_borrowings_end keys (db s4) fuel (borrowing_draws draws) r
              Hr4 Hs4 Hfuel) as (w5 & rr & Hrun5 & Hr5 & Hs5 & Hrr).
  exists (set_db w5 s4), (mkSeedReport (Z.max 0 a)
    (if 0 <=? g then Z.min g 16 else Z.max 0 (16 + g)) (Z.max 0 u) rb
    (Some rr)), ni.
  split.
  { unfold handle, atomic. simpl.
    unfold cbind at 1. rewrite Hrun1.
    unfold cbind at 1. rewrite Hrun2.
    unfold cbind at 1. rewrite Hrun3.
    unfold cbind at 1. rewrite Hrun4.
    unfold cbind at 1. rewrite (lift_inr _ _ _ _ Hrun5). done. }
  cbn [db set_db authors genres authors_created genres_created users_created
       books_report borrowings_report].
  split; [done|]. split; [done|]. split; [done|].
  split; [rewrite Ha4, Ha3, Ha2; lia|]. split; [done|].
  split; [by rewrite Hg4, Hg3|]. split; [done|]. split; [done|].
  rewrite Hu4, Hav4 in Hrr. destruct rr as [| |n].
  - by apply Hkeys.
  - destruct Hrr as [Hne Hni]. split; [|done]. rewrite Hkeys in Hne. lia.
  - destruct Hrr as (Hne & Hpos & Hn). rewrite Hkeys in Hne.
    split; [lia|]. done.
Qed.

(** X23. Run on the empty site with enough fuel for the requested
    borrowings, [handle] raises nothing, whatever the options and the draws
    are.  It reports [max(0, n)] authors and users, the genres of
    [base[:count]], and either that there are no authors or [max(0, books)]
    books with between once and six times as many instances; the borrowings
    it reports are at most the requested number and at least the smaller of
    that number and the number of instances.  The catalogue it leaves is one
    that the operations produce from the empty database, and every book in
    it counts its copies. *)
Theorem handle_seeds_empty_site (fuel : nat) (draws : SeedDraws)
    (kwargs : Options) :
  (Z.to_nat (opt_borrowings kwargs) <= fuel)%nat ->
  exists s' rep ni,
    handle fuel draws kwargs empty_site = (s', inr rep) /\
    reachable ((fun i : nat => 1 + Z.of_nat i) <$> range (opt_users kwargs))
      (db s') /\
    synced (db s') /\
    authors_created rep = Z.max 0 (opt_authors kwargs) /\
    Z.of_nat (size (authors s')) = authors_created rep /\
    genres_created rep
    = (if 0 <=? opt_genres kwargs then Z.min (opt_genres kwargs) 16
       else Z.max 0 (16 + opt_genres kwargs)) /\
    Z.of_nat (size (genres s')) = genres_created rep /\
    users_created rep = Z.max 0 (opt_users kwargs) /\
    match books_report rep with
    | NoAuthorsFound => opt_authors kwargs <= 0 /\ ni = 0
    | CreatedBooks nb n =>
        0 < opt_authors kwargs /\ nb = Z.max 0 (opt_books kwargs) /\
        n = ni /\ nb <= ni <= 6 * nb
    end /\
    match borrowings_report rep with
    | None => False
    | Some NoUsersFound => opt_users kwargs <= 0
    | Some NoInstancesFound => 0 < opt_users kwargs /\ ni = 0
    | Some (CreatedRecords n) =>
        0 < opt_users kwargs /\ 0 < ni /\
        Z.min (Z.max 0 (opt_borrowings kwargs)) ni <= n
        <= Z.max 0 (opt_borrowings kwargs)
    end.
Proof. apply handle_run. Qed.

(** X24. With the defaults of [add_arguments] and fuel for forty passes,
    [handle] on the empty site reports 25 authors, 12 genres, 30 users, 60
    books with between 60 and 360 instances, and exactly 40 borrowings,
    whatever the draws are. *)
Theorem handle_defaults (fuel : nat) (draws : SeedDraws) :
  (40 <= fuel)%nat ->
  exists s' ni,
    handle fuel draws default_options empty_site
    = (s', inr (mkSeedReport 25 12 30 (CreatedBooks 60 ni)
                  (Some (CreatedRecords 40)))) /\
    60 <= ni <= 360 /\
    size (authors s') = 25%nat /\ size (genres s') = 12%nat.
Proof.
  intros Hfuel.
  destruct (handle_run fuel draws default_options)
    as (s' & rep & ni & Hrun & _ & _ & Ha & Hsa & Hg & Hsg & Hu & Hb & Hr);
    [simpl; lia|].
  destruct rep as [ra rg ru rb rr]. simpl in *.
  destruct rb as [|nb n]; [lia|]. destruct Hb as (_ & -> & -> & Hni).
  destruct rr as [[| |n]|]; [lia|lia| |done].
  exists s', ni. split; [|split; [lia|lia]].
  rewrite Hrun. subst. repeat f_equal. lia.
Qed.

(** * The further properties on sample databases and sites *)

Lemma synced_two_available : synced two_available.
Proof.
  assert (books two_available = {[1 := mkBook (Some 1) 2 2]}) as Hb
    by (vm_compute; reflexivity).
  intros k b. rewrite Hb. intros [<- <-]%lookup_singleton_Some.
  split; vm_compute; reflexivity.
Defined.






Lemma rows_persist_witness :
  reachable [1] two_available /\
  (forall k, is_Some (books two_available !! k) ->
     is_Some (books (run_op (CreateBorrowing 1 1 0 14) two_available).1 !! k)) /\
  (forall k, is_Some (borrowings two_available !! k) ->
     is_Some
       (borrowings (run_op (CreateBorrowing 1 1 0 14) two_available).1 !! k)) /\
  (forall i r, instances two_available !! i = Some r ->
     exists r',
       instances (run_op (CreateBorrowing 1 1 0 14) two_available).1 !! i
       = Some r' /\
       inventory_number r' = inventory_number r /\
       book_id r' = book_id r /\ condition r' = condition r).
Proof.
  split; [apply reachable_two_available|].
  apply (rows_persist [1] two_available (CreateBorrowing 1 1 0 14)).
  apply reachable_two_available.
Defined.

Lemma inventory_number_read_back_witness :
  0 <= 7 /\ py_int (last_segment (inventory_format 1 7)) = Some 7.
Proof.
  split; [lia|]. apply (inventory_number_read_back 1 7). lia.
Defined.

Lemma inventory_format_injective_witness :
  0 <= 1 /\ 0 <= 2 /\
  inventory_format 1 2 = inventory_format 1 2 /\
  1 = 1 /\ 2 = 2.
Proof.
  split; [lia|]. split; [lia|]. split; [reflexivity|].
  apply (inventory_format_injective 1 1 2 2); try lia. reflexivity.
Defined.

Lemma borrowing_keeps_counts_witness :
  reachable [1] two_available /\
  synced two_available /\
  borrow_op (CreateBorrowing 1 1 0 14) /\
  synced (run_op (CreateBorrowing 1 1 0 14) two_available).1 /\
  forall k b,
    books (run_op (CreateBorrowing 1 1 0 14) two_available).1 !! k = Some b ->
    0 <= available_copies b <= total_copies b.
Proof.
  split; [apply reachable_two_available|].
  split; [apply synced_two_available|]. split; [exact I|].
  apply (borrowing_keeps_counts [1] two_available (CreateBorrowing 1 1 0 14)).
  - apply reachable_two_available.
  - apply synced_two_available.
  - exact I.
Defined.




Lemma genres_ok_empty_site : genres_ok empty_site.
Proof.
  split; intros k; intros; exfalso;
    match goal with H : genres empty_site !! k = Some _ |- _ =>
      vm_compute in H; discriminate H end.
Defined.

Lemma create_authors_creates_witness :
  (forall k a, authors empty_site !! k = Some a ->
               k < next_author_id empty_site) /\
  exists s',
    create_authors author_draw 2 empty_site = (s', inr (Z.max 0 2)) /\
    db s' = db empty_site /\ genres s' = genres empty_site /\
    Z.of_nat (size (authors s'))
    = Z.of_nat (size (authors empty_site)) + Z.max 0 2 /\
    (forall k a, authors empty_site !! k = Some a -> authors s' !! k = Some a) /\
    (forall i, (i < Z.to_nat 2)%nat ->
       exists a,
         authors s' !! (next_author_id empty_site + Z.of_nat i) = Some a /\
         first_name a = fake_first_name (author_draw i) /\
         last_name a = fake_last_name (author_draw i) /\
         (still_alive (author_draw i) = true -> date_of_death a = None)).
Proof.
  split.
  - intros k a H. vm_compute in H. discriminate H.
  - apply (create_authors_creates author_draw 2 empty_site).
    intros k a H. vm_compute in H. discriminate H.
Defined.

Lemma create_genres_keeps_names_unique_witness :
  genres_ok empty_site /\
  exists s' n,
    create_genres (fun _ => 0%nat) (fun _ => ""%string) 3 empty_site
    = (s', inr n) /\
    genres_ok s' /\
    db s' = db empty_site /\
    0 <= n <= 16 /\
    Z.of_nat (size (genres s')) = Z.of_nat (size (genres empty_site)) + n /\
    (forall k g, genres empty_site !! k = Some g -> genres s' !! k = Some g) /\
    (forall nm, nm ∈ slice_to (shuffle (fun _ => 0%nat) base) 3 ->
                has_genre s' nm) /\
    (forall nm, has_genre s' nm -> has_genre empty_site nm \/ nm ∈ base).
Proof.
  split; [apply genres_ok_empty_site|].
  apply (create_genres_keeps_names_unique (fun _ => 0%nat)
           (fun _ => ""%string) 3 empty_site).
  apply genres_ok_empty_site.
Defined.

Lemma create_genres_on_empty_witness :
  genres empty_site = ∅ /\
  exists s',
    create_genres (fun _ => 0%nat) (fun _ => ""%string) (-4) empty_site
    = (s', inr (if 0 <=? -4 then Z.min (-4) 16 else Z.max 0 (16 + -4))).
Proof.
  split; [reflexivity|].
  apply (create_genres_on_empty (fun _ => 0%nat) (fun _ => ""%string) (-4)
           empty_site).
  reflexivity.
Defined.

Lemma create_genres_again_witness :
  genres_ok empty_site /\
  16 <= 16 /\
  exists s1 n,
    create_genres (fun _ => 0%nat) (fun _ => ""%string) 16 empty_site
    = (s1, inr n) /\
    (forall nm, nm ∈ base -> has_genre s1 nm) /\
    create_genres (fun i => i) (fun _ => ""%string) 12 s1 = (s1, inr 0).
Proof.
  split; [apply genres_ok_empty_site|]. split; [lia|].
  apply (create_genres_again (fun _ => 0%nat) (fun i => i)
           (fun _ => ""%string) (fun _ => ""%string) 16 12 empty_site).
  - apply genres_ok_empty_site.
  - lia.
Defined.

Lemma create_books_and_instances_creates_witness :
  reachable [1] (db one_author) /\
  exists s' r,
    create_books_and_instances book_draw 1 one_author = (s', inr r) /\
    reachable [1] (db s') /\
    (synced (db one_author) -> synced (db s')) /\
    borrowings (db s') = borrowings (db one_author) /\
    (forall k b, books (db one_author) !! k = Some b ->
                 books (db s') !! k = Some b) /\
    (forall i o, instances (db one_author) !! i = Some o ->
                 instances (db s') !! i = Some o) /\
    match r with
    | NoAuthorsFound => authors one_author = ∅ /\ s' = one_author
    | CreatedBooks nb ni =>
        authors one_author <> ∅ /\
        nb = Z.max 0 1 /\ nb <= ni <= 6 * nb /\
        Z.of_nat (size (books (db s')))
        = Z.of_nat (size (books (db one_author))) + nb /\
        Z.of_nat (size (instances (db s')))
        = Z.of_nat (size (instances (db one_author))) + ni /\
        available_count (db s') = available_count (db one_author) + ni
    end.
Proof.
  split; [apply reachable_empty|].
  apply (create_books_and_instances_creates [1] book_draw 1 one_author).
  apply reachable_empty.
Defined.

Lemma created_books_relations_witness :
  reachable [1] (db one_author) /\
  create_books_and_instances book_draw 1 one_author
  = (one_book, inr (CreatedBooks 1 2)) /\
  books (db one_author) !! 1 = None /\
  books (db one_book) !! 1 = Some (mkBook (Some 1) 2 2) /\
  1 <= total_copies (mkBook (Some 1) 2 2) <= 6 /\
  available_copies (mkBook (Some 1) 2 2) = total_copies (mkBook (Some 1) 2 2) /\
  copies_of 1 (db one_book) = total_copies (mkBook (Some 1) 2 2) /\
  available_of 1 (db one_book) = total_copies (mkBook (Some 1) 2 2) /\
  (exists l, book_authors one_book !! 1 = Some l /\
             one_to_three (authors one_author) l) /\
  (book_genres one_book !! 1 = book_genres one_author !! 1 \/
   exists l, book_genres one_book !! 1 = Some l /\
             one_to_three (genres one_author) l).
Proof.
  split; [apply reachable_empty|].
  split; [vm_compute; reflexivity|].
  split; [vm_compute; reflexivity|].
  split; [vm_compute; reflexivity|].
  apply (created_books_relations [1] book_draw 1 one_author one_book
           (CreatedBooks 1 2) 1 (mkBook (Some 1) 2 2)).
  - apply reachable_empty.
  - vm_compute. reflexivity.
  - vm_compute. reflexivity.
  - vm_compute. reflexivity.
Defined.

Lemma handle_seeds_empty_site_witness :
  (Z.to_nat (opt_borrowings (mkOptions 2 3 3 2 4)) <= 10)%nat /\
  exists s' rep ni,
    handle 10 seed_draws (mkOptions 2 3 3 2 4) empty_site = (s', inr rep) /\
    reachable
      ((fun i : nat => 1 + Z.of_nat i)
         <$> range (opt_users (mkOptions 2 3 3 2 4)))
      (db s') /\
    synced (db s') /\
    authors_created rep = Z.max 0 (opt_authors (mkOptions 2 3 3 2 4)) /\
    Z.of_nat (size (authors s')) = authors_created rep /\
    genres_created rep
    = (if 0 <=? opt_genres (mkOptions 2 3 3 2 4)
       then Z.min (opt_genres (mkOptions 2 3 3 2 4)) 16
       else Z.max 0 (16 + opt_genres (mkOptions 2 3 3 2 4))) /\
    Z.of_nat (size (genres s')) = genres_created rep /\
    users_created rep = Z.max 0 (opt_users (mkOptions 2 3 3 2 4)) /\
    match books_report rep with
    | NoAuthorsFound => opt_authors (mkOptions 2 3 3 2 4) <= 0 /\ ni = 0
    | CreatedBooks nb n =>
        0 < opt_authors (mkOptions 2 3 3 2 4) /\
        nb = Z.max 0 (opt_books (mkOptions 2 3 3 2 4)) /\
        n = ni /\ nb <= ni <= 6 * nb
    end /\
    match borrowings_report rep with
    | None => False
    | Some NoUsersFound => opt_users (mkOptions 2 3 3 2 4) <= 0
    | Some NoInstancesFound => 0 < opt_users (mkOptions 2 3 3 2 4) /\ ni = 0
    | Some (CreatedRecords n) =>
        0 < opt_users (mkOptions 2 3 3 2 4) /\ 0 < ni /\
        Z.min (Z.max 0 (opt_borrowings (mkOptions 2 3 3 2 4))) ni <= n
        <= Z.max 0 (opt_borrowings (mkOptions 2 3 3 2 4))
    end.
Proof.
  split; [vm_compute; lia|].
  apply (handle_seeds_empty_site 10 seed_draws (mkOptions 2 3 3 2 4)).
  vm_compute. lia.
Defined.

Lemma handle_defaults_witness :
  (40 <= 40)%nat /\
  exists s' ni,
    handle 40 seed_draws default_options empty_site
    = (s', inr (mkSeedReport 25 12 30 (CreatedBooks 60 ni)
                  (Some (CreatedRecords 40)))) /\
    60 <= ni <= 360 /\
    size (authors s') = 25%nat /\ size (genres s') = 12%nat.
Proof.
  split; [lia|]. apply (handle_defaults 40 seed_draws). lia.
Defined.
